(** * veles.simd: the numeric kernels of [inc/simd/arithmetic.h]

    A shallow embedding of the scalar reference kernels ([*_na]) and of the
    AVX2, SSE, AVX and NEON variants selected by the preprocessor, with the
    properties the specification states about them.

    Conventions of the embedding.
    - A C pointer is a buffer indexed from the pointed element: [buffer T] is
      [Z -> T].  Reading [p[i]] is application, writing is [store], pointer
      arithmetic [p + k] is [ptr_add].  Nothing is assumed about what lies
      outside [0, length): accesses a routine makes there are modelled like
      any other access.
    - [int16_t], [int32_t] and [int] values are mathematical integers of [Z]
      in the range of the type; conversions between widths are written out
      ([to_int16], [to_int], ...).
    - [float] is IEEE-754 binary32, through the Standard Library's
      [SpecFloat] at precision 24 and maximal exponent 128.
    - The alignment complement of a pointer ([align_complement_*] of
      [simd/memory.h]) depends on the address only; every routine that calls
      it takes its value as an argument ([startIndex]). *)

From Stdlib Require Import ZArith List Lia Bool SpecFloat.
Import ListNotations.
Local Open Scope Z_scope.

(** ** Machine integers *)

(** Conversion of an integer to the unsigned and to the signed [w]-bit type:
    the low [w] bits, read as a natural number or in two's complement (what
    GCC does on a narrowing conversion). *)
Definition to_unsigned (w z : Z) : Z := Z.land z (Z.ones w).
Definition to_signed (w z : Z) : Z :=
  let u := to_unsigned w z in
  if u <? 2 ^ (w - 1) then u else u - 2 ^ w.

Definition to_int16 : Z -> Z := to_signed 16.
Definition to_int32 : Z -> Z := to_signed 32.
Definition to_int : Z -> Z := to_signed 32.
Definition to_uint16 : Z -> Z := to_unsigned 16.
Definition to_uint32 : Z -> Z := to_unsigned 32.
Definition to_uint64 : Z -> Z := to_unsigned 64.

Definition INT_MAX : Z := 2 ^ 31 - 1.

(** [__builtin_clz] on a non-zero 32-bit word. *)
Definition clz32 (x : Z) : Z := 31 - Z.log2 x.

(** ** Buffers and pointers *)

Definition buffer (T : Type) : Type := Z -> T.

Definition store {T} (m : buffer T) (i : Z) (v : T) : buffer T :=
  fun j => if j =? i then v else m j.

Definition ptr_add {T} (m : buffer T) (k : Z) : buffer T :=
  fun i => m (i + k).

(** [n] consecutive elements starting at index [i]. *)
Definition load_vec {T} (m : buffer T) (i : Z) (n : nat) : list T :=
  map (fun k => m (i + Z.of_nat k)) (seq 0 n).

Fixpoint store_vec {T} (m : buffer T) (i : Z) (l : list T) : buffer T :=
  match l with
  | [] => m
  | v :: r => store_vec (store m i v) (i + 1) r
  end.

(** An array given by its elements, with [d] everywhere else. *)
Definition buffer_of_list {T} (d : T) (l : list T) : buffer T :=
  fun i => if i <? 0 then d else nth (Z.to_nat i) l d.

(** ** Loops

    [for (i = start; i < bound; i += step) s = body i s] with [step > 0]:
    the body runs [ceil ((bound - start) / step)] times. *)

Fixpoint iterate {S} (n : nat) (i step : Z) (body : Z -> S -> S) (s : S) : S :=
  match n with
  | O => s
  | Datatypes.S n' => iterate n' (i + step) step body (body i s)
  end.

Definition trip_count (start bound step : Z) : nat :=
  Z.to_nat ((bound - start + step - 1) / step).

Definition for_loop {S} (start bound step : Z) (body : Z -> S -> S) (s : S) : S :=
  iterate (trip_count start bound step) start step body s.

(** The value of the loop variable when the loop is left. *)
Definition loop_end (start bound step : Z) : Z :=
  start + step * Z.of_nat (trip_count start bound step).

(** ** binary32 *)

Definition prec32 : Z := 24.
Definition emax32 : Z := 128.
Definition binary32 : Type := spec_float.

Definition f32_add : binary32 -> binary32 -> binary32 := SFadd prec32 emax32.
Definition f32_mul : binary32 -> binary32 -> binary32 := SFmul prec32 emax32.
Definition f32_zero : binary32 := S754_zero false.

(** [(float)z] for an integer [z]: rounding to nearest, ties to even. *)
Definition f32_of_int (z : Z) : binary32 := binary_normalize prec32 emax32 z 0 false.

(** The integral part of a finite float (rounding toward zero). *)
Definition f32_trunc (f : binary32) : option Z :=
  match f with
  | S754_zero _ => Some 0
  | S754_finite s m e =>
      Some (cond_Zopp s (if 0 <=? e then Zpos m * 2 ^ e else Zpos m / 2 ^ (- e)))
  | _ => None
  end.

(** Truncating conversion to a 32-bit integer as the x86 instructions
    [cvttss2si] and [cvttps2dq] perform it: the integral part when it fits,
    the "integer indefinite" value [0x80000000] otherwise (ISO C leaves the
    latter case undefined). *)
Definition cvtt_int32 (f : binary32) : Z :=
  match f32_trunc f with
  | Some z => if (- 2 ^ 31 <=? z) && (z <? 2 ^ 31) then z else - 2 ^ 31
  | None => - 2 ^ 31
  end.

(** The C casts [(int32_t)f] and [(int16_t)f] of a float, as GCC compiles
    them for x86: a truncating conversion to 32 bits, narrowed for the 16-bit
    type.  Whenever the integral part fits the target type this is the
    integral part, on every target. *)
Definition cast_f32_int32 (f : binary32) : Z := cvtt_int32 f.
Definition cast_f32_int16 (f : binary32) : Z := to_int16 (cvtt_int32 f).

(** The float whose IEEE-754 encoding is the 32-bit word [b]
    (the member [f] of the union [FloatUint32] after [i] was written). *)
Definition f32_of_bits (b : Z) : binary32 :=
  let s := Z.testbit b 31 in
  let e := Z.land (Z.shiftr b 23) 255 in
  let m := Z.land b 8388607 in
  if e =? 0 then
    match m with Zpos p => S754_finite s p (-149) | _ => S754_zero s end
  else if e =? 255 then
    if m =? 0 then S754_infinity s else S754_nan
  else
    match m + 8388608 with Zpos p => S754_finite s p (e - 150) | _ => S754_nan end.

Definition f32_sub : binary32 -> binary32 -> binary32 := SFsub prec32 emax32.
Definition f32_opp : binary32 -> binary32 := SFopp.

(** ** Scalar reference kernels *)

Definition int16_to_float_na (data : buffer Z) (length : Z) (res : buffer binary32)
  : buffer binary32 :=
  for_loop 0 length 1 (fun i res => store res i (f32_of_int (data i))) res.

Definition float_to_int16_na (data : buffer binary32) (length : Z) (res : buffer Z)
  : buffer Z :=
  for_loop 0 length 1 (fun i res => store res i (cast_f32_int16 (data i))) res.

Definition int32_to_float_na (data : buffer Z) (length : Z) (res : buffer binary32)
  : buffer binary32 :=
  for_loop 0 length 1 (fun i res => store res i (f32_of_int (data i))) res.

Definition float_to_int32_na (data : buffer binary32) (length : Z) (res : buffer Z)
  : buffer Z :=
  for_loop 0 length 1 (fun i res => store res i (cast_f32_int32 (data i))) res.

Definition int32_to_int16_na (data : buffer Z) (length : Z) (res : buffer Z)
  : buffer Z :=
  for_loop 0 length 1 (fun i res => store res i (to_int16 (data i))) res.

Definition int16_to_int32_na (data : buffer Z) (length : Z) (res : buffer Z)
  : buffer Z :=
  for_loop 0 length 1 (fun i res => store res i (to_int32 (data i))) res.

(** One iteration of the loop of [float16_to_float_na]: the 32-bit word
    [bp.i] computed from the 16-bit word [in]. *)
Definition float16_decode (in_ : Z) : Z :=
  let exp := Z.land in_ 0x7c00 in
  let bp :=
    if exp =? 0 then
      let bp := Z.land in_ 0x03ff in
      if bp =? 0 then bp
      else
        let lz := clz32 bp - 16 - 6 in
        let exp := to_uint32 (Z.shiftl (to_uint32 (127 - 15 - lz)) 23) in
        let bp := to_uint32 (Z.shiftl bp (lz + 1)) in
        Z.lor exp (to_uint32 (Z.shiftl (Z.land bp 0x03ff) 13))
    else if exp =? 0x7c00 then
      let bp := Z.land in_ 0x03ff in
      let bp := to_uint32 (Z.shiftl bp 13) in
      Z.lor bp 0x7f800000
    else
      let bp := Z.land in_ 0x7fff in
      let bp := to_uint32 (Z.shiftl bp 13) in
      to_uint32 (bp + 0x38000000) in
  let sign := Z.land in_ 0x8000 in
  let sign := to_uint32 (Z.shiftl sign 16) in
  Z.lor bp sign.

(** The result buffer holds the encodings: the routine writes its floats
    through their bits. *)
Definition float16_to_float_na (data : buffer Z) (length : Z) (res : buffer Z)
  : buffer Z :=
  for_loop 0 length 1 (fun i res => store res i (float16_decode (data i))) res.

(** Kernels on floats are written over the lane arithmetic, so that the same
    definitions can be read at binary32 and at any other carrier. *)
Section FloatKernels.
Context {F : Type}.
Variable fadd fmul : F -> F -> F.
Variable fzero : F.

Definition real_multiply_scalar_na (array : buffer F) (length : Z) (value : F)
           (res : buffer F) : buffer F :=
  for_loop 0 length 1 (fun i res => store res i (fmul (array i) value)) res.

Definition sum_elements_na (input : buffer F) (length : Z) : F :=
  for_loop 0 (to_int length) 1 (fun j res => fadd res (input j)) fzero.

Definition add_to_all_na (input : buffer F) (length : Z) (value : F)
           (output : buffer F) : buffer F :=
  for_loop 0 (to_int length) 1
           (fun j output => store output j (fadd (input j) value)) output.
End FloatKernels.

Section MultiplyKernels.
Context {F : Type}.
Variable fmul : F -> F -> F.

Definition real_multiply_na (a b res : buffer F) : buffer F :=
  store res 0 (fmul (a 0) (b 0)).

Definition real_multiply_array_na (a b : buffer F) (length : Z) (res : buffer F)
  : buffer F :=
  let ilength := to_int length in
  for_loop 0 ilength 1 (fun j res => store res j (fmul (a j) (b j))) res.
End MultiplyKernels.

(** Complex numbers are pairs of consecutive floats, real part first. *)
Definition complex_multiply_na (a b res : buffer binary32) : buffer binary32 :=
  let re1 := a 0 in
  let im1 := a 1 in
  let re2 := b 0 in
  let im2 := b 1 in
  let res := store res 0 (f32_sub (f32_mul re1 re2) (f32_mul im1 im2)) in
  store res 1 (f32_add (f32_mul re1 im2) (f32_mul re2 im1)).

Definition complex_multiply_conjugate_na (a b res : buffer binary32)
  : buffer binary32 :=
  let re1 := a 0 in
  let im1 := a 1 in
  let re2 := b 0 in
  let im2 := f32_opp (b 1) in
  let res := store res 0 (f32_sub (f32_mul re1 re2) (f32_mul im1 im2)) in
  store res 1 (f32_add (f32_mul re1 im2) (f32_mul re2 im1)).

Definition complex_conjugate_na (array : buffer binary32) (length : Z)
           (res : buffer binary32) : buffer binary32 :=
  for_loop 1 length 2
           (fun i res =>
              let res := store res (i - 1) (array (i - 1)) in
              store res i (f32_opp (array i))) res.

(** ** The power-of-two helper *)

Definition next_highest_power_of_2 (value : Z) : Z :=
  let value := to_int (value - 1) in
  let value := Z.lor value (Z.shiftr value 1) in
  let value := Z.lor value (Z.shiftr value 2) in
  let value := Z.lor value (Z.shiftr value 4) in
  let value := Z.lor value (Z.shiftr value 8) in
  let value := Z.lor value (Z.shiftr value 16) in
  to_int (value + 1).

(** ** Vector registers

    An integer register ([__m128i], [__m256i]) is the unsigned integer its
    bits spell, lane 0 in the low bits; [lanes] and [pack] give the view an
    instruction takes of it.  A float register ([__m256], [float32x4_t]) and
    the lane-typed NEON integer vectors are the lists of their lanes. *)

Definition lanes (w : Z) (n : nat) (v : Z) : list Z :=
  map (fun k => Z.land (Z.shiftr v (w * Z.of_nat k)) (Z.ones w)) (seq 0 n).

Fixpoint pack (w : Z) (l : list Z) : Z :=
  match l with
  | [] => 0
  | x :: r => Z.lor (Z.land x (Z.ones w)) (Z.shiftl (pack w r) w)
  end.

Fixpoint map2 {A B C} (f : A -> B -> C) (l : list A) (l' : list B) : list C :=
  match l, l' with
  | a :: r, b :: r' => f a b :: map2 f r r'
  | _, _ => []
  end.

Fixpoint interleave {A} (l l' : list A) : list A :=
  match l, l' with
  | a :: r, b :: r' => a :: b :: interleave r r'
  | _, _ => []
  end.

(** Signed saturation of a 32-bit lane to 16 bits. *)
Definition saturate_int16 (x : Z) : Z :=
  let s := to_signed 32 x in
  if s <? - 32768 then - 32768 else if 32767 <? s then 32767 else s.

(** Instructions on integer registers, for both register widths. *)
Module X86.

(** Loads and stores through a pointer to elements of [w] bits. *)
Definition _mm_load_si128 (w : Z) (p : buffer Z) (i : Z) : Z :=
  pack w (load_vec p i (Z.to_nat (128 / w))).
Definition _mm256_load_si256 (w : Z) (p : buffer Z) (i : Z) : Z :=
  pack w (load_vec p i (Z.to_nat (256 / w))).
Definition _mm_store_si128 (w : Z) (p : buffer Z) (i : Z) (v : Z) : buffer Z :=
  store_vec p i (map (to_signed w) (lanes w (Z.to_nat (128 / w)) v)).
Definition _mm256_store_si256 (w : Z) (p : buffer Z) (i : Z) (v : Z) : buffer Z :=
  store_vec p i (map (to_signed w) (lanes w (Z.to_nat (256 / w)) v)).
(** A store of raw 32-bit words (the float buffer of the half decoder). *)
Definition _mm_store_si128_bits (p : buffer Z) (i : Z) (v : Z) : buffer Z :=
  store_vec p i (lanes 32 4 v).

Definition _mm_set1_epi16 (x : Z) : Z := pack 16 (repeat x 8).
Definition _mm_set1_epi32 (x : Z) : Z := pack 32 (repeat x 4).
Definition _mm256_set1_epi16 (x : Z) : Z := pack 16 (repeat x 16).

Definition _mm_and_si128 (a b : Z) : Z := Z.land a b.
Definition _mm_or_si128 (a b : Z) : Z := Z.lor a b.

Definition _mm_cmpeq_epi16 (a b : Z) : Z :=
  pack 16 (map2 (fun x y => if x =? y then 0xffff else 0)
                (lanes 16 8 a) (lanes 16 8 b)).

(** Bit [k] of the mask is the top bit of byte [k]. *)
Definition _mm_movemask_epi8 (a : Z) : Z :=
  pack 1 (map (fun x => Z.shiftr x 7) (lanes 8 16 a)).

(** Byte [k] comes from [b] when the top bit of byte [k] of [mask] is set. *)
Definition _mm_blendv_epi8 (a b mask : Z) : Z :=
  pack 8 (map2 (fun m xy => if Z.testbit m 7 then snd xy else fst xy)
               (lanes 8 16 mask)
               (combine (lanes 8 16 a) (lanes 8 16 b))).

Definition _mm_unpacklo_epi16 (a b : Z) : Z :=
  pack 16 (interleave (firstn 4 (lanes 16 8 a)) (firstn 4 (lanes 16 8 b))).
Definition _mm_unpackhi_epi16 (a b : Z) : Z :=
  pack 16 (interleave (skipn 4 (lanes 16 8 a)) (skipn 4 (lanes 16 8 b))).

Definition _mm_slli_epi32 (a : Z) (imm : Z) : Z :=
  pack 32 (map (fun x => Z.shiftl x imm) (lanes 32 4 a)).
Definition _mm_add_epi32 (a b : Z) : Z :=
  pack 32 (map2 Z.add (lanes 32 4 a) (lanes 32 4 b)).

(** The 256-bit forms work on the two 128-bit halves separately. *)
Definition _mm256_unpacklo_epi16 (a b : Z) : Z :=
  let la := lanes 16 16 a in
  let lb := lanes 16 16 b in
  pack 16 (interleave (firstn 4 la) (firstn 4 lb)
           ++ interleave (firstn 4 (skipn 8 la)) (firstn 4 (skipn 8 lb))).
Definition _mm256_unpackhi_epi16 (a b : Z) : Z :=
  let la := lanes 16 16 a in
  let lb := lanes 16 16 b in
  pack 16 (interleave (firstn 4 (skipn 4 la)) (firstn 4 (skipn 4 lb))
           ++ interleave (skipn 12 la) (skipn 12 lb)).
Definition _mm256_packs_epi32 (a b : Z) : Z :=
  let la := lanes 32 8 a in
  let lb := lanes 32 8 b in
  pack 16 (map saturate_int16
             (firstn 4 la ++ firstn 4 lb ++ skipn 4 la ++ skipn 4 lb)).

Definition _mm256_cvttps_epi32 (v : list binary32) : Z :=
  pack 32 (map cvtt_int32 v).
Definition _mm256_cvtepi32_ps (a : Z) : list binary32 :=
  map (fun x => f32_of_int (to_signed 32 x)) (lanes 32 8 a).

(** The products of the signed 16-bit lanes: their high and low halves. *)
Definition _mm_mulhi_epi16 (a b : Z) : Z :=
  pack 16 (map2 (fun x y => Z.shiftr (to_signed 16 x * to_signed 16 y) 16)
                (lanes 16 8 a) (lanes 16 8 b)).
Definition _mm_mullo_epi16 (a b : Z) : Z :=
  pack 16 (map2 (fun x y => to_signed 16 x * to_signed 16 y)
                (lanes 16 8 a) (lanes 16 8 b)).
Definition _mm256_mulhi_epi16 (a b : Z) : Z :=
  pack 16 (map2 (fun x y => Z.shiftr (to_signed 16 x * to_signed 16 y) 16)
                (lanes 16 16 a) (lanes 16 16 b)).
Definition _mm256_mullo_epi16 (a b : Z) : Z :=
  pack 16 (map2 (fun x y => to_signed 16 x * to_signed 16 y)
                (lanes 16 16 a) (lanes 16 16 b)).

(** Arithmetic shift to the right of the 32-bit lanes by the count held in
    the low 64 bits of [count]; a count above 31 fills every lane with its
    sign bit. *)
Definition _mm_sra_epi32 (a count : Z) : Z :=
  let c := Z.land count (Z.ones 64) in
  pack 32 (map (fun x =>
                  if 31 <? c then (if to_signed 32 x <? 0 then - 1 else 0)
                  else Z.shiftr (to_signed 32 x) c)
               (lanes 32 4 a)).

Definition _mm_packs_epi32 (a b : Z) : Z :=
  pack 16 (map saturate_int16 (lanes 32 4 a ++ lanes 32 4 b)).

Definition _mm_cvttps_epi32 (v : list binary32) : Z :=
  pack 32 (map cvtt_int32 v).
Definition _mm_cvtepi32_ps (a : Z) : list binary32 :=
  map (fun x => f32_of_int (to_signed 32 x)) (lanes 32 4 a).

End X86.

(** Instructions on float registers of [n] lanes. *)
Section FloatVectors.
Context {F : Type}.
Variable fadd fmul : F -> F -> F.
Variable fzero : F.
Variable fsub : F -> F -> F.

Definition _mm256_load_ps (p : buffer F) (i : Z) : list F := load_vec p i 8.
Definition _mm256_loadu_ps (p : buffer F) (i : Z) : list F := load_vec p i 8.
Definition _mm256_store_ps (p : buffer F) (i : Z) (v : list F) : buffer F :=
  store_vec p i v.
Definition _mm256_storeu_ps (p : buffer F) (i : Z) (v : list F) : buffer F :=
  store_vec p i v.
Definition _mm256_setzero_ps : list F := repeat fzero 8.
Definition _mm256_set1_ps (x : F) : list F := repeat x 8.
(** The arguments of [_mm256_set_ps] run from lane 7 down to lane 0. *)
Definition _mm256_set_ps (e7 e6 e5 e4 e3 e2 e1 e0 : F) : list F :=
  [e0; e1; e2; e3; e4; e5; e6; e7].
Definition _mm256_add_ps (a b : list F) : list F := map2 fadd a b.
Definition _mm256_mul_ps (a b : list F) : list F := map2 fmul a b.
(** Horizontal add, within each 128-bit half. *)
Definition _mm256_hadd_ps (a b : list F) : list F :=
  match a, b with
  | [a0; a1; a2; a3; a4; a5; a6; a7], [b0; b1; b2; b3; b4; b5; b6; b7] =>
      [fadd a0 a1; fadd a2 a3; fadd b0 b1; fadd b2 b3;
       fadd a4 a5; fadd a6 a7; fadd b4 b5; fadd b6 b7]
  | _, _ => []
  end.
(** [_mm256_get_ps] is a macro of [simd/instruction_set.h]: lane [k] of a
    float register. *)
Definition _mm256_get_ps (a : list F) (k : nat) : F := nth k a fzero.

Definition vld1q_f32 (p : buffer F) (i : Z) : list F := load_vec p i 4.
Definition vst1q_f32 (p : buffer F) (i : Z) (v : list F) : buffer F :=
  store_vec p i v.
Definition vdupq_n_f32 (x : F) : list F := repeat x 4.
Definition vaddq_f32 (a b : list F) : list F := map2 fadd a b.

Definition _mm_load_ps (p : buffer F) (i : Z) : list F := load_vec p i 4.
Definition _mm_store_ps (p : buffer F) (i : Z) (v : list F) : buffer F :=
  store_vec p i v.

(** Duplication of the odd and of the even lanes. *)
Definition _mm256_movehdup_ps (a : list F) : list F :=
  match a with
  | [a0; a1; a2; a3; a4; a5; a6; a7] => [a1; a1; a3; a3; a5; a5; a7; a7]
  | _ => []
  end.
Definition _mm256_moveldup_ps (a : list F) : list F :=
  match a with
  | [a0; a1; a2; a3; a4; a5; a6; a7] => [a0; a0; a2; a2; a4; a4; a6; a6]
  | _ => []
  end.
(** In each 128-bit half, two lanes of [a] then two lanes of [b], each
    selected by two bits of [imm]. *)
Definition _mm256_shuffle_ps (a b : list F) (imm : Z) : list F :=
  let sel l k := nth (Z.to_nat (Z.land (Z.shiftr imm (2 * k)) 3)) l fzero in
  let half a b := [sel a 0; sel a 1; sel b 2; sel b 3] in
  half (firstn 4 a) (firstn 4 b) ++ half (skipn 4 a) (skipn 4 b).
(** Subtraction in the even lanes, addition in the odd ones. *)
Definition _mm256_addsub_ps (a b : list F) : list F :=
  match a, b with
  | [a0; a1; a2; a3; a4; a5; a6; a7], [b0; b1; b2; b3; b4; b5; b6; b7] =>
      [fsub a0 b0; fadd a1 b1; fsub a2 b2; fadd a3 b3;
       fsub a4 b4; fadd a5 b5; fsub a6 b6; fadd a7 b7]
  | _, _ => []
  end.

Definition vmulq_f32 (a b : list F) : list F := map2 fmul a b.
Definition vmulq_n_f32 (a : list F) (x : F) : list F := map (fun y => fmul y x) a.
Definition vget_low_f32 (a : list F) : list F := firstn 2 a.
Definition vget_high_f32 (a : list F) : list F := skipn 2 a.
Definition vget_lane_f32 (a : list F) (k : nat) : F := nth k a fzero.
(** Pairwise addition: the sum of the lanes of [a], then that of [b]. *)
Definition vpadd_f32 (a b : list F) : list F :=
  match a, b with
  | [a0; a1], [b0; b1] => [fadd a0 a1; fadd b0 b1]
  | _, _ => []
  end.
(** Exchange of the two lanes of each 64-bit half. *)
Definition vrev64q_f32 (a : list F) : list F :=
  match a with
  | [a0; a1; a2; a3] => [a1; a0; a3; a2]
  | _ => []
  end.
(** Transposition of the 2x2 blocks of two vectors: the pair [val]. *)
Definition vtrnq_f32 (a b : list F) : list F * list F :=
  match a, b with
  | [a0; a1; a2; a3], [b0; b1; b2; b3] => ([a0; b0; a2; b2], [a1; b1; a3; b3])
  | _, _ => ([], [])
  end.
End FloatVectors.

(** ** The AVX2 build ([__AVX__] and [__AVX2__]) *)

Module AVX2.
Import X86.

Definition int16_to_float (startIndex : Z) (data : buffer Z) (length : Z)
           (res : buffer binary32) : buffer binary32 :=
  let ilength := to_int length in
  let res :=
    for_loop 0 startIndex 1 (fun i res => store res i (f32_of_int (data i))) res in
  let res :=
    for_loop startIndex (ilength - 15) 16
             (fun i res =>
                let intVec := _mm256_load_si256 16 data i in
                let intlo := _mm256_unpacklo_epi16 intVec (_mm256_set1_epi16 0) in
                let inthi := _mm256_unpackhi_epi16 intVec (_mm256_set1_epi16 0) in
                let flo := _mm256_cvtepi32_ps intlo in
                let fhi := _mm256_cvtepi32_ps inthi in
                let res := _mm256_store_ps res i flo in
                _mm256_store_ps res (i + 8) fhi) res in
  for_loop (startIndex + Z.shiftl (Z.shiftr (ilength - startIndex) 4) 4) ilength 1
           (fun i res => store res i (f32_of_int (data i))) res.

Definition float_to_int16 (startIndex : Z) (data : buffer binary32) (length : Z)
           (res : buffer Z) : buffer Z :=
  let ilength := to_int length in
  let res :=
    for_loop 0 startIndex 1 (fun i res => store res i (cast_f32_int16 (data i))) res in
  let res :=
    for_loop startIndex (ilength - 15) 16
             (fun i res =>
                let fVecHi := _mm256_load_ps data i in
                let fVecLo := _mm256_load_ps data (i + 8) in
                let intVecHi := _mm256_cvttps_epi32 fVecHi in
                let intVecLo := _mm256_cvttps_epi32 fVecLo in
                let int16Vec := _mm256_packs_epi32 intVecHi intVecLo in
                _mm256_store_si256 16 res i int16Vec) res in
  for_loop (startIndex + Z.shiftl (Z.shiftr (ilength - startIndex) 4) 4) ilength 1
           (fun i res => store res i (cast_f32_int16 (data i))) res.

Definition float_to_int32 (startIndex : Z) (data : buffer binary32) (length : Z)
           (res : buffer Z) : buffer Z :=
  let ilength := to_int length in
  let res :=
    for_loop 0 startIndex 1
             (fun i res => store res i (to_int32 (cast_f32_int16 (data i)))) res in
  let res :=
    for_loop startIndex (ilength - 7) 8
             (fun i res =>
                let fVec := _mm256_load_ps data i in
                let intVec := _mm256_cvttps_epi32 fVec in
                _mm256_store_si256 32 res i intVec) res in
  for_loop (startIndex + Z.land (ilength - startIndex) (Z.lnot 0x7)) ilength 1
           (fun i res => store res i (cast_f32_int32 (data i))) res.

Definition int16_to_int32 (startIndex : Z) (data : buffer Z) (length : Z)
           (res : buffer Z) : buffer Z :=
  let ilength := to_int length in
  let res :=
    for_loop 0 startIndex 1
             (fun i res => store res i (cast_f32_int32 (f32_of_int (data i)))) res in
  let res :=
    for_loop startIndex (ilength - 15) 16
             (fun i res =>
                let intVec := _mm256_load_si256 16 data i in
                let intlo := _mm256_unpacklo_epi16 intVec (_mm256_set1_epi16 0) in
                let inthi := _mm256_unpackhi_epi16 intVec (_mm256_set1_epi16 0) in
                let res := _mm256_store_si256 32 res i intlo in
                _mm256_store_si256 32 res (i + 8) inthi) res in
  for_loop (startIndex + Z.shiftl (Z.shiftr (ilength - startIndex) 4) 4) ilength 1
           (fun i res => store res i (to_int32 (data i))) res.

Definition int32_to_int16 (startIndex : Z) (data : buffer Z) (length : Z)
           (res : buffer Z) : buffer Z :=
  let ilength := to_int length in
  let res :=
    for_loop 0 startIndex 1 (fun i res => store res i (to_int16 (data i))) res in
  let res :=
    for_loop startIndex (ilength - 15) 16
             (fun i res =>
                let intVecHi := _mm256_load_si256 32 data i in
                let intVecLo := _mm256_load_si256 32 data (i + 4) in
                let int16Vec := _mm256_packs_epi32 intVecHi intVecLo in
                _mm256_store_si256 16 res i int16Vec) res in
  for_loop (startIndex + Z.shiftl (Z.shiftr (ilength - startIndex) 4) 4) ilength 1
           (fun i res => store res i (to_int16 (data i))) res.

(** [res[i] = a[i] * b[i]] on one register of sixteen [int16_t]. *)
Definition int16_multiply (a b : buffer Z) (res : buffer Z) : buffer Z :=
  let aVec := _mm256_load_si256 16 a 0 in
  let bVec := _mm256_load_si256 16 b 0 in
  let resVecHiP := _mm256_mulhi_epi16 aVec bVec in
  let resVecLoP := _mm256_mullo_epi16 aVec bVec in
  let resVecHi := _mm256_unpackhi_epi16 resVecLoP resVecHiP in
  let resVecLo := _mm256_unpacklo_epi16 resVecLoP resVecHiP in
  let res := _mm256_store_si256 32 res 0 resVecLo in
  _mm256_store_si256 32 res 8 resVecHi.

Definition int32_to_float (startIndex : Z) (data : buffer Z) (length : Z)
           (res : buffer binary32) : buffer binary32 :=
  let ilength := to_int length in
  let res :=
    for_loop 0 startIndex 1 (fun i res => store res i (f32_of_int (data i))) res in
  let res :=
    for_loop startIndex (ilength - 7) 8
             (fun i res =>
                let intVec := _mm256_load_si256 32 data i in
                let fVec := _mm256_cvtepi32_ps intVec in
                _mm256_store_ps res i fVec) res in
  for_loop (startIndex + Z.land (ilength - startIndex) (Z.lnot 0x7)) ilength 1
           (fun i res => store res i (f32_of_int (data i))) res.

End AVX2.

(** ** The part of the AVX build shared by AVX and AVX2 ([__AVX__]) *)

Module AVX.
Section Kernels.
Context {F : Type}.
Variable fadd fmul : F -> F -> F.
Variable fzero : F.

(** [resIndex] is the alignment complement of [res]. *)
Definition real_multiply_scalar (startIndex resIndex : Z) (array : buffer F)
           (length : Z) (value : F) (res : buffer F) : buffer F :=
  let ilength := to_int length in
  let mulVec := _mm256_set_ps value value value value value value value value in
  if startIndex =? resIndex then
    let res :=
      for_loop 0 startIndex 1
               (fun i res => store res i (fmul (array i) value)) res in
    let res :=
      for_loop startIndex (ilength - 7) 8
               (fun i res =>
                  let vec := _mm256_load_ps array i in
                  let vec := _mm256_mul_ps fmul vec mulVec in
                  _mm256_store_ps res i vec) res in
    for_loop (startIndex + Z.land (ilength - startIndex) (Z.lnot 0x7)) ilength 1
             (fun i res => store res i (fmul (array i) value)) res
  else
    let res :=
      for_loop 0 (ilength - 7) 8
               (fun i res =>
                  let vec := _mm256_loadu_ps array i in
                  let vec := _mm256_mul_ps fmul vec mulVec in
                  _mm256_storeu_ps res i vec) res in
    for_loop (Z.land (ilength - startIndex) (Z.lnot 0x7)) ilength 1
             (fun i res => store res i (fmul (array i) value)) res.

Definition sum_elements (input : buffer F) (length : Z) : F :=
  let ilength := to_int length in
  let accum := _mm256_setzero_ps fzero in
  let accum :=
    for_loop 0 (ilength - 15) 16
             (fun j accum =>
                let vec1 := _mm256_load_ps input j in
                let vec2 := _mm256_load_ps input (j + 8) in
                let accum := _mm256_add_ps fadd accum vec1 in
                _mm256_add_ps fadd accum vec2) accum in
  let accum := _mm256_hadd_ps fadd accum accum in
  let accum := _mm256_hadd_ps fadd accum accum in
  let res := fadd (_mm256_get_ps fzero accum 0) (_mm256_get_ps fzero accum 4) in
  for_loop (Z.land ilength (Z.lnot 0xF)) ilength 1
           (fun j res => fadd res (input j)) res.

Definition add_to_all (input : buffer F) (length : Z) (value : F)
           (output : buffer F) : buffer F :=
  let ilength := to_int length in
  let add_vec := _mm256_set1_ps value in
  let output :=
    for_loop 0 (ilength - 15) 16
             (fun j output =>
                let vec1 := _mm256_load_ps input j in
                let vec2 := _mm256_load_ps input (j + 8) in
                let vec1 := _mm256_add_ps fadd add_vec vec1 in
                let vec2 := _mm256_add_ps fadd add_vec vec2 in
                let output := _mm256_store_ps output j vec1 in
                _mm256_store_ps output (j + 8) vec2) output in
  for_loop (Z.land ilength (Z.lnot 0xF)) ilength 1
           (fun j output => store output j (fadd (input j) value)) output.

Definition real_multiply (a b res : buffer F) : buffer F :=
  let aVec := _mm256_load_ps a 0 in
  let bVec := _mm256_load_ps b 0 in
  let resVec := _mm256_mul_ps fmul aVec bVec in
  _mm256_store_ps res 0 resVec.

(** [FLOAT_STEP] is 8; the second loop goes on from where the first
    stopped.  The bound of the first loop is an expression of type [int],
    taken with the wrap-around of the machine (ISO C leaves the overflow
    undefined; it needs [(int)length] within 7 of [INT_MIN]). *)
Definition real_multiply_array (a b : buffer F) (length : Z) (res : buffer F)
  : buffer F :=
  let ilength := to_int length in
  let res :=
    for_loop 0 (to_int (to_int (ilength - 8) + 1)) 8
             (fun j res =>
                let aVec := _mm256_loadu_ps a j in
                let bVec := _mm256_loadu_ps b j in
                let resVec := _mm256_mul_ps fmul aVec bVec in
                _mm256_storeu_ps res j resVec) res in
  let j := loop_end 0 (to_int (to_int (ilength - 8) + 1)) 8 in
  for_loop j ilength 1 (fun j res => store res j (fmul (a j) (b j))) res.
End Kernels.

Definition complex_multiply (a b res : buffer binary32) : buffer binary32 :=
  let Xvec := _mm256_load_ps a 0 in
  let Hvec := _mm256_load_ps b 0 in
  let Xim := _mm256_movehdup_ps Xvec in
  let Xre := _mm256_moveldup_ps Xvec in
  let HvecExch := _mm256_shuffle_ps f32_zero Hvec Hvec 0xB1 in
  let resHalf1 := _mm256_mul_ps f32_mul Xre Hvec in
  let resHalf2 := _mm256_mul_ps f32_mul Xim HvecExch in
  let resVec := _mm256_addsub_ps f32_add f32_sub resHalf1 resHalf2 in
  _mm256_store_ps res 0 resVec.

Definition complex_multiply_conjugate (a b res : buffer binary32)
  : buffer binary32 :=
  let m1 := f32_of_int (- 1) in
  let p1 := f32_of_int 1 in
  let Xvec := _mm256_load_ps a 0 in
  let Hvec := _mm256_load_ps b 0 in
  let Hvec := _mm256_mul_ps f32_mul Hvec (_mm256_set_ps m1 p1 m1 p1 m1 p1 m1 p1) in
  let Xim := _mm256_movehdup_ps Xvec in
  let Xre := _mm256_moveldup_ps Xvec in
  let HvecExch := _mm256_shuffle_ps f32_zero Hvec Hvec 0xB1 in
  let resHalf1 := _mm256_mul_ps f32_mul Xre Hvec in
  let resHalf2 := _mm256_mul_ps f32_mul Xim HvecExch in
  let resVec := _mm256_addsub_ps f32_add f32_sub resHalf1 resHalf2 in
  _mm256_store_ps res 0 resVec.

(** [resIndex] is the alignment complement of [res]. *)
Definition complex_conjugate (startIndex resIndex : Z) (array : buffer binary32)
           (length : Z) (res : buffer binary32) : buffer binary32 :=
  let ilength := to_int length in
  let m1 := f32_of_int (- 1) in
  let p1 := f32_of_int 1 in
  let pair i res :=
    let res := store res (i - 1) (array (i - 1)) in
    store res i (f32_opp (array i)) in
  if startIndex =? resIndex then
    let res := for_loop 1 startIndex 2 pair res in
    let mulVec :=
      if Z.rem startIndex 2 =? 0
      then _mm256_set_ps m1 p1 m1 p1 m1 p1 m1 p1
      else _mm256_set_ps p1 m1 p1 m1 p1 m1 p1 m1 in
    let res :=
      for_loop startIndex (ilength - 7) 8
               (fun i res =>
                  let vec := _mm256_load_ps array i in
                  let vec := _mm256_mul_ps f32_mul vec mulVec in
                  _mm256_store_ps res i vec) res in
    for_loop (startIndex + Z.land (ilength - startIndex) (Z.lnot 0x7)
              + 1 - Z.rem startIndex 2) ilength 1 pair res
  else
    let mulVec := _mm256_set_ps m1 p1 m1 p1 m1 p1 m1 p1 in
    let res :=
      for_loop 0 (ilength - 7) 8
               (fun i res =>
                  let vec := _mm256_loadu_ps array i in
                  let vec := _mm256_mul_ps f32_mul vec mulVec in
                  _mm256_storeu_ps res i vec) res in
    for_loop (Z.land (ilength - startIndex) (Z.lnot 0x7) + 1) ilength 1 pair res.

End AVX.

(** ** The SSE build ([__AVX__] without [__AVX2__]) *)

Module SSE.
Import X86.

Definition float16_to_float (startIndex : Z) (data : buffer Z) (length : Z)
           (res : buffer Z) : buffer Z :=
  let ilength := to_int length in
  let res := float16_to_float_na data startIndex res in
  let offset := startIndex + Z.land (ilength - startIndex) (Z.lnot 0x7) in
  let res :=
    ptr_add (float16_to_float_na (ptr_add data offset) (ilength - offset)
                                 (ptr_add res offset)) (- offset) in
  let expMask := _mm_set1_epi16 0x7c00 in
  let zerosVec := _mm_set1_epi16 0 in
  let addVecDef := _mm_set1_epi32 0x38000000 in
  let addVecInfNan := _mm_set1_epi32 0x7f800000 in
  for_loop startIndex (ilength - 7) 8
    (fun i res =>
       let intVec := _mm_load_si128 16 data i in
       let expVec := _mm_and_si128 intVec expMask in
       let cmpVec := _mm_cmpeq_epi16 expVec zerosVec in
       let zero_check := _mm_movemask_epi8 cmpVec in
       if negb (zero_check =? 0) then
         if zero_check =? 0xffff then
           let expVec := _mm_and_si128 intVec (_mm_set1_epi16 0x03ff) in
           let cmpVec := _mm_cmpeq_epi16 expVec zerosVec in
           let zero_check := _mm_movemask_epi8 cmpVec in
           if zero_check =? 0xffff then
             let signVec := _mm_and_si128 intVec (_mm_set1_epi16 0x8000) in
             let signlo := _mm_unpacklo_epi16 zerosVec signVec in
             let signhi := _mm_unpackhi_epi16 zerosVec signVec in
             let res := _mm_store_si128_bits res i signlo in
             _mm_store_si128_bits res (i + 4) signhi
           else
             ptr_add (float16_to_float_na (ptr_add data i) 8 (ptr_add res i)) (- i)
         else
             ptr_add (float16_to_float_na (ptr_add data i) 8 (ptr_add res i)) (- i)
       else
         let cmpVec := _mm_cmpeq_epi16 expVec expMask in
         let andVec :=
           _mm_blendv_epi8 (_mm_set1_epi16 0x7fff) (_mm_set1_epi16 0x03ff) cmpVec in
         let tmpVec := _mm_and_si128 intVec andVec in
         let intlo := _mm_unpacklo_epi16 tmpVec zerosVec in
         let inthi := _mm_unpackhi_epi16 tmpVec zerosVec in
         let intlo := _mm_slli_epi32 intlo 13 in
         let inthi := _mm_slli_epi32 inthi 13 in
         let cmplo := _mm_unpacklo_epi16 zerosVec cmpVec in
         let cmphi := _mm_unpackhi_epi16 zerosVec cmpVec in
         let addlo := _mm_blendv_epi8 addVecDef addVecInfNan cmplo in
         let addhi := _mm_blendv_epi8 addVecDef addVecInfNan cmphi in
         let intlo := _mm_add_epi32 intlo addlo in
         let inthi := _mm_add_epi32 inthi addhi in
         let signVec := _mm_and_si128 intVec (_mm_set1_epi16 0x8000) in
         let signlo := _mm_unpacklo_epi16 zerosVec signVec in
         let signhi := _mm_unpackhi_epi16 zerosVec signVec in
         let intlo := _mm_or_si128 intlo signlo in
         let inthi := _mm_or_si128 inthi signhi in
         let res := _mm_store_si128_bits res i intlo in
         _mm_store_si128_bits res (i + 4) inthi) res.

(** [res[i] = a[i] * b[i]] on one register of eight [int16_t]. *)
Definition int16_multiply (a b : buffer Z) (res : buffer Z) : buffer Z :=
  let aVec := _mm_load_si128 16 a 0 in
  let bVec := _mm_load_si128 16 b 0 in
  let resVecHiP := _mm_mulhi_epi16 aVec bVec in
  let resVecLoP := _mm_mullo_epi16 aVec bVec in
  let resVecHi := _mm_unpackhi_epi16 resVecLoP resVecHiP in
  let resVecLo := _mm_unpacklo_epi16 resVecLoP resVecHiP in
  let res := _mm_store_si128 32 res 0 resVecLo in
  _mm_store_si128 32 res 4 resVecHi.

Definition int16_to_float (startIndex : Z) (data : buffer Z) (length : Z)
           (res : buffer binary32) : buffer binary32 :=
  let ilength := to_int length in
  let res :=
    for_loop 0 startIndex 1 (fun i res => store res i (f32_of_int (data i))) res in
  let res :=
    for_loop startIndex (ilength - 7) 8
             (fun i res =>
                let intVec := _mm_load_si128 16 data i in
                let intlo := _mm_unpacklo_epi16 (_mm_set1_epi16 0) intVec in
                let inthi := _mm_unpackhi_epi16 (_mm_set1_epi16 0) intVec in
                let intlo := _mm_sra_epi32 intlo (_mm_set1_epi32 16) in
                let inthi := _mm_sra_epi32 inthi (_mm_set1_epi32 16) in
                let flo := _mm_cvtepi32_ps intlo in
                let fhi := _mm_cvtepi32_ps inthi in
                let res := _mm_store_ps res i flo in
                _mm_store_ps res (i + 4) fhi) res in
  for_loop (startIndex + Z.land (ilength - startIndex) (Z.lnot 0x7)) ilength 1
           (fun i res => store res i (f32_of_int (data i))) res.

Definition float_to_int16 (startIndex : Z) (data : buffer binary32) (length : Z)
           (res : buffer Z) : buffer Z :=
  let ilength := to_int length in
  let res :=
    for_loop 0 startIndex 1 (fun i res => store res i (cast_f32_int16 (data i))) res in
  let res :=
    for_loop startIndex (ilength - 7) 8
             (fun i res =>
                let fVecHi := _mm_load_ps data i in
                let fVecLo := _mm_load_ps data (i + 4) in
                let intVecHi := _mm_cvttps_epi32 fVecHi in
                let intVecLo := _mm_cvttps_epi32 fVecLo in
                let int16Vec := _mm_packs_epi32 intVecHi intVecLo in
                _mm_store_si128 16 res i int16Vec) res in
  for_loop (startIndex + Z.land (ilength - startIndex) (Z.lnot 0x7)) ilength 1
           (fun i res => store res i (cast_f32_int16 (data i))) res.

Definition int32_to_float (startIndex : Z) (data : buffer Z) (length : Z)
           (res : buffer binary32) : buffer binary32 :=
  let ilength := to_int length in
  let res :=
    for_loop 0 startIndex 1 (fun i res => store res i (f32_of_int (data i))) res in
  let res :=
    for_loop startIndex (ilength - 3) 4
             (fun i res =>
                let intVec := _mm_load_si128 32 data i in
                let fVec := _mm_cvtepi32_ps intVec in
                _mm_store_ps res i fVec) res in
  for_loop (startIndex + Z.land (ilength - startIndex) (Z.lnot 0x3)) ilength 1
           (fun i res => store res i (f32_of_int (data i))) res.

Definition float_to_int32 (startIndex : Z) (data : buffer binary32) (length : Z)
           (res : buffer Z) : buffer Z :=
  let ilength := to_int length in
  let res :=
    for_loop 0 startIndex 1
             (fun i res => store res i (to_int32 (cast_f32_int16 (data i)))) res in
  let res :=
    for_loop startIndex (ilength - 3) 4
             (fun i res =>
                let fVec := _mm_load_ps data i in
                let intVec := _mm_cvttps_epi32 fVec in
                _mm_store_si128 32 res i intVec) res in
  for_loop (startIndex + Z.land (ilength - startIndex) (Z.lnot 0x3)) ilength 1
           (fun i res => store res i (cast_f32_int32 (data i))) res.

Definition int16_to_int32 (startIndex : Z) (data : buffer Z) (length : Z)
           (res : buffer Z) : buffer Z :=
  let ilength := to_int length in
  let res :=
    for_loop 0 startIndex 1
             (fun i res => store res i (cast_f32_int32 (f32_of_int (data i)))) res in
  let res :=
    for_loop startIndex (ilength - 7) 8
             (fun i res =>
                let intVec := _mm_load_si128 16 data i in
                let intlo := _mm_unpacklo_epi16 (_mm_set1_epi16 0) intVec in
                let inthi := _mm_unpackhi_epi16 (_mm_set1_epi16 0) intVec in
                let intlo := _mm_sra_epi32 intlo (_mm_set1_epi32 16) in
                let inthi := _mm_sra_epi32 inthi (_mm_set1_epi32 16) in
                let res := _mm_store_si128 32 res i intlo in
                _mm_store_si128 32 res (i + 4) inthi) res in
  for_loop (startIndex + Z.land (ilength - startIndex) (Z.lnot 0x7)) ilength 1
           (fun i res => store res i (to_int32 (data i))) res.

Definition int32_to_int16 (startIndex : Z) (data : buffer Z) (length : Z)
           (res : buffer Z) : buffer Z :=
  let ilength := to_int length in
  let res :=
    for_loop 0 startIndex 1 (fun i res => store res i (to_int16 (data i))) res in
  let res :=
    for_loop startIndex (ilength - 7) 8
             (fun i res =>
                let intVecHi := _mm_load_si128 32 data i in
                let intVecLo := _mm_load_si128 32 data (i + 4) in
                let int16Vec := _mm_packs_epi32 intVecHi intVecLo in
                _mm_store_si128 16 res i int16Vec) res in
  for_loop (startIndex + Z.land (ilength - startIndex) (Z.lnot 0x7)) ilength 1
           (fun i res => store res i (to_int16 (data i))) res.

End SSE.

(** ** The NEON build ([__ARM_NEON__]) *)

Fixpoint pairwise_add (l : list Z) : list Z :=
  match l with
  | a :: b :: r => (a + b) :: pairwise_add r
  | _ => []
  end.

(** Leading zeros of a 16-bit lane. *)
Definition clz16 (x : Z) : Z := if x =? 0 then 16 else 15 - Z.log2 x.

Module NEON.

Definition vld1_s16 (p : buffer Z) (i : Z) : list Z := load_vec p i 4.
Definition vld1q_u16 (p : buffer Z) (i : Z) : list Z := load_vec p i 8.
Definition vst1q_s32 (p : buffer Z) (i : Z) (v : list Z) : buffer Z :=
  store_vec p i v.
Definition vst1q_u32 (p : buffer Z) (i : Z) (v : list Z) : buffer Z :=
  store_vec p i v.
Definition vdupq_n_u16 (x : Z) : list Z := repeat x 8.
Definition vmovl_s16 (a : list Z) : list Z := map to_int32 a.
Definition vmovl_u16 (a : list Z) : list Z := map to_uint32 a.
Definition vget_low_u16 (a : list Z) : list Z := firstn 4 a.
Definition vget_high_u16 (a : list Z) : list Z := skipn 4 a.
Definition vandq_u16 (a b : list Z) : list Z := map2 Z.land a b.
Definition vorrq_u16 (a b : list Z) : list Z := map2 Z.lor a b.
Definition vorrq_u32 (a b : list Z) : list Z := map2 Z.lor a b.
(** [a & ~b] *)
Definition vbicq_u16 (a b : list Z) : list Z :=
  map2 (fun x y => Z.land x (to_uint16 (Z.lnot y))) a b.
Definition vceqq_u16 (a b : list Z) : list Z :=
  map2 (fun x y => if x =? y then 0xffff else 0) a b.
(** Pairwise widening additions. *)
Definition vpaddlq_u16 (a : list Z) : list Z := pairwise_add a.
Definition vpaddlq_u32 (a : list Z) : list Z := pairwise_add a.
Definition vgetq_lane_u64 (a : list Z) (k : nat) : Z := nth k a 0.
Definition vclzq_u16 (a : list Z) : list Z := map clz16 a.
Definition vsubq_u16 (a b : list Z) : list Z :=
  map2 (fun x y => to_uint16 (x - y)) a b.
Definition vaddq_u32 (a b : list Z) : list Z :=
  map2 (fun x y => to_uint32 (x + y)) a b.
Definition vreinterpretq_s16_u16 (a : list Z) : list Z := map to_int16 a.
(** Shift by the signed low byte of the matching lane of [s]: to the left
    when it is positive, to the right when it is negative. *)
Definition vshlq_u16 (a s : list Z) : list Z :=
  map2 (fun x n => to_uint16 (Z.shiftl x (to_signed 8 n))) a s.
Definition vshlq_n_u32 (a : list Z) (n : Z) : list Z :=
  map (fun x => to_uint32 (Z.shiftl x n)) a.

Definition int16_to_int32 (data : buffer Z) (length : Z) (res : buffer Z)
  : buffer Z :=
  let ilength := to_int length in
  let res :=
    for_loop 0 (ilength - 3) 4
             (fun i res =>
                let intVec := vld1_s16 data i in
                let extIntVec := vmovl_s16 intVec in
                vst1q_s32 res i extIntVec) res in
  for_loop (Z.land ilength (Z.lnot 0x3)) ilength 1
           (fun i res => store res i (cast_f32_int32 (f32_of_int (data i)))) res.

Definition float16_to_float (data : buffer Z) (length : Z) (res : buffer Z)
  : buffer Z :=
  let ilength := to_int length in
  let expMask := vdupq_n_u16 0x7c00 in
  let zerosVec := vdupq_n_u16 0 in
  let res :=
    for_loop 0 (ilength - 7) 8
      (fun i res =>
         let intVec := vld1q_u16 data i in
         let expVec := vandq_u16 intVec expMask in
         let cmpVec := vceqq_u16 expVec zerosVec in
         let zeroAdd := vpaddlq_u32 (vpaddlq_u16 cmpVec) in
         let zero_check :=
           to_uint64 (vgetq_lane_u64 zeroAdd 0 + vgetq_lane_u64 zeroAdd 1) in
         if negb (zero_check =? 0) then
           if zero_check =? Z.shiftl 0xffff 3 then
             let tmpVec := vandq_u16 intVec (vdupq_n_u16 0x03ff) in
             let cmpVec := vceqq_u16 tmpVec zerosVec in
             let zeroAdd := vpaddlq_u32 (vpaddlq_u16 cmpVec) in
             let zero_check :=
               to_uint64 (vgetq_lane_u64 zeroAdd 0 + vgetq_lane_u64 zeroAdd 1) in
             if zero_check =? Z.shiftl 0xffff 3 then
               let signVec := vandq_u16 intVec (vdupq_n_u16 0x8000) in
               let signlo := vmovl_u16 (vget_low_u16 signVec) in
               let signhi := vmovl_u16 (vget_high_u16 signVec) in
               let signlo := vshlq_n_u32 signlo 16 in
               let signhi := vshlq_n_u32 signhi 16 in
               let res := vst1q_u32 res i signlo in
               vst1q_u32 res (i + 4) signhi
             else if zero_check =? 0 then
               let lz := vclzq_u16 tmpVec in
               let lz := vsubq_u16 lz (vdupq_n_u16 5) in
               let expVec := vsubq_u16 (vdupq_n_u16 (127 - 15 + 1)) lz in
               let tmpVec := vshlq_u16 tmpVec (vreinterpretq_s16_u16 lz) in
               let tmpVec := vandq_u16 tmpVec (vdupq_n_u16 0x03ff) in
               let tmplo := vmovl_u16 (vget_low_u16 tmpVec) in
               let tmphi := vmovl_u16 (vget_high_u16 tmpVec) in
               let tmplo := vshlq_n_u32 tmplo 13 in
               let tmphi := vshlq_n_u32 tmphi 13 in
               let explo := vmovl_u16 (vget_low_u16 expVec) in
               let exphi := vmovl_u16 (vget_high_u16 expVec) in
               let explo := vshlq_n_u32 explo 23 in
               let exphi := vshlq_n_u32 exphi 23 in
               let tmplo := vorrq_u32 tmplo explo in
               let tmphi := vorrq_u32 tmphi exphi in
               let signVec := vandq_u16 intVec (vdupq_n_u16 0x8000) in
               let signlo := vmovl_u16 (vget_low_u16 signVec) in
               let signhi := vmovl_u16 (vget_high_u16 signVec) in
               let signlo := vshlq_n_u32 signlo 16 in
               let signhi := vshlq_n_u32 signhi 16 in
               let tmplo := vorrq_u32 signlo tmplo in
               let tmphi := vorrq_u32 signhi tmplo in
               let res := vst1q_u32 res i tmplo in
               vst1q_u32 res (i + 4) tmphi
             else
             ptr_add (float16_to_float_na (ptr_add data i) 8 (ptr_add res i)) (- i)
           else
             ptr_add (float16_to_float_na (ptr_add data i) 8 (ptr_add res i)) (- i)
         else
           let cmpVec := vceqq_u16 expVec expMask in
           let masked1 := vandq_u16 (vdupq_n_u16 0x03ff) cmpVec in
           let masked2 := vbicq_u16 (vdupq_n_u16 0x7fff) cmpVec in
           let andVec := vorrq_u16 masked1 masked2 in
           let tmpVec := vandq_u16 intVec andVec in
           let intlo := vmovl_u16 (vget_low_u16 tmpVec) in
           let inthi := vmovl_u16 (vget_high_u16 tmpVec) in
           let intlo := vshlq_n_u32 intlo 13 in
           let inthi := vshlq_n_u32 inthi 13 in
           let masked1 := vandq_u16 (vdupq_n_u16 0x7f80) cmpVec in
           let masked2 := vbicq_u16 (vdupq_n_u16 0x3800) cmpVec in
           let addVec := vorrq_u16 masked1 masked2 in
           let addlo := vmovl_u16 (vget_low_u16 addVec) in
           let addhi := vmovl_u16 (vget_high_u16 addVec) in
           let addlo := vshlq_n_u32 addlo 16 in
           let addhi := vshlq_n_u32 addhi 16 in
           let intlo := vaddq_u32 intlo addlo in
           let inthi := vaddq_u32 inthi addhi in
           let signVec := vandq_u16 intVec (vdupq_n_u16 0x8000) in
           let signlo := vmovl_u16 (vget_low_u16 signVec) in
           let signhi := vmovl_u16 (vget_high_u16 signVec) in
           let signlo := vshlq_n_u32 signlo 16 in
           let signhi := vshlq_n_u32 signhi 16 in
           let intlo := vorrq_u32 intlo signlo in
           let inthi := vorrq_u32 inthi signhi in
           let res := vst1q_u32 res i intlo in
           vst1q_u32 res (i + 4) inthi) res in
  let offset := Z.land ilength (Z.lnot 0x7) in
  ptr_add (float16_to_float_na (ptr_add data offset) (ilength - offset)
                               (ptr_add res offset)) (- offset).

Section Kernels.
Context {F : Type}.
Variable fadd : F -> F -> F.

Definition add_to_all (input : buffer F) (length : Z) (value : F)
           (output : buffer F) : buffer F :=
  let ilength := to_int length in
  let add_vec := vdupq_n_f32 value in
  let output :=
    for_loop 0 (ilength - 7) 8
             (fun j output =>
                let vec1 := vld1q_f32 input j in
                let vec2 := vld1q_f32 input (j + 4) in
                let vec1 := vaddq_f32 fadd add_vec vec1 in
                let vec2 := vaddq_f32 fadd add_vec vec2 in
                let output := vst1q_f32 output j vec1 in
                vst1q_f32 output (j + 8) vec2) output in
  for_loop (Z.land ilength (Z.lnot 0x7)) ilength 1
           (fun j output => store output j (fadd (input j) value)) output.
End Kernels.

(** Conversion toward zero as [vcvt.s32.f32] performs it: the integral
    part, saturated to 32 bits; zero for a NaN. *)
Definition vcvt_s32_f32 (f : binary32) : Z :=
  match f with
  | S754_nan => 0
  | S754_infinity s => if s then - 2 ^ 31 else 2 ^ 31 - 1
  | _ =>
      match f32_trunc f with
      | Some z =>
          if z <? - 2 ^ 31 then - 2 ^ 31
          else if 2 ^ 31 - 1 <? z then 2 ^ 31 - 1 else z
      | None => 0
      end
  end.

Definition vld1q_s32 (p : buffer Z) (i : Z) : list Z := load_vec p i 4.
Definition vst1_s16 (p : buffer Z) (i : Z) (v : list Z) : buffer Z :=
  store_vec p i v.
Definition vmull_s16 (a b : list Z) : list Z :=
  map2 (fun x y => to_int16 x * to_int16 y) a b.
Definition vcvtq_f32_s32 (a : list Z) : list binary32 := map f32_of_int a.
Definition vcvtq_s32_f32 (a : list binary32) : list Z := map vcvt_s32_f32 a.
Definition vqmovn_s32 (a : list Z) : list Z := map saturate_int16 a.

(** [res[i] = a[i] * b[i]] on four [int16_t]. *)
Definition int16_multiply (a b : buffer Z) (res : buffer Z) : buffer Z :=
  let aVec := vld1_s16 a 0 in
  let bVec := vld1_s16 b 0 in
  let resVec := vmull_s16 aVec bVec in
  vst1q_s32 res 0 resVec.

Definition int16_to_float (data : buffer Z) (length : Z) (res : buffer binary32)
  : buffer binary32 :=
  let ilength := to_int length in
  let res :=
    for_loop 0 (ilength - 3) 4
             (fun i res =>
                let intVec := vld1_s16 data i in
                let extIntVec := vmovl_s16 intVec in
                let floatVec := vcvtq_f32_s32 extIntVec in
                vst1q_f32 res i floatVec) res in
  for_loop (Z.land ilength (Z.lnot 0x3)) (to_int length) 1
           (fun i res => store res i (f32_of_int (data i))) res.

(** The casts of the scalar tails are those of the target: a conversion to
    32 bits by [vcvt.s32.f32], narrowed for the 16-bit type. *)
Definition float_to_int16 (data : buffer binary32) (length : Z) (res : buffer Z)
  : buffer Z :=
  let ilength := to_int length in
  let res :=
    for_loop 0 (ilength - 3) 4
             (fun i res =>
                let floatVec := vld1q_f32 data i in
                let extIntVec := vcvtq_s32_f32 floatVec in
                let intVec := vqmovn_s32 extIntVec in
                vst1_s16 res i intVec) res in
  for_loop (Z.land ilength (Z.lnot 0x3)) ilength 1
           (fun i res => store res i (to_int16 (vcvt_s32_f32 (data i)))) res.

Definition int32_to_float (data : buffer Z) (length : Z) (res : buffer binary32)
  : buffer binary32 :=
  let ilength := to_int length in
  let res :=
    for_loop 0 (ilength - 3) 4
             (fun i res =>
                let intVec := vld1q_s32 data i in
                let floatVec := vcvtq_f32_s32 intVec in
                vst1q_f32 res i floatVec) res in
  for_loop (Z.land ilength (Z.lnot 0x3)) ilength 1
           (fun i res => store res i (f32_of_int (data i))) res.

Definition float_to_int32 (data : buffer binary32) (length : Z) (res : buffer Z)
  : buffer Z :=
  let ilength := to_int length in
  let res :=
    for_loop 0 (ilength - 3) 4
             (fun i res =>
                let floatVec := vld1q_f32 data i in
                let intVec := vcvtq_s32_f32 floatVec in
                vst1q_s32 res i intVec) res in
  for_loop (Z.land ilength (Z.lnot 0x3)) ilength 1
           (fun i res => store res i (vcvt_s32_f32 (data i))) res.

Definition int32_to_int16 (data : buffer Z) (length : Z) (res : buffer Z)
  : buffer Z :=
  let ilength := to_int length in
  let res :=
    for_loop 0 (ilength - 3) 4
             (fun i res =>
                let extIntVec := vld1q_s32 data i in
                let intVec := vqmovn_s32 extIntVec in
                vst1_s16 res i intVec) res in
  for_loop (Z.land ilength (Z.lnot 0x3)) ilength 1
           (fun i res => store res i (to_int16 (data i))) res.

Section RealKernels.
Context {F : Type}.
Variable fadd fmul : F -> F -> F.
Variable fzero : F.

Definition real_multiply (a b res : buffer F) : buffer F :=
  let aVec := vld1q_f32 a 0 in
  let bVec := vld1q_f32 b 0 in
  let resVec := vmulq_f32 fmul aVec bVec in
  vst1q_f32 res 0 resVec.

(** [FLOAT_STEP] is 4; the second loop goes on from where the first
    stopped.  The bound of the first loop is an expression of type [int],
    taken with the wrap-around of the machine (ISO C leaves the overflow
    undefined; it needs [(int)length] within 3 of [INT_MIN]). *)
Definition real_multiply_array (a b : buffer F) (length : Z) (res : buffer F)
  : buffer F :=
  let ilength := to_int length in
  let res :=
    for_loop 0 (to_int (to_int (ilength - 4) + 1)) 4
             (fun j res =>
                ptr_add (real_multiply (ptr_add a j) (ptr_add b j) (ptr_add res j))
                        (- j)) res in
  let j := loop_end 0 (to_int (to_int (ilength - 4) + 1)) 4 in
  for_loop j ilength 1 (fun j res => store res j (fmul (a j) (b j))) res.

Definition real_multiply_scalar (array : buffer F) (length : Z) (value : F)
           (res : buffer F) : buffer F :=
  let ilength := to_int length in
  let res :=
    for_loop 0 (ilength - 3) 4
             (fun i res =>
                let vec := vld1q_f32 array i in
                let vec := vmulq_n_f32 fmul vec value in
                vst1q_f32 res i vec) res in
  for_loop (Z.land ilength (Z.lnot 0x3)) ilength 1
           (fun i res => store res i (fmul (array i) value)) res.

Definition sum_elements (input : buffer F) (length : Z) : F :=
  let ilength := to_int length in
  let accum := vdupq_n_f32 fzero in
  let accum :=
    for_loop 0 (ilength - 7) 8
             (fun j accum =>
                let vec1 := vld1q_f32 input j in
                let vec2 := vld1q_f32 input (j + 4) in
                let accum := vaddq_f32 fadd accum vec1 in
                vaddq_f32 fadd accum vec2) accum in
  let accum2 := vpadd_f32 fadd (vget_high_f32 accum) (vget_low_f32 accum) in
  let res := fadd (vget_lane_f32 fzero accum2 0) (vget_lane_f32 fzero accum2 1) in
  for_loop (Z.land ilength (Z.lnot 0x7)) ilength 1
           (fun j res => fadd res (input j)) res.
End RealKernels.

Definition complex_multiply (a b res : buffer binary32) : buffer binary32 :=
  let negVec := [f32_of_int 1; f32_of_int (- 1); f32_of_int 1; f32_of_int (- 1)] in
  let Xvec := vld1q_f32 a 0 in
  let Hvec := vld1q_f32 b 0 in
  let Xrev := vrev64q_f32 Xvec in
  let fwdMul := vmulq_f32 f32_mul Xvec Hvec in
  let resIm := vmulq_f32 f32_mul Hvec Xrev in
  let negMul := vmulq_f32 f32_mul fwdMul negVec in
  let resPair := vtrnq_f32 negMul resIm in
  let resVec := vaddq_f32 f32_add (fst resPair) (snd resPair) in
  vst1q_f32 res 0 resVec.

Definition complex_multiply_conjugate (a b res : buffer binary32)
  : buffer binary32 :=
  let negVec := [f32_of_int 1; f32_of_int (- 1); f32_of_int 1; f32_of_int (- 1)] in
  let Xvec := vld1q_f32 a 0 in
  let Hvec := vld1q_f32 b 0 in
  let Hvec := vmulq_f32 f32_mul Hvec negVec in
  let Xrev := vrev64q_f32 Xvec in
  let fwdMul := vmulq_f32 f32_mul Xvec Hvec in
  let resIm := vmulq_f32 f32_mul Hvec Xrev in
  let negMul := vmulq_f32 f32_mul fwdMul negVec in
  let resPair := vtrnq_f32 negMul resIm in
  let resVec := vaddq_f32 f32_add (fst resPair) (snd resPair) in
  vst1q_f32 res 0 resVec.

Definition complex_conjugate (array : buffer binary32) (length : Z)
           (res : buffer binary32) : buffer binary32 :=
  let ilength := to_int length in
  let negVec := [f32_of_int 1; f32_of_int (- 1); f32_of_int 1; f32_of_int (- 1)] in
  let res :=
    for_loop 0 (ilength - 3) 4
             (fun i res =>
                let vec := vld1q_f32 array i in
                let vec := vmulq_f32 f32_mul vec negVec in
                vst1q_f32 res i vec) res in
  for_loop (Z.land ilength (Z.lnot 0x3) + 1) ilength 1
           (fun i res =>
              let res := store res (i - 1) (array (i - 1)) in
              store res i (f32_opp (array i))) res.

End NEON.

(** ** Auxiliary definitions for the statements *)

Definition in_range (lo hi j : Z) : bool := (lo <=? j) && (j <? hi).

(** A decidable check of [f] on the [n] integers from [lo] on. *)
Fixpoint forall_range (n : nat) (lo : Z) (f : Z -> bool) : bool :=
  match n with
  | O => true
  | Datatypes.S n' => f lo && forall_range n' (lo + 1) f
  end.

(** The total of a list of lanes, summed from the right. *)
Fixpoint lsum {F} (add : F -> F -> F) (zero : F) (l : list F) : F :=
  match l with
  | [] => zero
  | x :: r => add x (lsum add zero r)
  end.

(** Equality test on floats as data (signed zeros are told apart, NaN is
    equal to itself). *)
Definition binary32_eqb (x y : binary32) : bool :=
  match x, y with
  | S754_zero s, S754_zero s' => Bool.eqb s s'
  | S754_infinity s, S754_infinity s' => Bool.eqb s s'
  | S754_nan, S754_nan => true
  | S754_finite s m e, S754_finite s' m' e' =>
      Bool.eqb s s' && Pos.eqb m m' && Z.eqb e e'
  | _, _ => false
  end.

(** The value [real_multiply_scalar] is to write at index [j]. *)
Definition scaled {F} (fmul : F -> F -> F) (array : buffer F) (value : F) (j : Z) : F :=
  fmul (array j) value.

(** The array [0, 1, ..., n - 1]. *)
Definition iota (n : nat) : list Z := map Z.of_nat (seq 0 n).

(** Views of the lanes of a register, for the statements on the SSE
    decoder: a comparison flag, the low 16 and 32 bits of a lane, two 16-bit
    lanes read as one 32-bit lane, and what the decoder computes in one lane
    on its all-zeros path and on its main path. *)
Definition flag (b : bool) : Z := if b then 0xffff else 0.
Definition mask16 (x : Z) : Z := Z.land x (Z.ones 16).
Definition mask32 (x : Z) : Z := Z.land x (Z.ones 32).

Definition pair16 (a b : Z) : Z := Z.lor (Z.land a (Z.ones 16)) (Z.shiftl b 16).

Definition sse_zero_lane (w : Z) : Z :=
  mask32 (pair16 (mask16 0) (mask16 (Z.land w 0x8000))).

Definition sse_main_lane (w : Z) : Z :=
  mask32
    (Z.lor
       (mask32
          (Z.shiftl
             (mask32
                (pair16
                   (mask16
                      (Z.land w
                         (if mask16 (Z.land w 0x7c00) =? mask16 0x7c00
                          then 0x03ff else 0x7fff)))
                   (mask16 0)))
             13) +
        mask32
          (if mask16 (Z.land w 0x7c00) =? mask16 0x7c00
           then 0x7f800000 else 0x38000000))
       (pair16 (mask16 0) (mask16 (Z.land w 0x8000)))).





(** The index a block instruction of the 256-bit registers reads for the
    element [j] of the vector body: [perm] gives the source lane of each of
    the sixteen lanes of a block. *)
Definition block_index (perm : Z -> Z) (startIndex j : Z) : Z :=
  let k := (j - startIndex) mod 16 in j - k + perm k.

(** The 256-bit pack and unpack instructions work on the two 128-bit halves
    of their registers separately; on a block of sixteen elements this
    exchanges the second and the third group of four. *)
Definition half_swap (k : Z) : Z :=
  if in_range 4 8 k then k + 4 else if in_range 8 12 k then k - 4 else k.

(** Two loads of eight elements four apart: the third and fourth group of
    four repeat the second and the third. *)
Definition overlap (k : Z) : Z := if k <? 8 then k else k - 4.

(** The conjugate of an array of interleaved complex numbers, at index [j]. *)
Definition conjugated (array : buffer binary32) (j : Z) : binary32 :=
  if Z.even j then array j else f32_opp (array j).

(** One step of the scalar loops of the conjugation: the pair that ends at
    index [i]. *)
Definition conjugate_pair (array : buffer binary32) (i : Z) (res : buffer binary32)
  : buffer binary32 :=
  store (store res (i - 1) (array (i - 1))) i (f32_opp (array i)).

(** The number a half-precision word denotes (IEEE 754 binary16: sign in
    bit 15, exponent in bits 14 to 10 with bias 15, fraction in bits 9 to
    0), as a float. *)
Definition binary16_value (h : Z) : binary32 :=
  let s := Z.testbit h 15 in
  let e := Z.land (Z.shiftr h 10) 31 in
  let m := Z.land h 1023 in
  if e =? 0 then binary_normalize prec32 emax32 (cond_Zopp s m) (- 24) s
  else if e =? 31 then (if m =? 0 then S754_infinity s else S754_nan)
  else binary_normalize prec32 emax32 (cond_Zopp s (1024 + m)) (e - 25) s.

(** Sample arrays, for the instances of the statements. *)
Definition sample_int16 : buffer Z :=
  buffer_of_list 0
    [3; -7; 12; -32768; 32767; 0; -1; 100; 250; -250; 9; -9; 1; -1; 2; -2;
     5; -5; 6; 21; -22; 23; -24; 25; -26; 27; -28; 29; -30; 31; -32; 33;
     -34; 35; -36; 37; -38].
Definition sample_int32 : buffer Z :=
  buffer_of_list 0
    [70000; -70000; 12; -2147483648; 2147483647; 0; -1; 100; 32768; -32769;
     9; -9; 1; -1; 2; -2; 5; -5; 6; 40000; -40000; 23; -24; 25; -26; 27; -28;
     29; -30; 65536; -65536; 33; -34; 35; -36; 37; -38].
Definition sample_float : buffer binary32 :=
  buffer_of_list f32_zero
    (map f32_of_int
       [70000; -70000; 12; -3; 7; 0; -1; 100; 32768; -32769; 9; -9; 1; -1; 2;
        -2; 5; -5; 6; 40; -41; 42; -43; 44; -45; 46; -47; 48; -49; 50; -51;
        52; -53; 54; -55; 56; -57]).
Definition sample_half : buffer Z :=
  buffer_of_list 0
    [0x3c00; 0x0001; 0x8000; 0x7bff; 0x7c00; 0xfc00; 0x7e00; 0x0000; 0x03ff;
     0x0400; 0xc000; 0x3555; 0x0002; 0x8001; 0x0200; 0x8200; 0x0003; 0x3800;
     0xbc00].

(** * Properties *)

Import X86.
Import NEON.

(** ** Machine integers *)

Lemma to_signed_small w z :
  0 < w -> - 2 ^ (w - 1) <= z < 2 ^ (w - 1) -> to_signed w z = z.
Proof.
  intros Hw Hz. unfold to_signed, to_unsigned. cbv zeta.
  rewrite Z.land_ones by lia.
  assert (Hp : 0 < 2 ^ (w - 1)) by (apply Z.pow_pos_nonneg; lia).
  assert (H2 : 2 ^ w = 2 * 2 ^ (w - 1)).
  { rewrite <- Z.pow_succ_r by lia. f_equal. lia. }
  destruct (Z.lt_ge_cases z 0).
  - replace (z mod 2 ^ w) with (z + 2 ^ w).
    + destruct (Z.ltb_spec (z + 2 ^ w) (2 ^ (w - 1))); lia.
    + apply Z.mod_unique with (q := -1); lia.
  - rewrite Z.mod_small by lia.
    destruct (Z.ltb_spec z (2 ^ (w - 1))); lia.
Qed.

Lemma to_int_small z : 0 <= z <= INT_MAX -> to_int z = z.
Proof.
  intros Hz. unfold to_int. apply to_signed_small; [lia|].
  unfold INT_MAX in Hz. simpl. lia.
Qed.

Lemma to_signed_land w z : to_signed w (Z.land z (Z.ones w)) = to_signed w z.
Proof.
  unfold to_signed, to_unsigned.
  rewrite <- Z.land_assoc, Z.land_diag. reflexivity.
Qed.

Lemma land_lnot_ones x n :
  0 <= n -> Z.land x (Z.lnot (Z.ones n)) = 2 ^ n * (x / 2 ^ n).
Proof.
  intros Hn. rewrite <- Z.ldiff_land, Z.ldiff_ones_r by assumption.
  rewrite Z.shiftl_mul_pow2, Z.shiftr_div_pow2 by assumption. lia.
Qed.

Lemma land_lnot_7 x : Z.land x (Z.lnot 0x7) = 8 * (x / 8).
Proof. exact (land_lnot_ones x 3 ltac:(lia)). Qed.

Lemma land_lnot_15 x : Z.land x (Z.lnot 0xF) = 16 * (x / 16).
Proof. exact (land_lnot_ones x 4 ltac:(lia)). Qed.

Lemma land_lnot_3 x : Z.land x (Z.lnot 0x3) = 4 * (x / 4).
Proof. exact (land_lnot_ones x 2 ltac:(lia)). Qed.

Lemma shiftl_shiftr_4 x : Z.shiftl (Z.shiftr x 4) 4 = 16 * (x / 16).
Proof.
  rewrite Z.shiftl_mul_pow2, Z.shiftr_div_pow2 by lia.
  change (2 ^ 4) with 16. lia.
Qed.

Lemma forall_range_spec n f :
  forall lo, forall_range n lo f = true ->
  forall z, lo <= z < lo + Z.of_nat n -> f z = true.
Proof.
  induction n as [|n IH]; intros lo H z Hz.
  - simpl in Hz. lia.
  - simpl in H. apply andb_true_iff in H. destruct H as [H0 H1].
    destruct (Z.eq_dec z lo) as [->|Hne]; [assumption|].
    apply (IH (lo + 1)); [assumption|lia].
Qed.

(** ** Loops *)

Lemma trip_count_done start bound step :
  0 < step -> bound <= start -> trip_count start bound step = O.
Proof.
  intros Hs Hb. unfold trip_count.
  assert ((bound - start + step - 1) / step <= 0).
  { assert (H : (bound - start + step - 1) / step < 1);
      [apply Z.div_lt_upper_bound|]; lia. }
  lia.
Qed.

Lemma trip_count_step start bound step :
  0 < step -> start < bound ->
  trip_count start bound step = Datatypes.S (trip_count (start + step) bound step).
Proof.
  intros Hs Hb. unfold trip_count.
  replace (bound - start + step - 1) with (bound - (start + step) + step - 1 + 1 * step) by lia.
  rewrite Z.div_add by lia.
  assert (0 <= (bound - (start + step) + step - 1) / step).
  { apply Z.div_pos; lia. }
  rewrite Z2Nat.inj_add by lia. rewrite Nat.add_comm. reflexivity.
Qed.

(** [for_loop] is the C loop: test, body, increment. *)
Lemma for_loop_unfold {S} start bound step (body : Z -> S -> S) s :
  0 < step ->
  for_loop start bound step body s =
  if start <? bound then for_loop (start + step) bound step body (body start s) else s.
Proof.
  intros Hs. unfold for_loop. destruct (Z.ltb_spec start bound).
  - rewrite trip_count_step by assumption. reflexivity.
  - rewrite trip_count_done by assumption. reflexivity.
Qed.

Lemma trip_count_exact start bound step :
  0 < step -> 0 <= bound - start + step - 1 ->
  Z.of_nat (trip_count start bound step) = (bound - start + step - 1) / step.
Proof.
  intros Hs Hb. unfold trip_count. rewrite Z2Nat.id; [reflexivity|].
  apply Z.div_pos; lia.
Qed.

(** Decides a goal between nested tests of ranges by cases on the
    comparisons. *)
Ltac range_cases :=
  unfold in_range;
  repeat match goal with
         | |- context [Z.leb ?a ?b] => destruct (Z.leb_spec a b)
         | |- context [Z.ltb ?a ?b] => destruct (Z.ltb_spec a b)
         end; simpl; try reflexivity; try lia.

Lemma iterate_blocks_on {T} (P : Z -> Prop) (f : Z -> T) w
      (body : Z -> buffer T -> buffer T) :
  0 < w ->
  (forall i, P i -> forall res j,
     body i res j = if in_range i (i + w) j then f j else res j) ->
  forall n i,
    (forall m, 0 <= m < Z.of_nat n -> P (i + w * m)) ->
    forall res j,
      iterate n i w body res j =
      if in_range i (i + w * Z.of_nat n) j then f j else res j.
Proof.
  intros Hw Hbody. induction n as [|n IH]; intros i HP res j.
  - simpl. range_cases.
  - cbn [iterate]. rewrite IH.
    + rewrite Hbody.
      * rewrite Nat2Z.inj_succ. range_cases.
      * replace i with (i + w * 0) by lia. apply HP. lia.
    + intros m Hm. replace (i + w + w * m) with (i + w * (m + 1)) by lia.
      apply HP. lia.
Qed.

(** A loop whose body writes [f j] at every index [j] of its block of [w]
    elements, and nothing else, writes [f] on the union of the blocks. *)
Lemma iterate_blocks {T} (f : Z -> T) w (body : Z -> buffer T -> buffer T) :
  0 < w ->
  (forall i res j, body i res j = if in_range i (i + w) j then f j else res j) ->
  forall n i res j,
    iterate n i w body res j =
    if in_range i (i + w * Z.of_nat n) j then f j else res j.
Proof.
  intros Hw Hbody. induction n as [|n IH]; intros i res j.
  - simpl. unfold in_range.
    destruct (Z.leb_spec i j), (Z.ltb_spec j (i + w * 0)); simpl; try reflexivity; lia.
  - cbn [iterate]. rewrite IH, Hbody. unfold in_range.
    destruct (Z.leb_spec (i + w) j), (Z.ltb_spec j (i + w + w * Z.of_nat n)),
      (Z.leb_spec i j), (Z.ltb_spec j (i + w)),
      (Z.ltb_spec j (i + w * Z.of_nat (Datatypes.S n))); simpl; try reflexivity; lia.
Qed.

Lemma for_loop_blocks {T} (f : Z -> T) w (body : Z -> buffer T -> buffer T) :
  0 < w ->
  (forall i res j, body i res j = if in_range i (i + w) j then f j else res j) ->
  forall start bound res j,
    for_loop start bound w body res j =
    if in_range start (start + w * Z.of_nat (trip_count start bound w)) j
    then f j else res j.
Proof. intros Hw Hbody start bound res j. apply iterate_blocks; assumption. Qed.

(** The scalar loops: [res[i] = f i] for [i] from [start] to [bound]. *)
Lemma for_loop_store {T} (f : Z -> T) start bound res j :
  for_loop start bound 1 (fun i res => store res i (f i)) res j =
  if in_range start bound j then f j else res j.
Proof.
  rewrite (for_loop_blocks f 1); [|lia|].
  - destruct (Z.le_gt_cases start bound).
    + rewrite trip_count_exact by lia.
      replace ((bound - start + 1 - 1) / 1) with (bound - start)
        by (rewrite Z.div_1_r; lia).
      replace (start + 1 * (bound - start)) with bound by lia. reflexivity.
    + rewrite trip_count_done by lia. unfold in_range.
      destruct (Z.leb_spec start j), (Z.ltb_spec j (start + 1 * Z.of_nat 0)),
        (Z.ltb_spec j bound); simpl; try reflexivity; lia.
  - intros i r k. unfold store, in_range.
    destruct (Z.eqb_spec k i), (Z.leb_spec i k), (Z.ltb_spec k (i + 1));
      simpl; try reflexivity; try lia. subst. reflexivity.
Qed.

(** ** Loads and stores of vectors *)

Lemma store_vec_pointwise {T} (d : T) (f : Z -> T) l :
  forall m i,
    (forall k, (k < length l)%nat -> nth k l d = f (i + Z.of_nat k)) ->
    forall j, store_vec m i l j =
              if in_range i (i + Z.of_nat (length l)) j then f j else m j.
Proof.
  induction l as [|v r IH]; intros m i Hl j.
  - simpl. unfold in_range.
    destruct (Z.leb_spec i j), (Z.ltb_spec j (i + 0)); simpl; try reflexivity; lia.
  - cbn [store_vec]. rewrite (IH (store m i v) (i + 1)).
    + pose proof (Hl O ltac:(simpl; lia)) as H0. simpl in H0.
      replace (i + 0) with i in H0 by lia.
      unfold in_range, store. cbn [length]. rewrite Nat2Z.inj_succ.
      destruct (Z.eqb_spec j i), (Z.leb_spec (i + 1) j),
        (Z.ltb_spec j (i + 1 + Z.of_nat (length r))), (Z.leb_spec i j),
        (Z.ltb_spec j (i + Z.succ (Z.of_nat (length r))));
        simpl; try reflexivity; try lia.
      subst. reflexivity.
    + intros k Hk. specialize (Hl (Datatypes.S k) ltac:(simpl; lia)).
      simpl in Hl. rewrite Hl. f_equal. lia.
Qed.

Lemma store_vec_8 (r : buffer Z) i (f : Z -> Z) e0 e1 e2 e3 e4 e5 e6 e7 :
  e0 = f i -> e1 = f (i + 1) -> e2 = f (i + 2) -> e3 = f (i + 3) ->
  e4 = f (i + 4) -> e5 = f (i + 5) -> e6 = f (i + 6) -> e7 = f (i + 7) ->
  forall k,
    store_vec (store_vec r i [e0; e1; e2; e3]) (i + 4) [e4; e5; e6; e7] k =
    if in_range i (i + 8) k then f k else r k.
Proof.
  intros -> -> -> -> -> -> -> -> k.
  rewrite (store_vec_pointwise 0 f).
  - rewrite (store_vec_pointwise 0 f).
    + cbn [Datatypes.length]. range_cases.
    + intros n Hn. simpl in Hn.
      do 4 (destruct n as [|n]; [cbn [nth]; f_equal; lia|]). lia.
  - intros n Hn. simpl in Hn.
    do 4 (destruct n as [|n]; [cbn [nth]; f_equal; lia|]). lia.
Qed.

Lemma load_vec_cons {T} (m : buffer T) i n :
  load_vec m i (Datatypes.S n) = m i :: load_vec m (i + 1) n.
Proof.
  unfold load_vec. cbn [seq map]. rewrite Z.add_0_r. f_equal.
  rewrite <- seq_shift, map_map. apply map_ext. intros k. f_equal. lia.
Qed.

Lemma load_vec_app {T} (m : buffer T) n k :
  forall i, load_vec m i (n + k) = load_vec m i n ++ load_vec m (i + Z.of_nat n) k.
Proof.
  induction n as [|n IH]; intros i.
  - simpl. rewrite Z.add_0_r. reflexivity.
  - cbn [Nat.add]. rewrite !load_vec_cons, IH. cbn [app]. do 3 f_equal. lia.
Qed.

Lemma length_load_vec {T} (m : buffer T) i n : length (load_vec m i n) = n.
Proof. unfold load_vec. rewrite length_map, length_seq. reflexivity. Qed.

Lemma length_map2 {A B C} (g : A -> B -> C) l :
  forall l', length l' = length l -> length (map2 g l l') = length l.
Proof.
  induction l as [|a r IH]; intros [|b r'] H; simpl in *; try reflexivity; try discriminate.
  f_equal. apply IH. congruence.
Qed.

Lemma load_vec_8 {T} (m : buffer T) i :
  load_vec m i 8 = [m i; m (i+1); m (i+2); m (i+3); m (i+4); m (i+5); m (i+6); m (i+7)].
Proof. unfold load_vec. cbn [seq map Z.of_nat Pos.of_succ_nat Pos.succ]. rewrite Z.add_0_r. reflexivity. Qed.

(** ** Integer registers *)

Lemma lanes_cons w n v :
  0 <= w ->
  lanes w (S n) v = Z.land v (Z.ones w) :: lanes w n (Z.shiftr v w).
Proof.
  intros Hw. unfold lanes. cbn [seq map]. f_equal.
  - rewrite Z.mul_0_r, Z.shiftr_0_r. reflexivity.
  - rewrite <- seq_shift, map_map. apply map_ext. intros k.
    rewrite Z.shiftr_shiftr by lia. do 2 f_equal. lia.
Qed.

Lemma pack_low w x p :
  0 <= w -> Z.land (Z.lor (Z.land x (Z.ones w)) (Z.shiftl p w)) (Z.ones w) = Z.land x (Z.ones w).
Proof.
  intros Hw. apply Z.bits_inj'. intros i Hi.
  rewrite !Z.land_spec, Z.lor_spec, Z.land_spec, Z.testbit_ones_nonneg by lia.
  destruct (Z.ltb_spec i w).
  - rewrite Z.shiftl_spec_low by lia. rewrite orb_false_r, !andb_true_r. reflexivity.
  - rewrite !andb_false_r. reflexivity.
Qed.

Lemma pack_high w x p :
  0 <= w -> Z.shiftr (Z.lor (Z.land x (Z.ones w)) (Z.shiftl p w)) w = p.
Proof.
  intros Hw. apply Z.bits_inj'. intros i Hi.
  rewrite Z.shiftr_spec, Z.lor_spec, Z.land_spec, Z.testbit_ones_nonneg by lia.
  rewrite Z.shiftl_spec by lia.
  destruct (Z.ltb_spec (i + w) w); [lia|].
  rewrite andb_false_r. simpl. f_equal. lia.
Qed.

Lemma lanes_pack w l :
  0 <= w -> lanes w (length l) (pack w l) = map (fun x => Z.land x (Z.ones w)) l.
Proof.
  intros Hw. induction l as [|x r IH].
  - reflexivity.
  - cbn [length pack map]. rewrite lanes_cons by assumption.
    rewrite pack_low, pack_high by assumption. rewrite IH. reflexivity.
Qed.

Lemma land_pack w : 0 <= w -> forall l l',
  Z.land (pack w l) (pack w l') = pack w (map2 Z.land l l').
Proof.
  intros Hw. induction l as [|x r IH]; intros [|y r']; cbn [pack map2].
  - reflexivity.
  - reflexivity.
  - apply Z.land_0_r.
  - rewrite <- IH. apply Z.bits_inj'. intros i Hi.
    rewrite ?Z.land_spec, ?Z.lor_spec, ?Z.land_spec, ?Z.testbit_ones_nonneg by lia.
    destruct (Z.ltb_spec i w).
    + rewrite !Z.shiftl_spec_low by lia. rewrite !orb_false_r, !andb_true_r. reflexivity.
    + rewrite !Z.shiftl_spec by lia. rewrite Z.land_spec, !andb_false_r. reflexivity.
Qed.

Lemma lor_pack w : 0 <= w -> forall l l', length l = length l' ->
  Z.lor (pack w l) (pack w l') = pack w (map2 Z.lor l l').
Proof.
  intros Hw. induction l as [|x r IH]; intros [|y r'] Hlen; cbn [pack map2];
    try discriminate Hlen.
  - reflexivity.
  - rewrite <- IH by (simpl in Hlen; congruence). apply Z.bits_inj'. intros i Hi.
    rewrite ?Z.lor_spec, ?Z.land_spec, ?Z.lor_spec, ?Z.testbit_ones_nonneg by lia.
    destruct (Z.ltb_spec i w).
    + rewrite !Z.shiftl_spec_low by lia. rewrite !orb_false_r, !andb_true_r. reflexivity.
    + rewrite !Z.shiftl_spec by lia. rewrite Z.lor_spec, !andb_false_r. reflexivity.
Qed.

Lemma or_pack x0 x1 x2 x3 y0 y1 y2 y3 :
  Z.lor (pack 32 [x0; x1; x2; x3]) (pack 32 [y0; y1; y2; y3]) =
  pack 32 (map2 Z.lor [x0; x1; x2; x3] [y0; y1; y2; y3]).
Proof. apply lor_pack; [lia|reflexivity]. Qed.

Lemma pack16_pair a b r :
  pack 16 (a :: b :: r) = Z.lor (Z.land (pair16 a b) (Z.ones 32)) (Z.shiftl (pack 16 r) 32).
Proof.
  cbn [pack]. unfold pair16. apply Z.bits_inj'. intros i Hi.
  rewrite ?Z.lor_spec, ?Z.land_spec, ?Z.lor_spec, ?Z.land_spec,
    ?Z.testbit_ones_nonneg by lia.
  destruct (Z.ltb_spec i 16), (Z.ltb_spec i 32); try lia.
  - rewrite !Z.shiftl_spec_low by lia. rewrite !orb_false_r, !andb_true_r. reflexivity.
  - rewrite (Z.shiftl_spec_low _ 32) by lia.
    rewrite !Z.shiftl_spec by lia. rewrite Z.lor_spec, Z.land_spec.
    rewrite Z.testbit_ones_nonneg by lia.
    destruct (Z.ltb_spec (i - 16) 16); [|lia].
    rewrite (Z.shiftl_spec_low _ 16 (i - 16)) by lia.
    rewrite !andb_false_r, !andb_true_r, !orb_false_r. reflexivity.
  - rewrite !Z.shiftl_spec by lia. rewrite Z.lor_spec, Z.land_spec.
    rewrite Z.testbit_ones_nonneg by lia.
    destruct (Z.ltb_spec (i - 16) 16); [lia|].
    rewrite Z.shiftl_spec by lia.
    rewrite !andb_false_r. simpl. f_equal. lia.
Qed.

Lemma pack16_pack32 a0 a1 a2 a3 a4 a5 a6 a7 :
  pack 16 [a0; a1; a2; a3; a4; a5; a6; a7] =
  pack 32 [pair16 a0 a1; pair16 a2 a3; pair16 a4 a5; pair16 a6 a7].
Proof.
  rewrite pack16_pair. rewrite (pack16_pair a2). rewrite (pack16_pair a4).
  rewrite (pack16_pair a6). reflexivity.
Qed.

Lemma cmpeq_pack a0 a1 a2 a3 a4 a5 a6 a7 b0 b1 b2 b3 b4 b5 b6 b7 :
  _mm_cmpeq_epi16 (pack 16 [a0; a1; a2; a3; a4; a5; a6; a7])
                  (pack 16 [b0; b1; b2; b3; b4; b5; b6; b7]) =
  pack 16 (map flag (map2 (fun a b => mask16 a =? mask16 b)
                 [a0; a1; a2; a3; a4; a5; a6; a7] [b0; b1; b2; b3; b4; b5; b6; b7])).
Proof.
  unfold _mm_cmpeq_epi16.
  change 8%nat with (length [a0; a1; a2; a3; a4; a5; a6; a7]) at 1.
  rewrite lanes_pack by lia.
  change 8%nat with (length [b0; b1; b2; b3; b4; b5; b6; b7]).
  rewrite lanes_pack by lia. reflexivity.
Qed.

Lemma unpacklo_pack a0 a1 a2 a3 a4 a5 a6 a7 b0 b1 b2 b3 b4 b5 b6 b7 :
  _mm_unpacklo_epi16 (pack 16 [a0; a1; a2; a3; a4; a5; a6; a7])
                     (pack 16 [b0; b1; b2; b3; b4; b5; b6; b7]) =
  pack 32 [pair16 (mask16 a0) (mask16 b0); pair16 (mask16 a1) (mask16 b1);
           pair16 (mask16 a2) (mask16 b2); pair16 (mask16 a3) (mask16 b3)].
Proof.
  unfold _mm_unpacklo_epi16.
  change 8%nat with (length [a0; a1; a2; a3; a4; a5; a6; a7]) at 1.
  rewrite lanes_pack by lia.
  change 8%nat with (length [b0; b1; b2; b3; b4; b5; b6; b7]).
  rewrite lanes_pack by lia. cbn [map firstn interleave].
  apply pack16_pack32.
Qed.

Lemma unpackhi_pack a0 a1 a2 a3 a4 a5 a6 a7 b0 b1 b2 b3 b4 b5 b6 b7 :
  _mm_unpackhi_epi16 (pack 16 [a0; a1; a2; a3; a4; a5; a6; a7])
                     (pack 16 [b0; b1; b2; b3; b4; b5; b6; b7]) =
  pack 32 [pair16 (mask16 a4) (mask16 b4); pair16 (mask16 a5) (mask16 b5);
           pair16 (mask16 a6) (mask16 b6); pair16 (mask16 a7) (mask16 b7)].
Proof.
  unfold _mm_unpackhi_epi16.
  change 8%nat with (length [a0; a1; a2; a3; a4; a5; a6; a7]) at 1.
  rewrite lanes_pack by lia.
  change 8%nat with (length [b0; b1; b2; b3; b4; b5; b6; b7]).
  rewrite lanes_pack by lia. cbn [map skipn interleave].
  apply pack16_pack32.
Qed.

Lemma slli_pack x0 x1 x2 x3 n :
  _mm_slli_epi32 (pack 32 [x0; x1; x2; x3]) n =
  pack 32 (map (fun x => Z.shiftl (mask32 x) n) [x0; x1; x2; x3]).
Proof.
  unfold _mm_slli_epi32.
  change 4%nat with (length [x0; x1; x2; x3]).
  rewrite lanes_pack by lia. rewrite map_map. reflexivity.
Qed.

Lemma add_pack x0 x1 x2 x3 y0 y1 y2 y3 :
  _mm_add_epi32 (pack 32 [x0; x1; x2; x3]) (pack 32 [y0; y1; y2; y3]) =
  pack 32 (map2 (fun x y => mask32 x + mask32 y) [x0; x1; x2; x3] [y0; y1; y2; y3]).
Proof.
  unfold _mm_add_epi32.
  change 4%nat with (length [x0; x1; x2; x3]) at 1.
  rewrite lanes_pack by lia.
  change 4%nat with (length [y0; y1; y2; y3]).
  rewrite lanes_pack by lia. reflexivity.
Qed.

Lemma store_bits_pack r i x0 x1 x2 x3 :
  _mm_store_si128_bits r i (pack 32 [x0; x1; x2; x3]) =
  store_vec r i (map mask32 [x0; x1; x2; x3]).
Proof.
  unfold _mm_store_si128_bits.
  change 4%nat with (length [x0; x1; x2; x3]).
  rewrite lanes_pack by lia. reflexivity.
Qed.

Lemma movemask_flags b0 b1 b2 b3 b4 b5 b6 b7 :
  (_mm_movemask_epi8 (pack 16 (map flag [b0; b1; b2; b3; b4; b5; b6; b7])) =? 0) =
    negb (b0 || b1 || b2 || b3 || b4 || b5 || b6 || b7) /\
  (_mm_movemask_epi8 (pack 16 (map flag [b0; b1; b2; b3; b4; b5; b6; b7])) =? 0xffff) =
    (b0 && b1 && b2 && b3 && b4 && b5 && b6 && b7).
Proof.
  destruct b0, b1, b2, b3, b4, b5, b6, b7; vm_compute; split; reflexivity.
Qed.

Lemma blendv_and_mask b0 b1 b2 b3 b4 b5 b6 b7 :
  _mm_blendv_epi8 (pack 16 (repeat 0x7fff 8)) (pack 16 (repeat 0x03ff 8))
                  (pack 16 (map flag [b0; b1; b2; b3; b4; b5; b6; b7])) =
  pack 16 (map (fun b : bool => if b then 0x03ff else 0x7fff)
               [b0; b1; b2; b3; b4; b5; b6; b7]).
Proof.
  destruct b0, b1, b2, b3, b4, b5, b6, b7; vm_compute; reflexivity.
Qed.

Lemma blendv_add b0 b1 b2 b3 :
  _mm_blendv_epi8 (_mm_set1_epi32 0x38000000) (_mm_set1_epi32 0x7f800000)
                  (pack 32 [pair16 (mask16 0) (mask16 (flag b0));
                            pair16 (mask16 0) (mask16 (flag b1));
                            pair16 (mask16 0) (mask16 (flag b2));
                            pair16 (mask16 0) (mask16 (flag b3))]) =
  pack 32 (map (fun b : bool => if b then 0x7f800000 else 0x38000000)
               [b0; b1; b2; b3]).
Proof.
  destruct b0, b1, b2, b3; vm_compute; reflexivity.
Qed.

(** ** The scalar reference kernels and binary32 *)

Lemma int16_to_float_na_spec data length res j :
  int16_to_float_na data length res j =
  if in_range 0 length j then f32_of_int (data j) else res j.
Proof. apply (for_loop_store (fun j => f32_of_int (data j))). Qed.

Lemma float_to_int16_na_spec data length res j :
  float_to_int16_na data length res j =
  if in_range 0 length j then cast_f32_int16 (data j) else res j.
Proof. apply (for_loop_store (fun j => cast_f32_int16 (data j))). Qed.

Lemma float_to_int32_na_spec data length res j :
  float_to_int32_na data length res j =
  if in_range 0 length j then cast_f32_int32 (data j) else res j.
Proof. apply (for_loop_store (fun j => cast_f32_int32 (data j))). Qed.

Lemma int16_to_int32_na_spec data length res j :
  int16_to_int32_na data length res j =
  if in_range 0 length j then to_int32 (data j) else res j.
Proof. apply (for_loop_store (fun j => to_int32 (data j))). Qed.

Lemma float16_to_float_na_spec data length res j :
  float16_to_float_na data length res j =
  if in_range 0 length j then float16_decode (data j) else res j.
Proof. apply (for_loop_store (fun j => float16_decode (data j))). Qed.

Lemma add_to_all_na_spec {F} (fadd : F -> F -> F) input length value output j :
  add_to_all_na fadd input length value output j =
  if in_range 0 (to_int length) j then fadd (input j) value else output j.
Proof. apply (for_loop_store (fun j => fadd (input j) value)). Qed.

Lemma binary32_eqb_eq x y : binary32_eqb x y = true -> x = y.
Proof.
  destruct x, y; simpl; try discriminate; intros H.
  - apply eqb_prop in H. congruence.
  - apply eqb_prop in H. congruence.
  - reflexivity.
  - apply andb_true_iff in H. destruct H as [H He].
    apply andb_true_iff in H. destruct H as [Hs Hm].
    apply eqb_prop in Hs. apply Pos.eqb_eq in Hm. apply Z.eqb_eq in He.
    congruence.
Qed.

Lemma f32_add_comm x y : f32_add x y = f32_add y x.
Proof.
  unfold f32_add, SFadd.
  destruct x as [sx|sx| |sx mx ex], y as [sy|sy| |sy my ey]; try reflexivity.
  - destruct sx, sy; reflexivity.
  - destruct sx, sy; reflexivity.
  - rewrite (Z.min_comm ex ey). f_equal. apply Z.add_comm.
Qed.

Lemma cvtt_int32_range f : - 2 ^ 31 <= cvtt_int32 f < 2 ^ 31.
Proof.
  unfold cvtt_int32. destruct (f32_trunc f) as [z|]; [|simpl; lia].
  destruct (Z.leb_spec (- 2 ^ 31) z), (Z.ltb_spec z (2 ^ 31)); simpl in *; lia.
Qed.

(** ** next_highest_power_of_2 *)

(** One smearing step [v |= v >> k] widens the window of bits of [x] that
    decide a bit of [v] from [w] to [w + k]. *)
Lemma smear_bits x v w k :
  0 <= k <= w ->
  (forall i, 0 <= i ->
     Z.testbit v i = true <-> exists d, 0 <= d < w /\ Z.testbit x (i + d) = true) ->
  forall i, 0 <= i ->
    Z.testbit (Z.lor v (Z.shiftr v k)) i = true <->
    exists d, 0 <= d < w + k /\ Z.testbit x (i + d) = true.
Proof.
  intros Hk Hv i Hi.
  rewrite Z.lor_spec, Z.shiftr_spec, orb_true_iff by assumption.
  rewrite (Hv i Hi), (Hv (i + k) ltac:(lia)). split.
  - intros [(d & Hd & Hb)|(d & Hd & Hb)].
    + exists d. split; [lia|assumption].
    + exists (k + d). split; [lia|]. rewrite <- Hb. f_equal. lia.
  - intros (d & Hd & Hb). destruct (Z.lt_ge_cases d w).
    + left. exists d. split; [lia|assumption].
    + right. exists (d - k). split; [lia|]. rewrite <- Hb. f_equal. lia.
Qed.

Lemma smear_all x :
  0 < x < 2 ^ 31 ->
  let v1 := Z.lor x (Z.shiftr x 1) in
  let v2 := Z.lor v1 (Z.shiftr v1 2) in
  let v3 := Z.lor v2 (Z.shiftr v2 4) in
  let v4 := Z.lor v3 (Z.shiftr v3 8) in
  let v5 := Z.lor v4 (Z.shiftr v4 16) in
  v5 = 2 ^ (Z.log2 x + 1) - 1.
Proof.
  intros Hx v1 v2 v3 v4 v5.
  assert (H0 : forall i, 0 <= i ->
     Z.testbit x i = true <-> exists d, 0 <= d < 1 /\ Z.testbit x (i + d) = true).
  { intros i Hi. split.
    - intros Hb. exists 0. split; [lia|]. rewrite Z.add_0_r. assumption.
    - intros (d & Hd & Hb). replace (i + d) with i in Hb by lia. assumption. }
  pose proof (smear_bits x x 1 1 ltac:(lia) H0) as H1. fold v1 in H1.
  pose proof (smear_bits x v1 2 2 ltac:(lia) H1) as H2. fold v2 in H2.
  pose proof (smear_bits x v2 4 4 ltac:(lia) H2) as H3. fold v3 in H3.
  pose proof (smear_bits x v3 8 8 ltac:(lia) H3) as H4. fold v4 in H4.
  pose proof (smear_bits x v4 16 16 ltac:(lia) H4) as H5. fold v5 in H5.
  simpl in H5.
  assert (HL : 0 <= Z.log2 x < 31).
  { split; [apply Z.log2_nonneg|]. apply Z.log2_lt_pow2; lia. }
  replace (2 ^ (Z.log2 x + 1) - 1) with (Z.ones (Z.log2 x + 1))
    by (rewrite Z.ones_equiv; lia).
  apply Z.bits_inj'. intros i Hi.
  rewrite Z.testbit_ones_nonneg by lia.
  destruct (Z.ltb_spec i (Z.log2 x + 1)) as [Hlt|Hge].
  - apply H5; [assumption|]. exists (Z.log2 x - i). split; [lia|].
    replace (i + (Z.log2 x - i)) with (Z.log2 x) by lia.
    apply Z.bit_log2. lia.
  - destruct (Z.testbit v5 i) eqn:Hb; [|reflexivity].
    apply H5 in Hb; [|assumption]. destruct Hb as (d & Hd & Hb).
    rewrite Z.bits_above_log2 in Hb by lia. discriminate.
Qed.

Lemma next_highest_power_of_2_log2 value :
  2 <= value <= 2 ^ 30 ->
  next_highest_power_of_2 value = 2 ^ (Z.log2 (value - 1) + 1).
Proof.
  intros Hv. unfold next_highest_power_of_2.
  assert (H30 : 2 ^ 30 = 1073741824) by reflexivity.
  rewrite (to_int_small (value - 1)) by (unfold INT_MAX; lia).
  cbv zeta. rewrite smear_all by lia.
  assert (HL : 0 <= Z.log2 (value - 1) < 30).
  { split; [apply Z.log2_nonneg|]. apply Z.log2_lt_pow2; lia. }
  assert (2 ^ (Z.log2 (value - 1) + 1) <= 2 ^ 30)
    by (apply Z.pow_le_mono_r; lia).
  assert (0 < 2 ^ (Z.log2 (value - 1) + 1)) by (apply Z.pow_pos_nonneg; lia).
  rewrite to_int_small by (unfold INT_MAX; lia). lia.
Qed.

Lemma next_highest_power_of_2_least value :
  1 <= value <= 2 ^ 30 ->
  exists k, 0 <= k /\ next_highest_power_of_2 value = 2 ^ k /\ value <= 2 ^ k /\
            forall j, 0 <= j -> value <= 2 ^ j -> 2 ^ k <= 2 ^ j.
Proof.
  intros Hv. destruct (Z.eq_dec value 1) as [->|Hne].
  - exists 0. split; [lia|]. split; [reflexivity|]. split; [simpl; lia|].
    intros j Hj _. apply Z.pow_le_mono_r; lia.
  - exists (Z.log2 (value - 1) + 1).
    pose proof (Z.log2_nonneg (value - 1)).
    pose proof (Z.log2_spec (value - 1) ltac:(lia)) as [Hlo Hhi].
    rewrite <- Z.add_1_r in Hhi.
    split; [lia|]. split; [apply next_highest_power_of_2_log2; lia|].
    split; [lia|]. intros j Hj Hle.
    apply Z.pow_le_mono_r; [lia|].
    assert (Z.log2 (value - 1) < j); [|lia].
    apply (Z.pow_lt_mono_r_iff 2); lia.
Qed.

(** C9: for every [int] value with [1 <= value <= 2^30],
    [next_highest_power_of_2 value] is the smallest power of two that is
    greater than or equal to [value] (hence [value] itself when [value] is a
    power of two), and [next_highest_power_of_2 0] is [0]. *)
Theorem next_highest_power_of_2_spec (value : Z) :
  0 <= value <= 2 ^ 30 ->
  (value = 0 -> next_highest_power_of_2 value = 0) /\
  (1 <= value ->
   exists k, 0 <= k /\ next_highest_power_of_2 value = 2 ^ k /\ value <= 2 ^ k /\
             forall j, 0 <= j -> value <= 2 ^ j -> 2 ^ k <= 2 ^ j) /\
  (forall k, 0 <= k -> value = 2 ^ k -> next_highest_power_of_2 value = value).
Proof.
  intros Hv. split; [intros ->; reflexivity|].
  split; [intros H1; apply next_highest_power_of_2_least; lia|].
  intros k Hk ->.
  assert (H1 : 1 <= 2 ^ k) by (pose proof (Z.pow_pos_nonneg 2 k); lia).
  destruct (next_highest_power_of_2_least (2 ^ k) ltac:(lia))
    as (k' & Hk' & Heq & Hle & Hmin).
  rewrite Heq. specialize (Hmin k Hk ltac:(lia)). lia.
Qed.

Lemma next_highest_power_of_2_spec_witness :
  0 <= 5 <= 2 ^ 30 /\
  (5 = 0 -> next_highest_power_of_2 5 = 0) /\
  (1 <= 5 ->
   exists k, 0 <= k /\ next_highest_power_of_2 5 = 2 ^ k /\ 5 <= 2 ^ k /\
             forall j, 0 <= j -> 5 <= 2 ^ j -> 2 ^ k <= 2 ^ j) /\
  (forall k, 0 <= k -> 5 = 2 ^ k -> next_highest_power_of_2 5 = 5).
Proof.
  assert (H : 0 <= 5 <= 2 ^ 30) by (simpl; lia).
  split; [exact H|]. apply (next_highest_power_of_2_spec 5 H).
Defined.

(** ** The round trip between int16 and float *)

(** Every 16-bit integer is a float, and truncating that float gives the
    integer back, at either width. *)
Lemma int16_float_exact v :
  - 32768 <= v <= 32767 ->
  f32_trunc (f32_of_int v) = Some v /\
  cast_f32_int16 (f32_of_int v) = v /\
  cast_f32_int32 (f32_of_int v) = v.
Proof.
  intros Hv.
  assert (H : forall_range (Z.to_nat 65536) (- 32768)
                (fun v => match f32_trunc (f32_of_int v) with
                          | Some z => z =? v
                          | None => false
                          end
                          && (cast_f32_int16 (f32_of_int v) =? v)
                          && (cast_f32_int32 (f32_of_int v) =? v)) = true)
    by (vm_compute; reflexivity).
  pose proof (forall_range_spec _ _ _ H v ltac:(lia)) as Hc. cbv beta in Hc.
  apply andb_true_iff in Hc. destruct Hc as [Hc H32].
  apply andb_true_iff in Hc. destruct Hc as [Ht H16].
  apply Z.eqb_eq in H16, H32.
  destruct (f32_trunc (f32_of_int v)); [|discriminate].
  apply Z.eqb_eq in Ht. subst. auto.
Qed.

(** C6: for every int16 value [v], converting the one-element array [[v]]
    to float with the reference [int16_to_float_na] and back with
    [float_to_int16_na] gives [[v]] again: the float is the integer itself,
    and truncation of an integer returns it. *)
Theorem int16_float_round_trip (v : Z) (res1 : buffer binary32) (res2 : buffer Z) :
  - 32768 <= v <= 32767 ->
  let floats := int16_to_float_na (buffer_of_list 0 [v]) 1 res1 in
  f32_trunc (floats 0) = Some v /\
  load_vec (float_to_int16_na floats 1 res2) 0 1 = [v].
Proof.
  intros Hv floats.
  assert (Hf : floats 0 = f32_of_int v).
  { unfold floats. rewrite int16_to_float_na_spec. reflexivity. }
  destruct (int16_float_exact v Hv) as (Ht & H16 & _).
  split; [rewrite Hf; exact Ht|].
  unfold load_vec. cbn [seq map]. rewrite float_to_int16_na_spec.
  cbn [in_range Z.leb Z.ltb Z.compare Z.add Z.of_nat andb].
  rewrite Hf, H16. reflexivity.
Qed.

Lemma int16_float_round_trip_witness :
  - 32768 <= -12345 <= 32767 /\
  let floats :=
    int16_to_float_na (buffer_of_list 0 [-12345]) 1 (fun _ => S754_nan) in
  f32_trunc (floats 0) = Some (-12345) /\
  load_vec (float_to_int16_na floats 1 (fun _ => 0)) 0 1 = [-12345].
Proof.
  split; [lia|].
  apply (int16_float_round_trip (-12345) (fun _ => S754_nan) (fun _ => 0)). lia.
Defined.

(** On a one-element array the AVX2 variants run their scalar loops only,
    whatever the alignment complements. *)
Lemma int16_to_float_avx2_single startIndex data res :
  0 <= startIndex ->
  AVX2.int16_to_float startIndex data 1 res 0 = f32_of_int (data 0).
Proof.
  intros Hs. unfold AVX2.int16_to_float. change (to_int 1) with 1. cbv zeta.
  rewrite (for_loop_store (fun j => f32_of_int (data j))).
  unfold for_loop at 1. rewrite trip_count_done by lia. cbn [iterate].
  rewrite (for_loop_store (fun j => f32_of_int (data j))).
  rewrite shiftl_shiftr_4.
  destruct (Z.eq_dec startIndex 0) as [->|Hne]; [reflexivity|range_cases].
Qed.

Lemma float_to_int16_avx2_single startIndex data res :
  0 <= startIndex ->
  AVX2.float_to_int16 startIndex data 1 res 0 = cast_f32_int16 (data 0).
Proof.
  intros Hs. unfold AVX2.float_to_int16. change (to_int 1) with 1. cbv zeta.
  rewrite (for_loop_store (fun j => cast_f32_int16 (data j))).
  unfold for_loop at 1. rewrite trip_count_done by lia. cbn [iterate].
  rewrite (for_loop_store (fun j => cast_f32_int16 (data j))).
  rewrite shiftl_shiftr_4.
  destruct (Z.eq_dec startIndex 0) as [->|Hne]; [reflexivity|range_cases].
Qed.

(** The same round trip through the AVX2 variants, for every alignment
    complement of the two input buffers. *)
Lemma int16_float_round_trip_avx2 (v startIndex1 startIndex2 : Z)
      (res1 : buffer binary32) (res2 : buffer Z) :
  - 32768 <= v <= 32767 -> 0 <= startIndex1 -> 0 <= startIndex2 ->
  load_vec
    (AVX2.float_to_int16 startIndex2
       (AVX2.int16_to_float startIndex1 (buffer_of_list 0 [v]) 1 res1) 1 res2)
    0 1 = [v].
Proof.
  intros Hv H1 H2. unfold load_vec. cbn [seq map Z.of_nat Z.add].
  rewrite float_to_int16_avx2_single, int16_to_float_avx2_single by assumption.
  destruct (int16_float_exact v Hv) as (_ & H16 & _).
  change (buffer_of_list 0 [v] 0) with v. rewrite H16. reflexivity.
Qed.

(** ** The reference half-precision decoder *)

(** The decoder on every subnormal word: the exponent field is rebiased by
    the number of leading zeros of the 10-bit mantissa, the mantissa is
    shifted past its leading one and kept to its field, and the float
    denoted is [m * 2^-24] with the sign of the word. *)
Lemma float16_decode_subnormal m s :
  1 <= m <= 1023 -> 0 <= s <= 1 ->
  let in_ := s * 0x8000 + m in
  let leadingZeros := 9 - Z.log2 m in
  let bits := float16_decode in_ in
  Z.shiftr bits 31 = s /\
  Z.land (Z.shiftr bits 23) 0xff = 127 - 15 - leadingZeros /\
  Z.land bits 0x7fffff = Z.shiftl (Z.land (Z.shiftl m (leadingZeros + 1)) 0x03ff) 13 /\
  0 <= Z.land bits 0x7fffff < 2 ^ 23 /\
  f32_of_bits bits = binary_normalize prec32 emax32 ((1 - 2 * s) * m) (-24) false.
Proof.
  intros Hm Hs.
  set (check := fun s m =>
    let in_ := s * 0x8000 + m in
    let leadingZeros := 9 - Z.log2 m in
    let bits := float16_decode in_ in
    (Z.shiftr bits 31 =? s)
    && (Z.land (Z.shiftr bits 23) 0xff =? 127 - 15 - leadingZeros)
    && (Z.land bits 0x7fffff =?
        Z.shiftl (Z.land (Z.shiftl m (leadingZeros + 1)) 0x03ff) 13)
    && (Z.land bits 0x7fffff <? 2 ^ 23)
    && binary32_eqb (f32_of_bits bits)
         (binary_normalize prec32 emax32 ((1 - 2 * s) * m) (-24) false)).
  assert (H : forall_range (Z.to_nat 1023) 1 (fun m => check 0 m && check 1 m) = true)
    by (vm_compute; reflexivity).
  pose proof (forall_range_spec _ _ _ H m ltac:(lia)) as Hc. cbv beta in Hc.
  assert (Hcs : check s m = true).
  { apply andb_true_iff in Hc. destruct Hc as [Hc0 Hc1].
    assert (Hs' : s = 0 \/ s = 1) by lia. destruct Hs' as [->| ->]; assumption. }
  clear Hc H. unfold check in Hcs. cbv zeta in Hcs.
  repeat (apply andb_true_iff in Hcs; destruct Hcs as [Hcs ?]).
  cbv zeta.
  repeat match goal with
         | H : (_ =? _) = true |- _ => apply Z.eqb_eq in H
         | H : (_ <? _) = true |- _ => apply Z.ltb_lt in H
         | H : binary32_eqb _ _ = true |- _ => apply binary32_eqb_eq in H
         end.
  repeat split; try assumption.
  apply Z.land_nonneg. right. lia.
Qed.

(** C4: [float16_to_float_na] maps [0x0000] to [+0.0], [0x8000] to [-0.0],
    [0x0001] to [2^-24], [0x3C00] to [1.0], [0x7BFF] to [65504.0], [0x7C00]
    to [+infinity], [0xFC00] to [-infinity] and [0x7E00] to a NaN; and on a
    subnormal word of mantissa [m] with [leadingZeros] leading zeros in its
    10 bits, the exponent field of the result is [127 - 15 - leadingZeros],
    its mantissa field is [m] shifted left by [leadingZeros + 1], masked to
    10 bits and placed in the top of the 23-bit field, and the float denoted
    is [m * 2^-24] with the sign of the word. *)
Theorem float16_to_float_na_decodes :
  let decode h := float16_to_float_na (buffer_of_list 0 [h]) 1 (fun _ => 0) 0 in
  (f32_of_bits (decode 0x0000) = S754_zero false /\
   f32_of_bits (decode 0x8000) = S754_zero true /\
   f32_of_bits (decode 0x0001) = binary_normalize prec32 emax32 1 (-24) false /\
   f32_of_bits (decode 0x3C00) = f32_of_int 1 /\
   f32_of_bits (decode 0x7BFF) = f32_of_int 65504 /\
   f32_of_bits (decode 0x7C00) = S754_infinity false /\
   f32_of_bits (decode 0xFC00) = S754_infinity true /\
   f32_of_bits (decode 0x7E00) = S754_nan) /\
  (forall m s,
     1 <= m <= 1023 -> 0 <= s <= 1 ->
     let leadingZeros := 9 - Z.log2 m in
     let bits := decode (s * 0x8000 + m) in
     Z.shiftr bits 31 = s /\
     Z.land (Z.shiftr bits 23) 0xff = 127 - 15 - leadingZeros /\
     Z.land bits 0x7fffff =
       Z.shiftl (Z.land (Z.shiftl m (leadingZeros + 1)) 0x03ff) 13 /\
     0 <= Z.land bits 0x7fffff < 2 ^ 23 /\
     f32_of_bits bits =
       binary_normalize prec32 emax32 ((1 - 2 * s) * m) (-24) false).
Proof.
  intros decode. split.
  - vm_compute. repeat split; reflexivity.
  - intros m s Hm Hs. cbv zeta. unfold decode.
    rewrite float16_to_float_na_spec.
    cbn [in_range Z.leb Z.ltb Z.compare andb].
    replace (buffer_of_list 0 [s * 0x8000 + m] 0) with (s * 0x8000 + m) by reflexivity.
    exact (float16_decode_subnormal m s Hm Hs).
Qed.

Lemma float16_to_float_na_decodes_witness :
  let decode h := float16_to_float_na (buffer_of_list 0 [h]) 1 (fun _ => 0) 0 in
  1 <= 3 <= 1023 /\ 0 <= 1 <= 1 /\
  let leadingZeros := 9 - Z.log2 3 in
  let bits := decode (1 * 0x8000 + 3) in
  Z.shiftr bits 31 = 1 /\
  Z.land (Z.shiftr bits 23) 0xff = 127 - 15 - leadingZeros /\
  Z.land bits 0x7fffff =
    Z.shiftl (Z.land (Z.shiftl 3 (leadingZeros + 1)) 0x03ff) 13 /\
  0 <= Z.land bits 0x7fffff < 2 ^ 23 /\
  f32_of_bits bits = binary_normalize prec32 emax32 ((1 - 2 * 1) * 3) (-24) false.
Proof.
  intros decode.
  assert (Hm : 1 <= 3 <= 1023) by lia.
  assert (Hs : 0 <= 1 <= 1) by lia.
  split; [exact Hm|]. split; [exact Hs|].
  exact (proj2 float16_to_float_na_decodes 3 1 Hm Hs).
Defined.

(** ** real_multiply_scalar *)

Section RealMultiplyScalar.
Context {F : Type}.
Variable fmul : F -> F -> F.
Variables (array : buffer F) (value : F).

Lemma real_multiply_scalar_na_spec length res j :
  real_multiply_scalar_na fmul array length value res j =
  if in_range 0 length j then scaled fmul array value j else res j.
Proof. unfold real_multiply_scalar_na. apply (for_loop_store (scaled fmul array value)). Qed.

Lemma real_multiply_scalar_body i res j :
  _mm256_store_ps res i
    (_mm256_mul_ps fmul (_mm256_load_ps array i)
       (_mm256_set_ps value value value value value value value value)) j =
  if in_range i (i + 8) j then scaled fmul array value j else res j.
Proof.
  unfold _mm256_store_ps.
  rewrite (store_vec_pointwise value (scaled fmul array value)); [reflexivity|].
  intros k Hk. simpl in Hk.
  do 8 (destruct k as [|k]; [reflexivity|]). lia.
Qed.

(** On the indices of the array the routine writes [array[j] * value],
    whatever the alignment complements of the two buffers. *)
Lemma real_multiply_scalar_spec startIndex resIndex length res j :
  0 <= length <= INT_MAX -> 0 <= startIndex -> 0 <= j < length ->
  AVX.real_multiply_scalar fmul startIndex resIndex array length value res j = scaled fmul array value j.
Proof.
  intros Hlen Hs Hj. unfold AVX.real_multiply_scalar.
  rewrite (to_int_small length Hlen).
  destruct (startIndex =? resIndex).
  - rewrite (for_loop_store (scaled fmul array value)).
    rewrite (for_loop_blocks (scaled fmul array value) 8) by (lia || apply real_multiply_scalar_body).
    rewrite (for_loop_store (scaled fmul array value)). rewrite land_lnot_7.
    destruct (Z.lt_ge_cases j startIndex) as [Hlt|Hge].
    + range_cases.
    + rewrite trip_count_exact by lia.
      replace (length - 7 - startIndex + 8 - 1) with (length - startIndex) by lia.
      range_cases.
  - rewrite (for_loop_store (scaled fmul array value)).
    rewrite (for_loop_blocks (scaled fmul array value) 8) by (lia || apply real_multiply_scalar_body).
    rewrite land_lnot_7. rewrite trip_count_exact by lia.
    replace (length - 7 - 0 + 8 - 1) with length by lia.
    assert ((length - startIndex) / 8 <= length / 8)
      by (apply Z.div_le_mono; lia).
    range_cases.
Qed.
End RealMultiplyScalar.

(** C8, amended: for every float array, every length that fits [int] and
    every alignment complement within the array, [real_multiply_scalar]
    writes the same values on the indices of the array, those of the
    reference [real_multiply_scalar_na]: they depend on the elements, the
    length and the scalar, not on the split into prefix, body and suffix.
    (A complement beyond the length is left out: the prefix loop is not
    bounded by the length and runs past the end of the array.) *)
Theorem real_multiply_scalar_alignment_independent
        (array : buffer binary32) (length : Z) (value : binary32)
        (res : buffer binary32) (startIndex1 resIndex1 startIndex2 resIndex2 : Z) :
  0 <= length <= INT_MAX ->
  0 <= startIndex1 <= length -> 0 <= startIndex2 <= length ->
  forall j, 0 <= j < length ->
    AVX.real_multiply_scalar f32_mul startIndex1 resIndex1 array length value res j =
    AVX.real_multiply_scalar f32_mul startIndex2 resIndex2 array length value res j /\
    AVX.real_multiply_scalar f32_mul startIndex1 resIndex1 array length value res j =
    real_multiply_scalar_na f32_mul array length value res j.
Proof.
  intros Hlen H1 H2 j Hj.
  rewrite !real_multiply_scalar_spec by (assumption || lia).
  rewrite real_multiply_scalar_na_spec. unfold in_range.
  destruct (Z.leb_spec 0 j), (Z.ltb_spec j length); try lia.
  split; reflexivity.
Qed.

Lemma real_multiply_scalar_alignment_independent_witness :
  let array := buffer_of_list S754_nan (map f32_of_int (iota 19)) in
  let value := f32_of_int 3 in
  let res := fun _ : Z => S754_nan in
  0 <= 19 <= INT_MAX /\ 0 <= 0 <= 19 /\ 0 <= 1 <= 19 /\ 0 <= 0 < 19 /\
  AVX.real_multiply_scalar f32_mul 0 0 array 19 value res 0 =
  AVX.real_multiply_scalar f32_mul 1 1 array 19 value res 0 /\
  AVX.real_multiply_scalar f32_mul 0 0 array 19 value res 0 =
  real_multiply_scalar_na f32_mul array 19 value res 0.
Proof.
  intros array value res.
  assert (Hlen : 0 <= 19 <= INT_MAX) by (unfold INT_MAX; simpl; lia).
  assert (H0 : 0 <= 0 <= 19) by lia.
  assert (H1 : 0 <= 1 <= 19) by lia.
  assert (Hj : 0 <= 0 < 19) by lia.
  split; [exact Hlen|]. split; [exact H0|]. split; [exact H1|].
  split; [exact Hj|].
  exact (real_multiply_scalar_alignment_independent
           array 19 value res 0 0 1 1 Hlen H0 H1 0 Hj).
Defined.

(** C8 as stated fails beyond the range of [int]: for a length of [2^32] the
    routine works with [(int)length = 0]; with an alignment complement of 1
    the prefix still writes element 0, with 0 nothing is written. *)
Lemma real_multiply_scalar_length_beyond_int :
  let array := fun _ : Z => f32_of_int 3 in
  let value := f32_of_int 2 in
  let res := fun _ : Z => f32_zero in
  0 <= 0 < 2 ^ 32 /\
  AVX.real_multiply_scalar f32_mul 0 0 array (2 ^ 32) value res 0 = f32_zero /\
  AVX.real_multiply_scalar f32_mul 1 1 array (2 ^ 32) value res 0 = f32_of_int 6 /\
  AVX.real_multiply_scalar f32_mul 0 0 array (2 ^ 32) value res 0 <>
  AVX.real_multiply_scalar f32_mul 1 1 array (2 ^ 32) value res 0.
Proof. vm_compute. repeat split; discriminate. Qed.

(** ** sum_elements *)

Section SumElements.
Context {F : Type}.
Variables (add : F -> F -> F) (zero : F).
Hypothesis add_assoc : forall a b c, add a (add b c) = add (add a b) c.
Hypothesis add_comm : forall a b, add a b = add b a.
Hypothesis add_zero_l : forall a, add zero a = a.
Variable input : buffer F.

Lemma add_zero_r a : add a zero = a.
Proof. rewrite add_comm. apply add_zero_l. Qed.

Lemma lsum_app l l' :
  lsum add zero (l ++ l') = add (lsum add zero l) (lsum add zero l').
Proof.
  induction l as [|x r IH]; simpl.
  - symmetry. apply add_zero_l.
  - rewrite IH. apply add_assoc.
Qed.

Lemma lsum_map2 l :
  forall l', length l' = length l ->
  lsum add zero (map2 add l l') = add (lsum add zero l) (lsum add zero l').
Proof.
  induction l as [|x r IH]; intros [|y r'] H; simpl in *; try discriminate.
  - symmetry. apply add_zero_l.
  - rewrite IH by congruence.
    rewrite <- !add_assoc. f_equal.
    rewrite !add_assoc. f_equal. apply add_comm.
Qed.

(** The scalar accumulation loop adds the elements it visits. *)
Lemma iterate_sum n :
  forall a s,
    iterate n a 1 (fun j res => add res (input j)) s =
    add s (lsum add zero (load_vec input a n)).
Proof.
  induction n as [|n IH]; intros a s.
  - simpl. symmetry. apply add_zero_r.
  - cbn [iterate]. rewrite IH, load_vec_cons. simpl. symmetry. apply add_assoc.
Qed.

(** The vector loop keeps eight partial sums whose total is the sum of the
    elements visited. *)
Lemma iterate_accum n :
  forall j accum,
    length accum = 8%nat ->
    let accum' :=
      iterate n j 16
        (fun j accum =>
           _mm256_add_ps add (_mm256_add_ps add accum (_mm256_load_ps input j))
                         (_mm256_load_ps input (j + 8))) accum in
    length accum' = 8%nat /\
    lsum add zero accum' =
    add (lsum add zero accum) (lsum add zero (load_vec input j (16 * n))).
Proof.
  induction n as [|n IH]; intros j accum Hlen.
  - simpl. split; [assumption|]. symmetry. apply add_zero_r.
  - cbn [iterate]. cbv zeta.
    assert (Hlen' : length (_mm256_add_ps add
                              (_mm256_add_ps add accum (_mm256_load_ps input j))
                              (_mm256_load_ps input (j + 8))) = 8%nat).
    { unfold _mm256_add_ps, _mm256_load_ps.
      assert (Hin : length (map2 add accum (load_vec input j 8)) = 8%nat)
        by (rewrite length_map2; rewrite ?length_load_vec; congruence).
      rewrite length_map2; rewrite ?length_load_vec; congruence. }
    destruct (IH (j + 16) _ Hlen') as [Hl Hs]. split; [exact Hl|].
    cbv zeta in Hs. rewrite Hs.
    unfold _mm256_add_ps, _mm256_load_ps in *.
    assert (Hin : length (map2 add accum (load_vec input j 8)) = 8%nat)
      by (rewrite length_map2; rewrite ?length_load_vec; congruence).
    rewrite lsum_map2 by (rewrite length_load_vec; congruence).
    rewrite lsum_map2 by (rewrite length_load_vec; congruence).
    replace (16 * Datatypes.S n)%nat with (8 + (8 + 16 * n))%nat by lia.
    rewrite !load_vec_app, !lsum_app, <- !add_assoc.
    replace (j + Z.of_nat 8 + Z.of_nat 8) with (j + 16) by lia.
    reflexivity.
Qed.

(** The two horizontal additions and the final addition total the lanes. *)
Lemma hadd_total accum :
  length accum = 8%nat ->
  let accum1 := _mm256_hadd_ps add accum accum in
  let accum2 := _mm256_hadd_ps add accum1 accum1 in
  add (_mm256_get_ps zero accum2 0) (_mm256_get_ps zero accum2 4) =
  lsum add zero accum.
Proof.
  intros Hlen.
  do 8 (destruct accum as [|? accum]; [discriminate|]).
  destruct accum; [|discriminate].
  simpl. rewrite add_zero_r, <- !add_assoc. reflexivity.
Qed.

Lemma sum_elements_na_spec length :
  sum_elements_na add zero input length =
  lsum add zero (load_vec input 0 (Z.to_nat (to_int length))).
Proof.
  unfold sum_elements_na, for_loop. rewrite iterate_sum, add_zero_l.
  unfold trip_count. do 2 f_equal. rewrite Z.div_1_r. lia.
Qed.

(** Within the range of [int], the vector routine totals the same
    elements as the reference. *)
Lemma sum_elements_refines length :
  0 <= length <= INT_MAX ->
  AVX.sum_elements add zero input length = sum_elements_na add zero input length.
Proof.
  intros Hlen. rewrite sum_elements_na_spec.
  unfold AVX.sum_elements. rewrite (to_int_small length Hlen).
  cbv zeta. unfold for_loop. rewrite iterate_sum.
  destruct (iterate_accum (trip_count 0 (length - 15) 16) 0
              (_mm256_setzero_ps zero) eq_refl) as [Hl Hs].
  cbv zeta in Hl, Hs.
  rewrite (hadd_total _ Hl). rewrite Hs.
  replace (lsum add zero (_mm256_setzero_ps zero)) with zero
    by (simpl; rewrite !add_zero_l; reflexivity).
  rewrite add_zero_l, <- lsum_app.
  rewrite land_lnot_15.
  assert (Hn : Z.of_nat (trip_count 0 (length - 15) 16) = length / 16).
  { rewrite trip_count_exact by lia. f_equal. lia. }
  assert (Hk : Z.of_nat (trip_count (16 * (length / 16)) length 1)
               = length - 16 * (length / 16)).
  { pose proof (Z.mul_div_le length 16 ltac:(lia)).
    rewrite trip_count_exact by lia. rewrite Z.div_1_r. lia. }
  replace (16 * (length / 16))
    with (0 + Z.of_nat (16 * trip_count 0 (length - 15) 16)) at 1 by lia.
  rewrite <- load_vec_app. f_equal. f_equal. lia.
Qed.
End SumElements.

(** C7, amended: [sum_elements] returns [0.0] on a length-0 array and exactly
    [1000.0] on 1000 elements equal to [1.0] (whatever surrounds them); and
    for every length that fits [int], divisible by the vector width or not,
    it adds each element once: whenever the addition is associative and
    commutative with the initial value as unit, its result is that of the
    reference [sum_elements_na]. *)
Theorem sum_elements_totals_every_element :
  (forall input : buffer binary32,
     AVX.sum_elements f32_add f32_zero input 0 = f32_zero) /\
  AVX.sum_elements f32_add f32_zero
    (buffer_of_list S754_nan (repeat (f32_of_int 1) 1000)) 1000 = f32_of_int 1000 /\
  (forall (F : Type) (add : F -> F -> F) (zero : F),
     (forall a b c, add a (add b c) = add (add a b) c) ->
     (forall a b, add a b = add b a) ->
     (forall a, add zero a = a) ->
     forall (input : buffer F) (length : Z),
       0 <= length <= INT_MAX ->
       AVX.sum_elements add zero input length = sum_elements_na add zero input length).
Proof.
  split; [intros input; vm_compute; reflexivity|].
  split; [vm_compute; reflexivity|].
  intros F add zero Ha Hc Hz input length Hlen.
  apply sum_elements_refines; assumption.
Qed.

Lemma sum_elements_totals_every_element_witness :
  0 <= 37 <= INT_MAX /\
  AVX.sum_elements Z.add 0 (buffer_of_list 0 (iota 37)) 37 =
  sum_elements_na Z.add 0 (buffer_of_list 0 (iota 37)) 37.
Proof.
  assert (H : 0 <= 37 <= INT_MAX) by (unfold INT_MAX; simpl; lia).
  split; [exact H|].
  apply (proj2 (proj2 sum_elements_totals_every_element) Z Z.add 0).
  - intros a b c. lia.
  - intros a b. lia.
  - intros a. lia.
  - exact H.
Defined.

(** C7 as stated fails beyond the range of [int]: for a length of
    [2^32 - 1] the routine works with [(int)length = -1], and totals the 15
    elements before the array while the reference totals none. *)
Lemma sum_elements_length_beyond_int :
  AVX.sum_elements Z.add 0 (fun _ => 1) (2 ^ 32 - 1) = 15 /\
  sum_elements_na Z.add 0 (fun _ => 1) (2 ^ 32 - 1) = 0 /\
  AVX.sum_elements Z.add 0 (fun _ => 1) (2 ^ 32 - 1) <>
  sum_elements_na Z.add 0 (fun _ => 1) (2 ^ 32 - 1).
Proof. vm_compute. repeat split; discriminate. Qed.

(** ** add_to_all *)

(** X17: the AVX [add_to_all] stores its second vector of eight right after
    the first: it agrees with the reference on the whole array. *)
Lemma add_to_all_avx_refines input length value output j :
  0 <= length <= INT_MAX -> 0 <= j < length ->
  AVX.add_to_all f32_add input length value output j =
  add_to_all_na f32_add input length value output j.
Proof.
  intros Hlen Hj. rewrite add_to_all_na_spec.
  unfold AVX.add_to_all. rewrite (to_int_small length Hlen). cbv zeta.
  rewrite (for_loop_store (fun j => f32_add (input j) value)).
  rewrite (for_loop_blocks (fun j => f32_add (input j) value) 16).
  - rewrite land_lnot_15, trip_count_exact by lia.
    replace (length - 15 - 0 + 16 - 1) with length by lia.
    range_cases.
  - lia.
  - intros i res k. unfold _mm256_store_ps.
    rewrite (store_vec_pointwise value (fun j => f32_add (input j) value)).
    + rewrite (store_vec_pointwise value (fun j => f32_add (input j) value)).
      * cbn [Datatypes.length map2 load_vec map seq _mm256_add_ps _mm256_load_ps _mm256_set1_ps repeat]. range_cases.
      * intros n Hn. simpl in Hn.
        do 8 (destruct n as [|n]; [simpl; rewrite f32_add_comm; reflexivity|]). lia.
    + intros n Hn. simpl in Hn.
      do 8 (destruct n as [|n];
            [simpl; rewrite f32_add_comm; f_equal; f_equal; lia|]). lia.
Qed.

(** C5 (the code departs from the claim): the NEON [add_to_all] stores its
    second vector eight elements after the first instead of four.  On eight
    elements it leaves indices 4..7 of the output as they were and writes
    their sums at indices 8..11, past the end; the reference writes
    [input[j] + value] at every index. *)
Theorem add_to_all_neon_second_store :
  let input := buffer_of_list S754_nan (map f32_of_int (iota 8)) in
  let value := f32_of_int 100 in
  let output := fun _ : Z => S754_nan in
  load_vec (NEON.add_to_all f32_add input 8 value output) 0 12 =
    map f32_of_int [100; 101; 102; 103] ++ repeat S754_nan 4 ++
    map f32_of_int [104; 105; 106; 107] /\
  load_vec (add_to_all_na f32_add input 8 value output) 0 12 =
    map f32_of_int [100; 101; 102; 103; 104; 105; 106; 107] ++ repeat S754_nan 4.
Proof. vm_compute. split; reflexivity. Qed.

(** ** int16_to_int32 *)

(** The NEON variant widens with sign ([vmovl_s16]) in order, and its scalar
    tail goes through a float that is the element itself: it agrees with the
    reference on the whole array. *)
Lemma int16_to_int32_neon_refines data length res j :
  (forall i, - 32768 <= data i <= 32767) ->
  0 <= length <= INT_MAX -> 0 <= j < length ->
  NEON.int16_to_int32 data length res j = int16_to_int32_na data length res j.
Proof.
  intros Hdata Hlen Hj. rewrite int16_to_int32_na_spec.
  assert (Hext : forall i, to_int32 (data i) = data i).
  { intros i. apply to_signed_small; [lia|]. pose proof (Hdata i). simpl. lia. }
  unfold NEON.int16_to_int32. rewrite (to_int_small length Hlen). cbv zeta.
  rewrite (for_loop_store (fun j => cast_f32_int32 (f32_of_int (data j)))).
  rewrite (for_loop_blocks (fun j => to_int32 (data j)) 4).
  - rewrite land_lnot_3, trip_count_exact by lia.
    replace (length - 3 - 0 + 4 - 1) with length by lia.
    destruct (int16_float_exact (data j) (Hdata j)) as (_ & _ & H32).
    rewrite H32, Hext. range_cases.
  - lia.
  - intros i r k. unfold NEON.vst1q_s32.
    rewrite (store_vec_pointwise 0 (fun j => to_int32 (data j))); [reflexivity|].
    intros n Hn. simpl in Hn.
    do 4 (destruct n as [|n]; [reflexivity|]). lia.
Qed.

(** C10 (the code departs from the claim): the vector body of the AVX2
    [int16_to_int32] interleaves the words with zeros, which extends them
    without their sign, and does so within each 128-bit half, which permutes
    them: on the aligned array [0, -1, ..., -15] element 1 becomes [65535]
    and index 4 receives element 8.  The reference stores the sign-extended
    element at every index. *)
Theorem int16_to_int32_avx2_body :
  let data := buffer_of_list 0 (map Z.opp (iota 16)) in
  let res := fun _ : Z => 0 in
  load_vec (AVX2.int16_to_int32 0 data 16 res) 0 16 =
    [0; 65535; 65534; 65533; 65528; 65527; 65526; 65525;
     65532; 65531; 65530; 65529; 65524; 65523; 65522; 65521] /\
  load_vec (int16_to_int32_na data 16 res) 0 16 = map Z.opp (iota 16).
Proof. vm_compute. split; reflexivity. Qed.

(** ** int32_to_int16 *)

(** C1 (the code departs from the claim): on the aligned array
    [0, 1, ..., 15] the AVX2 [int32_to_int16] loads the elements 0..7 and
    4..11 of the window; it stores elements 4..7 a second time at indices
    8..11 and elements 8..11 at indices 12..15, and never reads elements
    12..15.  The reference stores [(int16_t)data[i]] at every index. *)
Theorem int32_to_int16_avx2_window :
  let data := buffer_of_list 0 (iota 16) in
  let res := fun _ : Z => -1 in
  load_vec (AVX2.int32_to_int16 0 data 16 res) 0 16 =
    [0; 1; 2; 3; 4; 5; 6; 7; 4; 5; 6; 7; 8; 9; 10; 11] /\
  load_vec (int32_to_int16_na data 16 res) 0 16 = iota 16.
Proof. vm_compute. split; reflexivity. Qed.

(** ** float_to_int32 *)

Lemma float_to_int32_avx2_body data i res j :
  X86._mm256_store_si256 32 res i (X86._mm256_cvttps_epi32 (_mm256_load_ps data i)) j =
  if in_range i (i + 8) j then cast_f32_int32 (data j) else res j.
Proof.
  unfold X86._mm256_store_si256, X86._mm256_cvttps_epi32, _mm256_load_ps.
  change (Z.to_nat (256 / 32)) with (length (map cvtt_int32 (load_vec data i 8))).
  rewrite lanes_pack by lia. rewrite !map_map.
  rewrite (store_vec_pointwise 0 (fun j => cast_f32_int32 (data j))); [reflexivity|].
  intros k Hk. simpl in Hk.
  do 8 (destruct k as [|k];
        [cbn [nth map load_vec seq]; rewrite to_signed_land;
         apply to_signed_small; [lia | exact (cvtt_int32_range _)]|]).
  lia.
Qed.

(** From the alignment boundary on, the vector body and the suffix give the
    truncation to 32 bits of the reference. *)
Lemma float_to_int32_avx2_beyond_prefix startIndex data length res j :
  0 <= length <= INT_MAX -> 0 <= startIndex <= j -> j < length ->
  AVX2.float_to_int32 startIndex data length res j = float_to_int32_na data length res j.
Proof.
  intros Hlen Hs Hj. rewrite float_to_int32_na_spec.
  unfold AVX2.float_to_int32. rewrite (to_int_small length Hlen). cbv zeta.
  rewrite (for_loop_store (fun j => cast_f32_int32 (data j))).
  rewrite (for_loop_blocks (fun j => cast_f32_int32 (data j)) 8)
    by (lia || apply float_to_int32_avx2_body).
  rewrite land_lnot_7, trip_count_exact by lia.
  replace (length - 7 - startIndex + 8 - 1) with (length - startIndex) by lia.
  range_cases.
Qed.

(** Before the boundary the element goes through [int16_t]. *)
Lemma float_to_int32_avx2_in_prefix startIndex data length res j :
  0 <= length <= INT_MAX -> 0 <= j < startIndex -> startIndex <= length ->
  AVX2.float_to_int32 startIndex data length res j = to_int32 (cast_f32_int16 (data j)).
Proof.
  intros Hlen Hj Hs.
  unfold AVX2.float_to_int32. rewrite (to_int_small length Hlen). cbv zeta.
  rewrite (for_loop_store (fun j => cast_f32_int32 (data j))).
  rewrite (for_loop_blocks (fun j => cast_f32_int32 (data j)) 8)
    by (lia || apply float_to_int32_avx2_body).
  rewrite (for_loop_store (fun j => to_int32 (cast_f32_int16 (data j)))).
  rewrite land_lnot_7.
  assert (0 <= (length - startIndex) / 8) by (apply Z.div_pos; lia).
  range_cases.
Qed.

(** C2 (the code departs from the claim): with one element before the
    alignment boundary, the AVX2 [float_to_int32] converts the element of the
    prefix through [int16_t]: of nine elements [40000.0] the first becomes
    [-25536], the other eight [40000].  The reference gives [40000], the
    integral part, at every index. *)
Theorem float_to_int32_avx2_prefix :
  let data := buffer_of_list f32_zero (repeat (f32_of_int 40000) 9) in
  let res := fun _ : Z => 0 in
  f32_trunc (f32_of_int 40000) = Some 40000 /\
  load_vec (AVX2.float_to_int32 1 data 9 res) 0 9 =
    [-25536; 40000; 40000; 40000; 40000; 40000; 40000; 40000; 40000] /\
  load_vec (float_to_int32_na data 9 res) 0 9 = repeat 40000 9.
Proof. vm_compute. repeat split; reflexivity. Qed.

(** ** The vector half-precision decoders *)

Lemma float16_scalar_batch data r i k :
  ptr_add (float16_to_float_na (ptr_add data i) 8 (ptr_add r i)) (- i) k =
  if in_range i (i + 8) k then float16_decode (data k) else r k.
Proof.
  unfold ptr_add at 1. rewrite float16_to_float_na_spec. unfold ptr_add.
  replace (k + - i + i) with k by lia. range_cases.
Qed.

Lemma sse_main_lane_decodes w :
  0 <= w < 65536 ->
  (mask16 (Z.land w 0x7c00) =? mask16 0) = false ->
  sse_main_lane w = float16_decode w.
Proof.
  intros Hw Hb.
  assert (H : forall_range (Z.to_nat 65536) 0
                (fun w => (mask16 (Z.land w 0x7c00) =? mask16 0)
                          || (sse_main_lane w =? float16_decode w)) = true)
    by (vm_compute; reflexivity).
  pose proof (forall_range_spec _ _ _ H w ltac:(lia)) as Hc. cbv beta in Hc.
  rewrite Hb in Hc. apply Z.eqb_eq. exact Hc.
Qed.

Lemma sse_zero_lane_decodes w :
  0 <= w < 65536 ->
  (mask16 (Z.land w 0x7c00) =? mask16 0) = true ->
  (mask16 (Z.land w 0x03ff) =? mask16 0) = true ->
  sse_zero_lane w = float16_decode w.
Proof.
  intros Hw Hb Hc.
  assert (H : forall_range (Z.to_nat 65536) 0
                (fun w => negb ((mask16 (Z.land w 0x7c00) =? mask16 0)
                                && (mask16 (Z.land w 0x03ff) =? mask16 0))
                          || (sse_zero_lane w =? float16_decode w)) = true)
    by (vm_compute; reflexivity).
  pose proof (forall_range_spec _ _ _ H w ltac:(lia)) as Hd. cbv beta in Hd.
  rewrite Hb, Hc in Hd. apply Z.eqb_eq. exact Hd.
Qed.

Lemma sse_float16_body data (Hdata : forall k, 0 <= data k < 65536) i r k :
  let expMask := _mm_set1_epi16 0x7c00 in
  let zerosVec := _mm_set1_epi16 0 in
  let addVecDef := _mm_set1_epi32 0x38000000 in
  let addVecInfNan := _mm_set1_epi32 0x7f800000 in
  (let intVec := _mm_load_si128 16 data i in
         let expVec := _mm_and_si128 intVec expMask in
         let cmpVec := _mm_cmpeq_epi16 expVec zerosVec in
         let zero_check := _mm_movemask_epi8 cmpVec in
         if negb (zero_check =? 0) then
           if zero_check =? 0xffff then
             let expVec := _mm_and_si128 intVec (_mm_set1_epi16 0x03ff) in
             let cmpVec := _mm_cmpeq_epi16 expVec zerosVec in
             let zero_check := _mm_movemask_epi8 cmpVec in
             if zero_check =? 0xffff then
               let signVec := _mm_and_si128 intVec (_mm_set1_epi16 0x8000) in
               let signlo := _mm_unpacklo_epi16 zerosVec signVec in
               let signhi := _mm_unpackhi_epi16 zerosVec signVec in
               let res := _mm_store_si128_bits r i signlo in
               _mm_store_si128_bits res (i + 4) signhi
             else
               ptr_add (float16_to_float_na (ptr_add data i) 8 (ptr_add r i)) (- i)
           else
               ptr_add (float16_to_float_na (ptr_add data i) 8 (ptr_add r i)) (- i)
         else
           let cmpVec := _mm_cmpeq_epi16 expVec expMask in
           let andVec :=
             _mm_blendv_epi8 (_mm_set1_epi16 0x7fff) (_mm_set1_epi16 0x03ff) cmpVec in
           let tmpVec := _mm_and_si128 intVec andVec in
           let intlo := _mm_unpacklo_epi16 tmpVec zerosVec in
           let inthi := _mm_unpackhi_epi16 tmpVec zerosVec in
           let intlo := _mm_slli_epi32 intlo 13 in
           let inthi := _mm_slli_epi32 inthi 13 in
           let cmplo := _mm_unpacklo_epi16 zerosVec cmpVec in
           let cmphi := _mm_unpackhi_epi16 zerosVec cmpVec in
           let addlo := _mm_blendv_epi8 addVecDef addVecInfNan cmplo in
           let addhi := _mm_blendv_epi8 addVecDef addVecInfNan cmphi in
           let intlo := _mm_add_epi32 intlo addlo in
           let inthi := _mm_add_epi32 inthi addhi in
           let signVec := _mm_and_si128 intVec (_mm_set1_epi16 0x8000) in
           let signlo := _mm_unpacklo_epi16 zerosVec signVec in
           let signhi := _mm_unpackhi_epi16 zerosVec signVec in
           let intlo := _mm_or_si128 intlo signlo in
           let inthi := _mm_or_si128 inthi signhi in
           let res := _mm_store_si128_bits r i intlo in
           _mm_store_si128_bits res (i + 4) inthi) k =
  if in_range i (i + 8) k then float16_decode (data k) else r k.
Proof.
  cbv zeta.
  unfold _mm_load_si128. change (Z.to_nat (128 / 16)) with 8%nat.
  rewrite load_vec_8. unfold _mm_set1_epi16, _mm_and_si128, _mm_or_si128. cbn [repeat].
  rewrite !land_pack by lia. cbn [map2].
  rewrite !cmpeq_pack. cbn [map2].
  match goal with
  | |- context [_mm_movemask_epi8 (pack 16 (map flag [?b0; ?b1; ?b2; ?b3; ?b4; ?b5; ?b6; ?b7])) =? 0] =>
      destruct (movemask_flags b0 b1 b2 b3 b4 b5 b6 b7) as [Hz Ha]
  end.
  rewrite Hz, Ha. clear Hz Ha.
  match goal with
  | |- context [_mm_movemask_epi8 (pack 16 (map flag [?b0; ?b1; ?b2; ?b3; ?b4; ?b5; ?b6; ?b7])) =? 65535] =>
      destruct (movemask_flags b0 b1 b2 b3 b4 b5 b6 b7) as [_ Ha]
  end.
  rewrite Ha. clear Ha.
  change [32767; 32767; 32767; 32767; 32767; 32767; 32767; 32767] with (repeat 0x7fff 8).
  change [1023; 1023; 1023; 1023; 1023; 1023; 1023; 1023] with (repeat 0x03ff 8).
  rewrite blendv_and_mask. cbn [map].
  rewrite !land_pack by lia. cbn [map2].
  rewrite !unpacklo_pack, !unpackhi_pack.
  rewrite !blendv_add.
  rewrite !slli_pack. cbn [map].
  rewrite !add_pack. cbn [map2].
  rewrite !or_pack. cbn [map2].
  rewrite !store_bits_pack. cbn [map].
  match goal with
  | |- context [negb (negb ?b)] => destruct b eqn:Hany
  end; cbn [negb].
  - match goal with
    | |- (if ?b then _ else _) _ = _ => destruct b eqn:Hall
    end; [|apply float16_scalar_batch].
    match goal with
    | |- (if ?b then _ else _) _ = _ => destruct b eqn:Hzero
    end; [|apply float16_scalar_batch].
    repeat (apply andb_true_iff in Hall; destruct Hall as [Hall ?]).
    repeat (apply andb_true_iff in Hzero; destruct Hzero as [Hzero ?]).
    apply (store_vec_8 r i (fun j => float16_decode (data j)));
      apply sse_zero_lane_decodes; auto.
  - repeat (apply orb_false_iff in Hany; destruct Hany as [Hany ?]).
    apply (store_vec_8 r i (fun j => float16_decode (data j)));
      apply sse_main_lane_decodes; auto.
Qed.

(** X26: the SSE decoder [float16_to_float] agrees with the reference
    [float16_to_float_na] at every index of the array, for every alignment
    complement, on its three vector paths and its scalar ones. *)
Lemma float16_to_float_sse_refines startIndex data length res j :
  (forall k, 0 <= data k < 65536) ->
  0 <= length <= INT_MAX -> 0 <= startIndex -> 0 <= j < length ->
  SSE.float16_to_float startIndex data length res j = float16_to_float_na data length res j.
Proof.
  intros Hdata Hlen Hs Hj.
  rewrite float16_to_float_na_spec.
  unfold SSE.float16_to_float. rewrite (to_int_small length Hlen). cbv zeta.
  rewrite (for_loop_blocks (fun j => float16_decode (data j)) 8);
    [|lia|intros i r k; apply (sse_float16_body data Hdata)].
  unfold ptr_add at 1. rewrite float16_to_float_na_spec.
  unfold ptr_add. rewrite float16_to_float_na_spec.
  rewrite land_lnot_7.
  replace (j + - (startIndex + 8 * ((length - startIndex) / 8)) +
           (startIndex + 8 * ((length - startIndex) / 8))) with j by lia.
  pose proof (Z.mul_div_le (length - startIndex) 8 ltac:(lia)).
  pose proof (Z.mod_pos_bound (length - startIndex) 8 ltac:(lia)).
  pose proof (Z.div_mod (length - startIndex) 8 ltac:(lia)).
  destruct (Z.lt_ge_cases j startIndex).
  - range_cases.
  - rewrite trip_count_exact by lia.
    replace (length - 7 - startIndex + 8 - 1) with (length - startIndex) by lia.
    range_cases.
Qed.









(** C3 (the code departs from the claim): on a batch of eight subnormal
    words the NEON [float16_to_float] builds the upper four results from the
    lower four lanes: for [1, 1, 1, 1, 2, 2, 2, 2] it writes the encoding of
    [2^-24] at indices 4..7, where the reference and the SSE variant write
    that of [2^-23]. *)
Theorem float16_to_float_neon_subnormal_batch :
  let data := buffer_of_list 0 [1; 1; 1; 1; 2; 2; 2; 2] in
  let res := fun _ : Z => 0 in
  load_vec (float16_to_float_na data 8 res) 0 8 =
    [0x33800000; 0x33800000; 0x33800000; 0x33800000;
     0x34000000; 0x34000000; 0x34000000; 0x34000000] /\
  load_vec (SSE.float16_to_float 0 data 8 res) 0 8 =
    load_vec (float16_to_float_na data 8 res) 0 8 /\
  load_vec (NEON.float16_to_float data 8 res) 0 8 =
    [0x33800000; 0x33800000; 0x33800000; 0x33800000;
     0x33800000; 0x33800000; 0x33800000; 0x33800000].
Proof. vm_compute. repeat split; reflexivity. Qed.

(** * More of the kernels

    The statements below cover the routines of [simd/arithmetic.h] that the
    ones above leave out.  As above, an alignment complement is a parameter
    (addresses are not modelled), and a lane of a float register is computed
    by the operation of the scalar code, IEEE binary32 with rounding to
    nearest even: the flush to zero of the ARMv7 NEON unit is not modelled. *)

(** ** The sample arrays *)

Lemma in_range_iff lo hi j : in_range lo hi j = true <-> lo <= j < hi.
Proof.
  unfold in_range. rewrite andb_true_iff, Z.leb_le, Z.ltb_lt. reflexivity.
Qed.

Lemma buffer_of_list_all {T} (P : T -> bool) d l :
  P d = true -> forallb P l = true -> forall k, P (buffer_of_list d l k) = true.
Proof.
  intros Hd Hl k. unfold buffer_of_list. destruct (k <? 0); [assumption|].
  destruct (nth_in_or_default (Z.to_nat k) l d) as [Hin | ->]; [|assumption].
  rewrite forallb_forall in Hl. apply Hl. assumption.
Qed.

Lemma buffer_of_list_in_range lo hi d l :
  in_range lo hi d = true -> forallb (in_range lo hi) l = true ->
  forall k, lo <= buffer_of_list d l k < hi.
Proof.
  intros Hd Hl k. apply in_range_iff. apply buffer_of_list_all; assumption.
Qed.

Lemma sample_int16_range k : - 32768 <= sample_int16 k <= 32767.
Proof.
  assert (H : - 32768 <= sample_int16 k < 32768)
    by (apply buffer_of_list_in_range; reflexivity).
  lia.
Qed.

Lemma sample_int32_range k : - 2 ^ 31 <= sample_int32 k < 2 ^ 31.
Proof. apply buffer_of_list_in_range; reflexivity. Qed.

Lemma sample_half_range k : 0 <= sample_half k < 65536.
Proof. apply buffer_of_list_in_range; reflexivity. Qed.

Lemma sample_float_valid k : valid_binary prec32 emax32 (sample_float k) = true.
Proof. apply (buffer_of_list_all (valid_binary prec32 emax32)); reflexivity. Qed.

Lemma int_max_19 : 19 <= INT_MAX.
Proof. unfold INT_MAX. simpl. lia. Qed.

Lemma int_max_37 : 37 <= INT_MAX.
Proof. unfold INT_MAX. simpl. lia. Qed.

(** A routine in three phases: a scalar prefix up to [startIndex], a vector
    body in blocks of [w], a scalar suffix. *)
Lemma three_phases_on {T} (p g f : Z -> T) w startIndex length bound s
      (body : Z -> buffer T -> buffer T) res j :
  0 < w -> 0 <= startIndex <= length ->
  bound = length - w + 1 ->
  s = startIndex + w * ((length - startIndex) / w) ->
  (forall m, 0 <= m -> forall r k,
     body (startIndex + w * m) r k =
     if in_range (startIndex + w * m) (startIndex + w * m + w) k then g k else r k) ->
  for_loop s length 1 (fun i r => store r i (f i))
    (for_loop startIndex bound w body
       (for_loop 0 startIndex 1 (fun i r => store r i (p i)) res)) j =
  if in_range 0 startIndex j then p j
  else if in_range startIndex s j then g j
  else if in_range s length j then f j else res j.
Proof.
  intros Hw Hs Hb Hsuf Hbody. subst bound.
  rewrite (for_loop_store f). unfold for_loop at 1.
  rewrite (iterate_blocks_on (fun i => exists m, 0 <= m /\ i = startIndex + w * m) g w body Hw).
  - rewrite (for_loop_store p).
    rewrite trip_count_exact by lia.
    replace (length - w + 1 - startIndex + w - 1) with (length - startIndex) by lia.
    pose proof (Z.mul_div_le (length - startIndex) w Hw) as Hlo.
    rewrite <- Hsuf.
    assert (Hm : 0 <= w * ((length - startIndex) / w))
      by (apply Z.mul_nonneg_nonneg; [|apply Z.div_pos]; lia).
    set (m := w * ((length - startIndex) / w)) in *. clearbody m. subst s.
    range_cases.
  - intros i (m & Hm & ->). apply Hbody. assumption.
  - intros m Hm. exists m. split; [lia|reflexivity].
Qed.

Lemma three_phases {T} (p g f : Z -> T) w startIndex length bound s
      (body : Z -> buffer T -> buffer T) res j :
  0 < w -> 0 <= startIndex <= length ->
  bound = length - w + 1 ->
  s = startIndex + w * ((length - startIndex) / w) ->
  (forall i r k, body i r k = if in_range i (i + w) k then g k else r k) ->
  for_loop s length 1 (fun i r => store r i (f i))
    (for_loop startIndex bound w body
       (for_loop 0 startIndex 1 (fun i r => store r i (p i)) res)) j =
  if in_range 0 startIndex j then p j
  else if in_range startIndex s j then g j
  else if in_range s length j then f j else res j.
Proof.
  intros Hw Hs Hb Hsuf Hbody.
  apply three_phases_on; try assumption.
  intros m _. apply Hbody.
Qed.

Lemma block_end_bounds w start length :
  0 < w -> start <= length ->
  start <= start + w * ((length - start) / w) <= length.
Proof.
  intros Hw Hs.
  pose proof (Z.mul_div_le (length - start) w Hw).
  assert (0 <= w * ((length - start) / w))
    by (apply Z.mul_nonneg_nonneg; [|apply Z.div_pos]; lia).
  lia.
Qed.

Lemma lanes_pack_n w n l :
  0 <= w -> n = length l ->
  lanes w n (pack w l) = map (fun x => Z.land x (Z.ones w)) l.
Proof. intros Hw ->. apply lanes_pack. assumption. Qed.

Lemma lanes_pack_signed w l n :
  0 < w -> n = length l ->
  map (to_signed w) (lanes w n (pack w l)) = map (to_signed w) l.
Proof.
  intros Hw ->. rewrite lanes_pack by lia. rewrite map_map.
  apply map_ext. intros x. apply to_signed_land.
Qed.

Lemma store_vec_map {T U} (d : U) (g : U -> T) (src : buffer U) (f : Z -> T) n m i :
  (forall k, (k < n)%nat -> g (src (i + Z.of_nat k)) = f (i + Z.of_nat k)) ->
  forall j, store_vec m i (map g (load_vec src i n)) j =
            if in_range i (i + Z.of_nat n) j then f j else m j.
Proof.
  intros H j.
  rewrite (store_vec_pointwise (g d) f).
  - rewrite length_map, length_load_vec. reflexivity.
  - intros k Hk. rewrite length_map, length_load_vec in Hk.
    unfold load_vec. rewrite map_map.
    rewrite (nth_indep _ (g d) ((fun x => g (src (i + Z.of_nat x))) O))
      by (rewrite length_map, length_seq; assumption).
    rewrite (map_nth (fun x => g (src (i + Z.of_nat x)))).
    rewrite seq_nth by assumption. apply H. assumption.
Qed.

Lemma int32_to_float_na_spec data length res j :
  int32_to_float_na data length res j =
  if in_range 0 length j then f32_of_int (data j) else res j.
Proof. apply (for_loop_store (fun j => f32_of_int (data j))). Qed.

(** X1: [int32_to_float] of the AVX2, SSE and NEON builds is the reference
    [int32_to_float_na] at every index, inside the array and outside: the
    same elements are written, and no other. *)
Theorem int32_to_float_simd_refines startIndex data length res j :
  (forall k, - 2 ^ 31 <= data k < 2 ^ 31) ->
  0 <= startIndex <= length -> length <= INT_MAX ->
  AVX2.int32_to_float startIndex data length res j = int32_to_float_na data length res j /\
  SSE.int32_to_float startIndex data length res j = int32_to_float_na data length res j /\
  NEON.int32_to_float data length res j = int32_to_float_na data length res j.
Proof.
  intros Hdata Hs Hlen. rewrite int32_to_float_na_spec.
  assert (Hint : to_int length = length) by (apply to_int_small; lia).
  assert (Hext : forall k, to_signed 32 (data k) = data k).
  { intros k. apply to_signed_small; [lia|]. exact (Hdata k). }
  split; [|split].
  - unfold AVX2.int32_to_float. rewrite Hint. cbv zeta. rewrite land_lnot_7.
    pose proof (block_end_bounds 8 startIndex length ltac:(lia) ltac:(lia)).
    rewrite (three_phases (fun j => f32_of_int (data j)) (fun j => f32_of_int (data j))
               (fun j => f32_of_int (data j)) 8 startIndex length); try lia.
    + range_cases.
    + intros i r k. unfold _mm256_store_ps, _mm256_cvtepi32_ps, _mm256_load_si256.
      rewrite <- map_map with (f := to_signed 32) (g := f32_of_int).
      rewrite lanes_pack_signed by (try lia; reflexivity).
      rewrite map_map.
      apply (store_vec_map 0 (fun x => f32_of_int (to_signed 32 x)) data
               (fun j => f32_of_int (data j)) 8).
      intros n _. rewrite Hext. reflexivity.
  - unfold SSE.int32_to_float. rewrite Hint. cbv zeta. rewrite land_lnot_3.
    pose proof (block_end_bounds 4 startIndex length ltac:(lia) ltac:(lia)).
    rewrite (three_phases (fun j => f32_of_int (data j)) (fun j => f32_of_int (data j))
               (fun j => f32_of_int (data j)) 4 startIndex length); try lia.
    + range_cases.
    + intros i r k. unfold _mm_store_ps, _mm_cvtepi32_ps, _mm_load_si128.
      rewrite <- map_map with (f := to_signed 32) (g := f32_of_int).
      rewrite lanes_pack_signed by (try lia; reflexivity).
      rewrite map_map.
      apply (store_vec_map 0 (fun x => f32_of_int (to_signed 32 x)) data
               (fun j => f32_of_int (data j)) 4).
      intros n _. rewrite Hext. reflexivity.
  - unfold NEON.int32_to_float. rewrite Hint. cbv zeta.
    pose proof (three_phases (fun j => f32_of_int (data j)) (fun j => f32_of_int (data j))
               (fun j => f32_of_int (data j)) 4 0 length (length - 3)
               (Z.land length (Z.lnot 3))
               (fun i res => vst1q_f32 res i (vcvtq_f32_s32 (vld1q_s32 data i))) res j) as H.
    unfold for_loop at 3 in H. rewrite trip_count_done in H by lia. cbn [iterate] in H.
    pose proof (block_end_bounds 4 0 length ltac:(lia) ltac:(lia)) as Hb.
    rewrite Z.sub_0_r in Hb.
    rewrite H; try lia.
    + rewrite land_lnot_3. range_cases.
    + rewrite land_lnot_3, Z.sub_0_r. reflexivity.
    + intros i r k. unfold vst1q_f32, vcvtq_f32_s32, vld1q_s32.
      apply (store_vec_map 0 f32_of_int data (fun j => f32_of_int (data j)) 4).
      intros n _. reflexivity.
Qed.

Lemma int32_to_float_simd_refines_witness :
  AVX2.int32_to_float 3 sample_int32 19 (fun _ => f32_zero) 7 =
    int32_to_float_na sample_int32 19 (fun _ => f32_zero) 7 /\
  SSE.int32_to_float 3 sample_int32 19 (fun _ => f32_zero) 7 =
    int32_to_float_na sample_int32 19 (fun _ => f32_zero) 7 /\
  NEON.int32_to_float sample_int32 19 (fun _ => f32_zero) 7 =
    int32_to_float_na sample_int32 19 (fun _ => f32_zero) 7.
Proof.
  apply (int32_to_float_simd_refines 3 sample_int32 19 (fun _ => f32_zero) 7).
  - exact sample_int32_range.
  - lia.
  - unfold INT_MAX. simpl. lia.
Defined.

(** ** Narrowing with saturation *)

Lemma saturate_int16_range x : - 32768 <= saturate_int16 x <= 32767.
Proof.
  unfold saturate_int16. cbv zeta.
  destruct (Z.ltb_spec (to_signed 32 x) (- 32768)); [lia|].
  destruct (Z.ltb_spec 32767 (to_signed 32 x)); lia.
Qed.

Lemma saturate_int16_land x : saturate_int16 (Z.land x (Z.ones 32)) = saturate_int16 x.
Proof. unfold saturate_int16. rewrite to_signed_land. reflexivity. Qed.

Lemma to_int16_saturate x : to_signed 16 (saturate_int16 x) = saturate_int16 x.
Proof. apply to_signed_small; [lia|]. pose proof (saturate_int16_range x). simpl. lia. Qed.



Lemma int32_to_int16_na_spec data length res j :
  int32_to_int16_na data length res j =
  if in_range 0 length j then to_int16 (data j) else res j.
Proof. apply (for_loop_store (fun j => to_int16 (data j))). Qed.







(** ** The sign fill of the SSE widening *)

Lemma to_unsigned_mod w z : 0 <= w -> to_unsigned w z = z mod 2 ^ w.
Proof. intros Hw. unfold to_unsigned. apply Z.land_ones. assumption. Qed.

Lemma pair16_add lo hi : pair16 lo hi = lo mod 65536 + hi * 65536.
Proof.
  unfold pair16.
  pose proof (Z.add_lor_land (Z.land lo (Z.ones 16)) (Z.shiftl hi 16)) as H.
  assert (H0 : Z.land (Z.land lo (Z.ones 16)) (Z.shiftl hi 16) = 0).
  { apply Z.bits_inj'. intros n Hn.
    rewrite !Z.land_spec, Z.bits_0, Z.testbit_ones_nonneg by lia.
    destruct (Z.ltb_spec n 16).
    - rewrite Z.shiftl_spec_low by lia. apply andb_false_r.
    - rewrite andb_false_r. reflexivity. }
  rewrite H0, Z.add_0_r in H. rewrite H.
  rewrite Z.land_ones, Z.shiftl_mul_pow2 by lia. reflexivity.
Qed.

(** Two 16-bit lanes read as one signed 32-bit lane. *)
Lemma pair16_signed lo hi :
  to_signed 32 (pair16 lo hi) = to_signed 16 hi * 65536 + lo mod 65536.
Proof.
  rewrite pair16_add. unfold to_signed. rewrite !to_unsigned_mod by lia.
  change (2 ^ 32) with 4294967296. change (2 ^ (32 - 1)) with 2147483648.
  change (2 ^ 16) with 65536. change (2 ^ (16 - 1)) with 32768.
  pose proof (Z.mod_pos_bound lo 65536 ltac:(lia)) as Hlo.
  pose proof (Z.mod_pos_bound hi 65536 ltac:(lia)) as Hhi.
  pose proof (Z.div_mod hi 65536 ltac:(lia)) as Hd.
  assert (Hm : (lo mod 65536 + hi * 65536) mod 4294967296 =
               lo mod 65536 + (hi mod 65536) * 65536).
  { symmetry. apply (Z.mod_unique _ _ (hi / 65536)); lia. }
  rewrite Hm. cbv zeta.
  destruct (Z.ltb_spec (lo mod 65536 + hi mod 65536 * 65536) 2147483648),
    (Z.ltb_spec (hi mod 65536) 32768); lia.
Qed.

Lemma store_vec_app {T} (l l' : list T) : forall m i,
  store_vec (store_vec m i l) (i + Z.of_nat (length l)) l' = store_vec m i (l ++ l').
Proof.
  induction l as [|x l IH]; intros m i.
  - simpl. rewrite Z.add_0_r. reflexivity.
  - cbn [store_vec app length]. rewrite <- IH. f_equal. lia.
Qed.

Lemma store_vec_then {T} (l l' : list T) m i i' :
  i' = i + Z.of_nat (length l) ->
  store_vec (store_vec m i l) i' l' = store_vec m i (l ++ l').
Proof. intros ->. apply store_vec_app. Qed.

Lemma sra_sign_fill x0 x1 x2 x3 :
  _mm_sra_epi32 (pack 32 [x0; x1; x2; x3]) (_mm_set1_epi32 16) =
  pack 32 (map (fun x => if to_signed 32 x <? 0 then - 1 else 0) [x0; x1; x2; x3]).
Proof.
  unfold _mm_sra_epi32.
  assert (Hc : Z.land (_mm_set1_epi32 16) (Z.ones 64) = 68719476752)
    by (vm_compute; reflexivity).
  rewrite Hc. cbv zeta.
  rewrite (lanes_pack_n 32 4 [x0; x1; x2; x3]) by (try lia; reflexivity).
  rewrite map_map. apply (f_equal (pack 32)). apply map_ext. intros x.
  rewrite to_signed_land.
  destruct (31 <? 68719476752) eqn:E; [reflexivity|discriminate E].
Qed.

Lemma sign_lane d :
  - 32768 <= d <= 32767 ->
  (to_signed 32 (pair16 (mask16 0) (mask16 d)) <? 0) = (d <? 0).
Proof.
  intros Hd. rewrite pair16_signed. unfold mask16.
  rewrite to_signed_land, (to_signed_small 16 d) by (try lia; simpl; lia).
  change (Z.land 0 (Z.ones 16) mod 65536) with 0.
  destruct (Z.ltb_spec (d * 65536 + 0) 0), (Z.ltb_spec d 0); try reflexivity; lia.
Qed.

Lemma to_signed_sign (b : bool) :
  to_signed 32 (Z.land (if b then - 1 else 0) (Z.ones 32)) = if b then - 1 else 0.
Proof. destruct b; reflexivity. Qed.

Lemma int16_widening_sse_body data (Hdata : forall k, - 32768 <= data k <= 32767) i :
  let intVec := _mm_load_si128 16 data i in
  let intlo := _mm_sra_epi32 (_mm_unpacklo_epi16 (_mm_set1_epi16 0) intVec)
                             (_mm_set1_epi32 16) in
  let inthi := _mm_sra_epi32 (_mm_unpackhi_epi16 (_mm_set1_epi16 0) intVec)
                             (_mm_set1_epi32 16) in
  map (to_signed 32) (lanes 32 4 intlo) ++ map (to_signed 32) (lanes 32 4 inthi) =
  map (fun d => if d <? 0 then - 1 else 0) (load_vec data i 8).
Proof.
  cbv zeta. unfold _mm_load_si128. change (Z.to_nat (128 / 16)) with 8%nat.
  rewrite load_vec_8. unfold _mm_set1_epi16. cbn [repeat].
  rewrite unpacklo_pack, unpackhi_pack, !sra_sign_fill.
  rewrite !(lanes_pack_n 32 4) by (try lia; reflexivity).
  cbn [map app]. rewrite !to_signed_sign, !sign_lane by apply Hdata. reflexivity.
Qed.

(** X4: on the SSE build, the vector bodies of [int16_to_int32] and
    [int16_to_float] shift by a count register that holds [16] in each of
    its 32-bit lanes: the count read is above 31, and every element of the
    body becomes its sign, 0 or -1.  The scalar loops are the reference. *)
Theorem int16_widening_sse_sign_fill startIndex data length res resf j :
  (forall k, - 32768 <= data k <= 32767) ->
  0 <= startIndex <= length -> length <= INT_MAX ->
  let body := in_range startIndex (startIndex + 8 * ((length - startIndex) / 8)) j in
  let sign := if data j <? 0 then - 1 else 0 in
  SSE.int16_to_int32 startIndex data length res j =
    (if body then sign else int16_to_int32_na data length res j) /\
  SSE.int16_to_float startIndex data length resf j =
    (if body then f32_of_int sign else int16_to_float_na data length resf j).
Proof.
  intros Hdata Hs Hlen. cbv zeta.
  rewrite int16_to_int32_na_spec, int16_to_float_na_spec.
  assert (Hint : to_int length = length) by (apply to_int_small; lia).
  pose proof (block_end_bounds 8 startIndex length ltac:(lia) ltac:(lia)) as Hb8.
  split.
  - unfold SSE.int16_to_int32. rewrite Hint. cbv zeta. rewrite land_lnot_7.
    rewrite (three_phases (fun j => cast_f32_int32 (f32_of_int (data j)))
               (fun j => if data j <? 0 then - 1 else 0)
               (fun j => to_int32 (data j)) 8 startIndex length); try lia.
    + destruct (int16_float_exact (data j) (Hdata j)) as (_ & _ & H32).
      rewrite H32. unfold to_int32.
      rewrite (to_signed_small 32 (data j)) by (try lia; pose proof (Hdata j); simpl; lia).
      range_cases.
    + intros i r k. unfold _mm_store_si128.
      change (Z.to_nat (128 / 32)) with 4%nat.
      rewrite (store_vec_then _ _ _ i (i + 4))
        by (rewrite length_map; unfold lanes; rewrite length_map, length_seq; reflexivity).
      rewrite (int16_widening_sse_body data Hdata i).
      apply (store_vec_map 0 (fun d => if d <? 0 then - 1 else 0) data
               (fun j => if data j <? 0 then - 1 else 0) 8).
      reflexivity.
  - unfold SSE.int16_to_float. rewrite Hint. cbv zeta. rewrite land_lnot_7.
    rewrite (three_phases (fun j => f32_of_int (data j))
               (fun j => f32_of_int (if data j <? 0 then - 1 else 0))
               (fun j => f32_of_int (data j)) 8 startIndex length); try lia.
    + range_cases.
    + intros i r k. unfold _mm_store_ps, _mm_cvtepi32_ps.
      rewrite <- !(map_map (to_signed 32) f32_of_int).
      rewrite (store_vec_then _ _ _ i (i + 4))
        by (rewrite !length_map; unfold lanes; rewrite length_map, length_seq; reflexivity).
      rewrite <- map_app.
      rewrite (int16_widening_sse_body data Hdata i), map_map.
      apply (store_vec_map 0 (fun d => f32_of_int (if d <? 0 then - 1 else 0)) data
               (fun j => f32_of_int (if data j <? 0 then - 1 else 0)) 8).
      reflexivity.
Qed.

Lemma int16_widening_sse_sign_fill_witness :
  SSE.int16_to_int32 3 sample_int16 19 (fun _ => 0) 7 =
    (if in_range 3 (3 + 8 * ((19 - 3) / 8)) 7
     then (if sample_int16 7 <? 0 then - 1 else 0)
     else int16_to_int32_na sample_int16 19 (fun _ => 0) 7) /\
  SSE.int16_to_float 3 sample_int16 19 (fun _ => f32_zero) 7 =
    (if in_range 3 (3 + 8 * ((19 - 3) / 8)) 7
     then f32_of_int (if sample_int16 7 <? 0 then - 1 else 0)
     else int16_to_float_na sample_int16 19 (fun _ => f32_zero) 7).
Proof.
  apply (int16_widening_sse_sign_fill 3 sample_int16 19 (fun _ => 0) (fun _ => f32_zero) 7).
  - exact sample_int16_range.
  - lia.
  - exact int_max_19.
Defined.

(** ** int16_multiply *)

Lemma pack16_interleave l : forall l',
  pack 16 (interleave l l') = pack 32 (map2 pair16 l l').
Proof.
  induction l as [|a l IH]; intros [|b l']; try reflexivity.
  cbn [interleave map2]. rewrite pack16_pair, IH. reflexivity.
Qed.

(** The high and the low half of the product of two [int16_t], put side by
    side, are the product. *)
Lemma product_halves x y :
  - 32768 <= x <= 32767 -> - 32768 <= y <= 32767 ->
  to_signed 32 (pair16 (mask16 (x * y)) (mask16 (Z.shiftr (x * y) 16))) = x * y.
Proof.
  intros Hx Hy. rewrite pair16_signed. unfold mask16.
  rewrite to_signed_land, Z.land_ones by lia.
  rewrite Z.mod_mod by lia. rewrite Z.shiftr_div_pow2 by lia.
  change (2 ^ 16) with 65536.
  assert (Hp : - 2 ^ 30 <= x * y <= 2 ^ 30) by nia.
  rewrite to_signed_small.
  - pose proof (Z.div_mod (x * y) 65536 ltac:(lia)). lia.
  - lia.
  - change (2 ^ (16 - 1)) with 32768.
    split.
    + apply Z.div_le_lower_bound; lia.
    + apply Z.div_lt_upper_bound; lia.
Qed.

Lemma lanes_masked16 d : - 32768 <= d <= 32767 -> to_signed 16 (Z.land d (Z.ones 16)) = d.
Proof. intros H. rewrite to_signed_land. apply to_signed_small; [lia|simpl; lia]. Qed.

(** X11: [int16_multiply] of the SSE and NEON builds writes the exact
    products of the eight, respectively four, pairs, and nothing else. *)
Theorem int16_multiply_exact a b res j :
  (forall k, - 32768 <= a k <= 32767) -> (forall k, - 32768 <= b k <= 32767) ->
  SSE.int16_multiply a b res j = (if in_range 0 8 j then a j * b j else res j) /\
  NEON.int16_multiply a b res j = (if in_range 0 4 j then a j * b j else res j).
Proof.
  intros Ha Hb. split.
  - unfold SSE.int16_multiply. cbv zeta.
    unfold _mm_store_si128, _mm_mulhi_epi16, _mm_mullo_epi16, _mm_load_si128.
    change (Z.to_nat (128 / 16)) with 8%nat. change (Z.to_nat (128 / 32)) with 4%nat.
    rewrite !(lanes_pack_n 16 8 (load_vec _ 0 8)) by (try lia; reflexivity).
    rewrite !load_vec_8. cbn [map map2 Z.add].
    rewrite !lanes_masked16 by (apply Ha || apply Hb).
    rewrite unpacklo_pack, unpackhi_pack.
    rewrite !(lanes_pack_n 32 4) by (try lia; reflexivity).
    cbn [map]. rewrite !to_signed_land, !product_halves by (apply Ha || apply Hb).
    rewrite (store_vec_then _ _ _ 0 4) by reflexivity. cbn [app].
    rewrite (store_vec_pointwise 0 (fun j => a j * b j)); [reflexivity|].
    intros n Hn. cbn [length] in Hn.
    do 8 (destruct n as [|n]; [reflexivity|]). lia.
  - unfold NEON.int16_multiply, vst1q_s32, vmull_s16, vld1_s16. cbv zeta.
    unfold load_vec. cbn [seq map map2 Z.of_nat Pos.of_succ_nat Pos.succ Z.add].
    unfold to_int16. rewrite !(to_signed_small 16)
      by (try lia; simpl; first [pose proof (Ha 0); pose proof (Ha 1); pose proof (Ha 2); pose proof (Ha 3);
                                 pose proof (Hb 0); pose proof (Hb 1); pose proof (Hb 2); pose proof (Hb 3); lia]).
    rewrite (store_vec_pointwise 0 (fun j => a j * b j)); [reflexivity|].
    intros n Hn. cbn [length] in Hn.
    do 4 (destruct n as [|n]; [reflexivity|]). lia.
Qed.

Lemma int16_multiply_exact_witness :
  SSE.int16_multiply sample_int16 (ptr_add sample_int16 3) (fun _ => 0) 3 =
    (if in_range 0 8 3 then sample_int16 3 * ptr_add sample_int16 3 3 else 0) /\
  NEON.int16_multiply sample_int16 (ptr_add sample_int16 3) (fun _ => 0) 3 =
    (if in_range 0 4 3 then sample_int16 3 * ptr_add sample_int16 3 3 else 0).
Proof.
  apply (int16_multiply_exact sample_int16 (ptr_add sample_int16 3) (fun _ => 0) 3).
  - exact sample_int16_range.
  - intros k. exact (sample_int16_range (k + 3)).
Defined.

Lemma load_vec_16 {T} (m : buffer T) i :
  load_vec m i 16 =
  [m i; m (i+1); m (i+2); m (i+3); m (i+4); m (i+5); m (i+6); m (i+7);
   m (i+8); m (i+9); m (i+10); m (i+11); m (i+12); m (i+13); m (i+14); m (i+15)].
Proof.
  unfold load_vec. cbn [seq map Z.of_nat Pos.of_succ_nat Pos.succ].
  rewrite Z.add_0_r. reflexivity.
Qed.

Lemma pack16_pack32_8 x0 x1 x2 x3 x4 x5 x6 x7 x8 x9 x10 x11 x12 x13 x14 x15 :
  pack 16 [x0; x1; x2; x3; x4; x5; x6; x7; x8; x9; x10; x11; x12; x13; x14; x15] =
  pack 32 [pair16 x0 x1; pair16 x2 x3; pair16 x4 x5; pair16 x6 x7;
           pair16 x8 x9; pair16 x10 x11; pair16 x12 x13; pair16 x14 x15].
Proof.
  exact (pack16_interleave [x0; x2; x4; x6; x8; x10; x12; x14]
                           [x1; x3; x5; x7; x9; x11; x13; x15]).
Qed.

Lemma unpacklo256_pack a0 a1 a2 a3 a4 a5 a6 a7 a8 a9 a10 a11 a12 a13 a14 a15
      b0 b1 b2 b3 b4 b5 b6 b7 b8 b9 b10 b11 b12 b13 b14 b15 :
  _mm256_unpacklo_epi16
    (pack 16 [a0; a1; a2; a3; a4; a5; a6; a7; a8; a9; a10; a11; a12; a13; a14; a15])
    (pack 16 [b0; b1; b2; b3; b4; b5; b6; b7; b8; b9; b10; b11; b12; b13; b14; b15]) =
  pack 32 [pair16 (mask16 a0) (mask16 b0); pair16 (mask16 a1) (mask16 b1);
           pair16 (mask16 a2) (mask16 b2); pair16 (mask16 a3) (mask16 b3);
           pair16 (mask16 a8) (mask16 b8); pair16 (mask16 a9) (mask16 b9);
           pair16 (mask16 a10) (mask16 b10); pair16 (mask16 a11) (mask16 b11)].
Proof.
  unfold _mm256_unpacklo_epi16.
  rewrite !(lanes_pack_n 16 16) by (try lia; reflexivity).
  cbv zeta. cbn [map firstn skipn interleave app].
  apply pack16_pack32_8.
Qed.

Lemma unpackhi256_pack a0 a1 a2 a3 a4 a5 a6 a7 a8 a9 a10 a11 a12 a13 a14 a15
      b0 b1 b2 b3 b4 b5 b6 b7 b8 b9 b10 b11 b12 b13 b14 b15 :
  _mm256_unpackhi_epi16
    (pack 16 [a0; a1; a2; a3; a4; a5; a6; a7; a8; a9; a10; a11; a12; a13; a14; a15])
    (pack 16 [b0; b1; b2; b3; b4; b5; b6; b7; b8; b9; b10; b11; b12; b13; b14; b15]) =
  pack 32 [pair16 (mask16 a4) (mask16 b4); pair16 (mask16 a5) (mask16 b5);
           pair16 (mask16 a6) (mask16 b6); pair16 (mask16 a7) (mask16 b7);
           pair16 (mask16 a12) (mask16 b12); pair16 (mask16 a13) (mask16 b13);
           pair16 (mask16 a14) (mask16 b14); pair16 (mask16 a15) (mask16 b15)].
Proof.
  unfold _mm256_unpackhi_epi16.
  rewrite !(lanes_pack_n 16 16) by (try lia; reflexivity).
  cbv zeta. cbn [map firstn skipn interleave app].
  apply pack16_pack32_8.
Qed.

(** X12: [int16_multiply] of the AVX2 build writes the sixteen exact
    products with the second and the third group of four exchanged. *)
Theorem int16_multiply_avx2_half_swap a b res j :
  (forall k, - 32768 <= a k <= 32767) -> (forall k, - 32768 <= b k <= 32767) ->
  AVX2.int16_multiply a b res j =
  if in_range 0 16 j then a (half_swap j) * b (half_swap j) else res j.
Proof.
  intros Ha Hb.
  unfold AVX2.int16_multiply. cbv zeta.
  unfold _mm256_store_si256, _mm256_mulhi_epi16, _mm256_mullo_epi16, _mm256_load_si256.
  change (Z.to_nat (256 / 16)) with 16%nat. change (Z.to_nat (256 / 32)) with 8%nat.
  rewrite !(lanes_pack_n 16 16 (load_vec _ 0 16)) by (try lia; reflexivity).
  rewrite !load_vec_16. cbn [map map2 Z.add].
  rewrite !lanes_masked16 by (apply Ha || apply Hb).
  rewrite unpacklo256_pack, unpackhi256_pack.
  rewrite !(lanes_pack_n 32 8) by (try lia; reflexivity).
  cbn [map]. rewrite !to_signed_land, !product_halves by (apply Ha || apply Hb).
  rewrite (store_vec_then _ _ _ 0 8) by reflexivity. cbn [app].
  rewrite (store_vec_pointwise 0 (fun j => a (half_swap j) * b (half_swap j))); [reflexivity|].
  intros n Hn. cbn [length] in Hn.
  do 16 (destruct n as [|n]; [reflexivity|]). lia.
Qed.

Lemma int16_multiply_avx2_half_swap_witness :
  AVX2.int16_multiply sample_int16 (ptr_add sample_int16 3) (fun _ => 0) 5 =
  if in_range 0 16 5
  then sample_int16 (half_swap 5) * ptr_add sample_int16 3 (half_swap 5) else 0.
Proof.
  apply (int16_multiply_avx2_half_swap sample_int16 (ptr_add sample_int16 3)
           (fun _ => 0) 5).
  - exact sample_int16_range.
  - intros k. exact (sample_int16_range (k + 3)).
Defined.

(** ** The blocks of the AVX2 conversions *)

Lemma block_index_at perm startIndex m j :
  startIndex + 16 * m <= j < startIndex + 16 * m + 16 ->
  block_index perm startIndex j =
  startIndex + 16 * m + perm (j - (startIndex + 16 * m)).
Proof.
  intros Hj. unfold block_index. cbv zeta.
  assert (H : (j - startIndex) mod 16 = j - (startIndex + 16 * m)).
  { replace (j - startIndex) with (j - (startIndex + 16 * m) + m * 16) by lia.
    rewrite Z.mod_add by lia. apply Z.mod_small. lia. }
  rewrite H. lia.
Qed.

Lemma nth_iota (T : Type) (F : Z -> T) n k d :
  (k < n)%nat -> nth k (map F (iota n)) d = F (Z.of_nat k).
Proof.
  intros Hk. unfold iota. rewrite map_map.
  rewrite (nth_indep _ d (F (Z.of_nat 0))) by (rewrite length_map, length_seq; assumption).
  rewrite (map_nth (fun x => F (Z.of_nat x))). rewrite seq_nth by assumption.
  reflexivity.
Qed.

(** A store of the sixteen elements [h (i + perm 0)], ..., [h (i + perm 15)]. *)
Lemma store_block {T} (h : Z -> T) (perm : Z -> Z) r i l :
  l = map (fun k => h (i + perm k)) (iota 16) ->
  forall j, store_vec r i l j =
            if in_range i (i + 16) j then h (i + perm (j - i)) else r j.
Proof.
  intros -> j.
  rewrite (store_vec_pointwise (h i) (fun j => h (i + perm (j - i)))).
  - rewrite length_map. unfold iota. rewrite length_map, length_seq. reflexivity.
  - intros k Hk. rewrite length_map in Hk. unfold iota in Hk.
    rewrite length_map, length_seq in Hk.
    rewrite (nth_iota _ (fun k => h (i + perm k))) by assumption.
    rewrite Z.add_simpl_l. reflexivity.
Qed.

(** The same, read at the indices of the array. *)
Lemma store_block_at {T} (h : Z -> T) (perm : Z -> Z) startIndex m r l :
  l = map (fun k => h (startIndex + 16 * m + perm k)) (iota 16) ->
  forall j, store_vec r (startIndex + 16 * m) l j =
            if in_range (startIndex + 16 * m) (startIndex + 16 * m + 16) j
            then h (block_index perm startIndex j) else r j.
Proof.
  intros Hl j. rewrite (store_block h perm r _ l Hl).
  unfold in_range.
  destruct (Z.leb_spec (startIndex + 16 * m) j), (Z.ltb_spec j (startIndex + 16 * m + 16));
    cbn [andb]; try reflexivity.
  rewrite (block_index_at perm startIndex m j) by lia. reflexivity.
Qed.

Ltac open_loads :=
  unfold load_vec; cbn [seq map Z.of_nat Pos.of_succ_nat Pos.succ].

Lemma float_to_int16_avx2_body data startIndex m r j :
  let i := startIndex + 16 * m in
  _mm256_store_si256 16 r i
    (_mm256_packs_epi32 (_mm256_cvttps_epi32 (_mm256_load_ps data i))
                        (_mm256_cvttps_epi32 (_mm256_load_ps data (i + 8)))) j =
  if in_range i (i + 16) j
  then saturate_int16 (cvtt_int32 (data (block_index half_swap startIndex j)))
  else r j.
Proof.
  cbv zeta. set (i := startIndex + 16 * m).
  unfold _mm256_store_si256, _mm256_packs_epi32, _mm256_cvttps_epi32, _mm256_load_ps.
  change (Z.to_nat (256 / 16)) with 16%nat. cbv zeta.
  rewrite !(lanes_pack_n 32 8)
    by (try lia; rewrite length_map, length_load_vec; reflexivity).
  open_loads. cbn [map firstn skipn app].
  rewrite lanes_pack_signed by (try lia; reflexivity).
  cbn [map]. rewrite !to_int16_saturate, !saturate_int16_land.
  rewrite <- !Z.add_assoc. subst i.
  apply (store_block_at (fun x => saturate_int16 (cvtt_int32 (data x))) half_swap).
  reflexivity.
Qed.

(** A 16-bit lane with a zero lane above it: the zero extension. *)
Lemma zero_ext_lane a :
  to_signed 32 (Z.land (pair16 (mask16 a) (mask16 0)) (Z.ones 32)) = to_uint16 a.
Proof.
  rewrite to_signed_land, pair16_signed. unfold mask16, to_uint16, to_unsigned.
  change (to_signed 16 (Z.land 0 (Z.ones 16))) with 0.
  rewrite !Z.land_ones by lia. rewrite Z.mod_mod by lia. reflexivity.
Qed.

Lemma int16_widening_avx2_lanes data i :
  let intVec := _mm256_load_si256 16 data i in
  map (to_signed 32) (lanes 32 8 (_mm256_unpacklo_epi16 intVec (_mm256_set1_epi16 0)))
  ++ map (to_signed 32) (lanes 32 8 (_mm256_unpackhi_epi16 intVec (_mm256_set1_epi16 0))) =
  map (fun k => to_uint16 (data (i + half_swap k))) (iota 16).
Proof.
  cbv zeta. unfold _mm256_load_si256, _mm256_set1_epi16.
  change (Z.to_nat (256 / 16)) with 16%nat.
  open_loads. cbn [repeat].
  rewrite unpacklo256_pack, unpackhi256_pack.
  rewrite !(lanes_pack_n 32 8) by (try lia; reflexivity).
  cbn [map app]. rewrite !zero_ext_lane. reflexivity.
Qed.

Lemma length_lanes w n v : length (lanes w n v) = n.
Proof. unfold lanes. rewrite length_map, length_seq. reflexivity. Qed.

Lemma int16_to_int32_avx2_block data startIndex m r j :
  let i := startIndex + 16 * m in
  let intVec := _mm256_load_si256 16 data i in
  let intlo := _mm256_unpacklo_epi16 intVec (_mm256_set1_epi16 0) in
  let inthi := _mm256_unpackhi_epi16 intVec (_mm256_set1_epi16 0) in
  _mm256_store_si256 32 (_mm256_store_si256 32 r i intlo) (i + 8) inthi j =
  if in_range i (i + 16) j
  then to_uint16 (data (block_index half_swap startIndex j)) else r j.
Proof.
  cbv zeta. unfold _mm256_store_si256.
  change (Z.to_nat (256 / 32)) with 8%nat.
  rewrite (store_vec_then _ _ _ (startIndex + 16 * m) (startIndex + 16 * m + 8))
    by (rewrite length_map, length_lanes; reflexivity).
  apply (store_block_at (fun x => to_uint16 (data x)) half_swap).
  apply int16_widening_avx2_lanes.
Qed.

Lemma int16_to_float_avx2_block data startIndex m r j :
  let i := startIndex + 16 * m in
  let intVec := _mm256_load_si256 16 data i in
  let intlo := _mm256_unpacklo_epi16 intVec (_mm256_set1_epi16 0) in
  let inthi := _mm256_unpackhi_epi16 intVec (_mm256_set1_epi16 0) in
  _mm256_store_ps (_mm256_store_ps r i (_mm256_cvtepi32_ps intlo)) (i + 8)
                  (_mm256_cvtepi32_ps inthi) j =
  if in_range i (i + 16) j
  then f32_of_int (to_uint16 (data (block_index half_swap startIndex j))) else r j.
Proof.
  cbv zeta. unfold _mm256_store_ps, _mm256_cvtepi32_ps.
  rewrite <- !(map_map (to_signed 32) f32_of_int).
  rewrite (store_vec_then _ _ _ (startIndex + 16 * m) (startIndex + 16 * m + 8))
    by (rewrite !length_map, length_lanes; reflexivity).
  rewrite <- map_app.
  apply (store_block_at (fun x => f32_of_int (to_uint16 (data x))) half_swap).
  rewrite (int16_widening_avx2_lanes data (startIndex + 16 * m)), map_map. reflexivity.
Qed.

Lemma int32_to_int16_avx2_block data startIndex m r j :
  let i := startIndex + 16 * m in
  _mm256_store_si256 16 r i
    (_mm256_packs_epi32 (_mm256_load_si256 32 data i)
                        (_mm256_load_si256 32 data (i + 4))) j =
  if in_range i (i + 16) j
  then saturate_int16 (data (block_index overlap startIndex j)) else r j.
Proof.
  cbv zeta. set (i := startIndex + 16 * m).
  unfold _mm256_store_si256, _mm256_packs_epi32, _mm256_load_si256.
  change (Z.to_nat (256 / 16)) with 16%nat. change (Z.to_nat (256 / 32)) with 8%nat.
  cbv zeta.
  rewrite !(lanes_pack_n 32 8) by (try lia; rewrite length_load_vec; reflexivity).
  open_loads. cbn [map firstn skipn app].
  rewrite lanes_pack_signed by (try lia; reflexivity).
  cbn [map]. rewrite !to_int16_saturate, !saturate_int16_land.
  rewrite <- !Z.add_assoc. subst i.
  apply (store_block_at (fun x => saturate_int16 (data x)) overlap).
  reflexivity.
Qed.

(** *** The AVX2 conversions on a whole array *)

Section Avx2Blocks.
Variables (startIndex length : Z).
Hypothesis Hs : 0 <= startIndex <= length.
Hypothesis Hlen : length <= INT_MAX.

Lemma to_int_length : to_int length = length.
Proof. apply to_int_small; lia. Qed.

Lemma int16_to_float_avx2_spec data res j :
  AVX2.int16_to_float startIndex data length res j =
  if in_range startIndex (startIndex + 16 * ((length - startIndex) / 16)) j
  then f32_of_int (to_uint16 (data (block_index half_swap startIndex j)))
  else int16_to_float_na data length res j.
Proof.
  rewrite int16_to_float_na_spec.
  pose proof (block_end_bounds 16 startIndex length ltac:(lia) ltac:(lia)) as Hb.
  unfold AVX2.int16_to_float. rewrite to_int_length. cbv zeta. rewrite shiftl_shiftr_4.
  rewrite (three_phases_on (fun j => f32_of_int (data j))
             (fun j => f32_of_int (to_uint16 (data (block_index half_swap startIndex j))))
             (fun j => f32_of_int (data j)) 16 startIndex length); try lia.
  - range_cases.
  - intros m _ r k. apply int16_to_float_avx2_block.
Qed.

Lemma float_to_int16_avx2_spec data res j :
  AVX2.float_to_int16 startIndex data length res j =
  if in_range startIndex (startIndex + 16 * ((length - startIndex) / 16)) j
  then saturate_int16 (cvtt_int32 (data (block_index half_swap startIndex j)))
  else float_to_int16_na data length res j.
Proof.
  rewrite float_to_int16_na_spec.
  pose proof (block_end_bounds 16 startIndex length ltac:(lia) ltac:(lia)) as Hb.
  unfold AVX2.float_to_int16. rewrite to_int_length. cbv zeta. rewrite shiftl_shiftr_4.
  rewrite (three_phases_on (fun j => cast_f32_int16 (data j))
             (fun j => saturate_int16 (cvtt_int32 (data (block_index half_swap startIndex j))))
             (fun j => cast_f32_int16 (data j)) 16 startIndex length); try lia.
  - range_cases.
  - intros m _ r k. apply float_to_int16_avx2_body.
Qed.

Lemma int16_to_int32_avx2_spec data res j :
  (forall k, - 32768 <= data k <= 32767) ->
  AVX2.int16_to_int32 startIndex data length res j =
  if in_range startIndex (startIndex + 16 * ((length - startIndex) / 16)) j
  then to_uint16 (data (block_index half_swap startIndex j))
  else int16_to_int32_na data length res j.
Proof.
  intros Hdata. rewrite int16_to_int32_na_spec.
  pose proof (block_end_bounds 16 startIndex length ltac:(lia) ltac:(lia)) as Hb.
  unfold AVX2.int16_to_int32. rewrite to_int_length. cbv zeta. rewrite shiftl_shiftr_4.
  rewrite (three_phases_on (fun j => cast_f32_int32 (f32_of_int (data j)))
             (fun j => to_uint16 (data (block_index half_swap startIndex j)))
             (fun j => to_int32 (data j)) 16 startIndex length); try lia.
  - destruct (int16_float_exact (data j) (Hdata j)) as (_ & _ & H32).
    rewrite H32. unfold to_int32.
    rewrite (to_signed_small 32 (data j)) by (try lia; pose proof (Hdata j); simpl; lia).
    range_cases.
  - intros m _ r k. apply int16_to_int32_avx2_block.
Qed.

Lemma int32_to_int16_avx2_spec data res j :
  AVX2.int32_to_int16 startIndex data length res j =
  if in_range startIndex (startIndex + 16 * ((length - startIndex) / 16)) j
  then saturate_int16 (data (block_index overlap startIndex j))
  else int32_to_int16_na data length res j.
Proof.
  rewrite int32_to_int16_na_spec.
  pose proof (block_end_bounds 16 startIndex length ltac:(lia) ltac:(lia)) as Hb.
  unfold AVX2.int32_to_int16. rewrite to_int_length. cbv zeta. rewrite shiftl_shiftr_4.
  rewrite (three_phases_on (fun j => to_int16 (data j))
             (fun j => saturate_int16 (data (block_index overlap startIndex j)))
             (fun j => to_int16 (data j)) 16 startIndex length); try lia.
  - range_cases.
  - intros m _ r k. apply int32_to_int16_avx2_block.
Qed.
End Avx2Blocks.





(** X5: the AVX2 [int16_to_float] and [float_to_int16]: in the vector body
    the second and the third group of four of each block of sixteen are
    exchanged; the first widens without the sign, the second narrows with
    saturation.  The scalar loops are the reference. *)
Theorem int16_float_avx2_blocks startIndex data fdata length res resf j :
  0 <= startIndex <= length -> length <= INT_MAX ->
  let body := in_range startIndex (startIndex + 16 * ((length - startIndex) / 16)) j in
  AVX2.int16_to_float startIndex data length resf j =
    (if body
     then f32_of_int (to_uint16 (data (block_index half_swap startIndex j)))
     else int16_to_float_na data length resf j) /\
  AVX2.float_to_int16 startIndex fdata length res j =
    (if body
     then saturate_int16 (cvtt_int32 (fdata (block_index half_swap startIndex j)))
     else float_to_int16_na fdata length res j).
Proof.
  intros Hs Hlen. cbv zeta. split.
  - apply int16_to_float_avx2_spec; assumption.
  - apply float_to_int16_avx2_spec; assumption.
Qed.

Lemma int16_float_avx2_blocks_witness :
  AVX2.int16_to_float 2 sample_int16 37 (fun _ => f32_zero) 8 =
    (if in_range 2 (2 + 16 * ((37 - 2) / 16)) 8
     then f32_of_int (to_uint16 (sample_int16 (block_index half_swap 2 8)))
     else int16_to_float_na sample_int16 37 (fun _ => f32_zero) 8) /\
  AVX2.float_to_int16 2 sample_float 37 (fun _ => 0) 8 =
    (if in_range 2 (2 + 16 * ((37 - 2) / 16)) 8
     then saturate_int16 (cvtt_int32 (sample_float (block_index half_swap 2 8)))
     else float_to_int16_na sample_float 37 (fun _ => 0) 8).
Proof.
  apply (int16_float_avx2_blocks 2 sample_int16 sample_float 37
           (fun _ => 0) (fun _ => f32_zero) 8).
  - lia.
  - exact int_max_37.
Defined.

(** X7: the AVX2 [int16_to_int32] on a whole array: the vector body writes
    the elements of each block of sixteen without their sign, the second and
    the third group of four exchanged.  The scalar loops are the reference. *)
Theorem int16_to_int32_avx2_zero_extends startIndex data length res j :
  (forall k, - 32768 <= data k <= 32767) ->
  0 <= startIndex <= length -> length <= INT_MAX ->
  AVX2.int16_to_int32 startIndex data length res j =
  if in_range startIndex (startIndex + 16 * ((length - startIndex) / 16)) j
  then to_uint16 (data (block_index half_swap startIndex j))
  else int16_to_int32_na data length res j.
Proof.
  intros Hdata Hs Hlen. apply int16_to_int32_avx2_spec; assumption.
Qed.

Lemma int16_to_int32_avx2_zero_extends_witness :
  AVX2.int16_to_int32 2 sample_int16 37 (fun _ => 0) 8 =
  if in_range 2 (2 + 16 * ((37 - 2) / 16)) 8
  then to_uint16 (sample_int16 (block_index half_swap 2 8))
  else int16_to_int32_na sample_int16 37 (fun _ => 0) 8.
Proof.
  apply (int16_to_int32_avx2_zero_extends 2 sample_int16 37 (fun _ => 0) 8).
  - exact sample_int16_range.
  - lia.
  - exact int_max_37.
Defined.

(** X30: the AVX2 [int32_to_int16] on a whole array: its second load starts
    four elements after the first, not eight, so that the vector body
    writes, saturated, the first twelve elements of each block of sixteen,
    the second group of four twice.  (Addresses are not modelled: the load
    reads the eight elements at its index whatever its alignment.) *)
Theorem int32_to_int16_avx2_overlap startIndex data length res j :
  0 <= startIndex <= length -> length <= INT_MAX ->
  AVX2.int32_to_int16 startIndex data length res j =
  if in_range startIndex (startIndex + 16 * ((length - startIndex) / 16)) j
  then saturate_int16 (data (block_index overlap startIndex j))
  else int32_to_int16_na data length res j.
Proof.
  intros Hs Hlen. apply int32_to_int16_avx2_spec; assumption.
Qed.

Lemma int32_to_int16_avx2_overlap_witness :
  AVX2.int32_to_int16 2 sample_int32 37 (fun _ => 0) 12 =
  if in_range 2 (2 + 16 * ((37 - 2) / 16)) 12
  then saturate_int16 (sample_int32 (block_index overlap 2 12))
  else int32_to_int16_na sample_int32 37 (fun _ => 0) 12.
Proof.
  apply (int32_to_int16_avx2_overlap 2 sample_int32 37 (fun _ => 0) 12).
  - lia.
  - exact int_max_37.
Defined.



(** ** real_multiply_array *)

Lemma trip_count_blocks bound w :
  0 < w ->
  w * Z.of_nat (trip_count 0 (bound - w + 1) w) = if bound <? 0 then 0 else w * (bound / w).
Proof.
  intros Hw. unfold trip_count.
  replace (bound - w + 1 - 0 + w - 1) with bound by lia.
  destruct (Z.ltb_spec bound 0).
  - assert (bound / w < 0) by (apply Z.div_lt_upper_bound; lia).
    destruct (bound / w); lia.
  - rewrite Z2Nat.id by (apply Z.div_pos; lia). reflexivity.
Qed.

Lemma real_multiply_array_na_spec {F} (fmul : F -> F -> F) a b length res j :
  real_multiply_array_na fmul a b length res j =
  if in_range 0 (to_int length) j then fmul (a j) (b j) else res j.
Proof. apply (for_loop_store (fun j => fmul (a j) (b j))). Qed.

Lemma map2_load_vec {T} (g : T -> T -> T) (a b : buffer T) i n :
  map2 g (load_vec a i n) (load_vec b i n) =
  map (fun k => g (a (i + Z.of_nat k)) (b (i + Z.of_nat k))) (seq 0 n).
Proof.
  unfold load_vec. generalize 0%nat. induction n as [|n IH]; intros s.
  - reflexivity.
  - cbn [seq map map2]. rewrite IH. reflexivity.
Qed.

Lemma store_vec_map2 {T} (g : T -> T -> T) (a b : buffer T) n m i j :
  store_vec m i (map2 g (load_vec a i n) (load_vec b i n)) j =
  if in_range i (i + Z.of_nat n) j then g (a j) (b j) else m j.
Proof.
  rewrite map2_load_vec.
  destruct n as [|n].
  - cbn [seq map store_vec]. range_cases.
  - rewrite (store_vec_pointwise (g (a i) (b i)) (fun j => g (a j) (b j))).
    + rewrite length_map, length_seq. reflexivity.
    + intros k Hk. rewrite length_map, length_seq in Hk.
      rewrite (nth_indep _ _ ((fun k => g (a (i + Z.of_nat k)) (b (i + Z.of_nat k))) O))
        by (rewrite length_map, length_seq; assumption).
      rewrite (map_nth (fun k => g (a (i + Z.of_nat k)) (b (i + Z.of_nat k)))).
      rewrite seq_nth by assumption. reflexivity.
Qed.

(** The bound [ilength - FLOAT_STEP + 1] of the vector loop, for a length
    that fits [int]. *)
Lemma real_multiply_array_bound length w :
  0 <= length <= INT_MAX -> 0 < w <= 8 ->
  to_int (to_int (length - w) + 1) = length - w + 1.
Proof.
  intros Hlen Hw. unfold INT_MAX in Hlen.
  assert (Hs : forall z, - 2 ^ 31 <= z < 2 ^ 31 -> to_int z = z)
    by (intros z Hz; apply to_signed_small; [lia|exact Hz]).
  rewrite (Hs (length - w)) by lia. apply Hs. lia.
Qed.

(** X13: [real_multiply_array] of the AVX and NEON builds is the reference
    for every length that fits [int]: the same elements are written, and no
    other. *)
Theorem real_multiply_array_refines {F} (fmul : F -> F -> F) a b length res j :
  0 <= length <= INT_MAX ->
  AVX.real_multiply_array fmul a b length res j =
    real_multiply_array_na fmul a b length res j /\
  NEON.real_multiply_array fmul a b length res j =
    real_multiply_array_na fmul a b length res j.
Proof.
  intros Hlen. rewrite real_multiply_array_na_spec.
  split.
  - unfold AVX.real_multiply_array. rewrite (to_int_small length Hlen). cbv zeta.
    rewrite (real_multiply_array_bound length 8 Hlen) by lia.
    rewrite (for_loop_store (fun j => fmul (a j) (b j))).
    rewrite (for_loop_blocks (fun j => fmul (a j) (b j)) 8); [|lia|].
    + unfold loop_end. rewrite (trip_count_blocks length 8) by lia.
      destruct (Z.ltb_spec length 0); [lia|].
      pose proof (block_end_bounds 8 0 length ltac:(lia) ltac:(lia)) as Hb.
      rewrite Z.sub_0_r in Hb. range_cases.
    + intros i r k. unfold _mm256_storeu_ps, _mm256_mul_ps, _mm256_loadu_ps.
      apply store_vec_map2.
  - unfold NEON.real_multiply_array. rewrite (to_int_small length Hlen). cbv zeta.
    rewrite (real_multiply_array_bound length 4 Hlen) by lia.
    rewrite (for_loop_store (fun j => fmul (a j) (b j))).
    rewrite (for_loop_blocks (fun j => fmul (a j) (b j)) 4); [|lia|].
    + unfold loop_end. rewrite (trip_count_blocks length 4) by lia.
      destruct (Z.ltb_spec length 0); [lia|].
      pose proof (block_end_bounds 4 0 length ltac:(lia) ltac:(lia)) as Hb.
      rewrite Z.sub_0_r in Hb. range_cases.
    + intros i r k. unfold ptr_add, NEON.real_multiply, vst1q_f32, vmulq_f32, vld1q_f32.
      cbv zeta.
      rewrite (store_vec_map2 fmul (fun x => a (x + i)) (fun x => b (x + i)) 4
                 (fun x => r (x + i)) 0 (k + - i)).
      replace (k + - i + i) with k by lia.
      unfold in_range.
      destruct (Z.leb_spec 0 (k + - i)), (Z.ltb_spec (k + - i) (0 + Z.of_nat 4)),
        (Z.leb_spec i k), (Z.ltb_spec k (i + 4)); cbn [andb]; try reflexivity; lia.
Qed.

Lemma real_multiply_array_refines_witness :
  AVX.real_multiply_array f32_mul sample_float (ptr_add sample_float 3) 19
    (fun _ => f32_zero) 9 =
    real_multiply_array_na f32_mul sample_float (ptr_add sample_float 3) 19
      (fun _ => f32_zero) 9 /\
  NEON.real_multiply_array f32_mul sample_float (ptr_add sample_float 3) 19
    (fun _ => f32_zero) 9 =
    real_multiply_array_na f32_mul sample_float (ptr_add sample_float 3) 19
      (fun _ => f32_zero) 9.
Proof.
  apply (real_multiply_array_refines f32_mul sample_float (ptr_add sample_float 3) 19
           (fun _ => f32_zero) 9).
  split; [lia | exact int_max_19].
Defined.

(** ** The NEON real_multiply_scalar and sum_elements *)

Lemma real_multiply_scalar_na_at {F} (fmul : F -> F -> F) array length value res j :
  real_multiply_scalar_na fmul array length value res j =
  if in_range 0 length j then fmul (array j) value else res j.
Proof. apply (for_loop_store (fun j => fmul (array j) value)). Qed.

(** X15: the NEON [real_multiply_scalar] is the reference: the same elements
    are written, and no other. *)
Theorem real_multiply_scalar_neon_refines {F} (fmul : F -> F -> F)
        array length value res j :
  0 <= length <= INT_MAX ->
  NEON.real_multiply_scalar fmul array length value res j =
  real_multiply_scalar_na fmul array length value res j.
Proof.
  intros Hlen. rewrite real_multiply_scalar_na_at.
  unfold NEON.real_multiply_scalar. rewrite (to_int_small length Hlen). cbv zeta.
  rewrite land_lnot_3.
  rewrite (for_loop_store (fun j => fmul (array j) value)).
  rewrite (for_loop_blocks (fun j => fmul (array j) value) 4); [|lia|].
  - rewrite trip_count_exact by lia.
    replace (length - 3 - 0 + 4 - 1) with length by lia.
    pose proof (block_end_bounds 4 0 length ltac:(lia) ltac:(lia)) as Hb.
    rewrite Z.sub_0_r in Hb. range_cases.
  - intros i r k. unfold vst1q_f32, vmulq_n_f32, vld1q_f32.
    apply (store_vec_map value (fun y => fmul y value) array
             (fun j => fmul (array j) value) 4).
    reflexivity.
Qed.

Lemma real_multiply_scalar_neon_refines_witness :
  NEON.real_multiply_scalar f32_mul sample_float 19 (f32_of_int 3) (fun _ => f32_zero) 17 =
  real_multiply_scalar_na f32_mul sample_float 19 (f32_of_int 3) (fun _ => f32_zero) 17.
Proof.
  apply (real_multiply_scalar_neon_refines f32_mul sample_float 19 (f32_of_int 3)
           (fun _ => f32_zero) 17).
  unfold INT_MAX. simpl. lia.
Defined.

Section SumElementsNeon.
Context {F : Type}.
Variables (add : F -> F -> F) (zero : F).
Hypothesis add_assoc : forall a b c, add a (add b c) = add (add a b) c.
Hypothesis add_comm : forall a b, add a b = add b a.
Hypothesis add_zero_l : forall a, add zero a = a.
Variable input : buffer F.

(** The vector loop keeps four partial sums whose total is the sum of the
    elements visited. *)
Lemma iterate_accum_neon n :
  forall j accum,
    length accum = 4%nat ->
    let accum' :=
      iterate n j 8
        (fun j accum =>
           vaddq_f32 add (vaddq_f32 add accum (vld1q_f32 input j))
                     (vld1q_f32 input (j + 4))) accum in
    length accum' = 4%nat /\
    lsum add zero accum' =
    add (lsum add zero accum) (lsum add zero (load_vec input j (8 * n))).
Proof.
  induction n as [|n IH]; intros j accum Hlen.
  - simpl. split; [assumption|]. symmetry. apply (add_zero_r add zero add_comm add_zero_l).
  - cbn [iterate]. cbv zeta.
    assert (Hin : length (map2 add accum (load_vec input j 4)) = 4%nat)
      by (rewrite length_map2; rewrite ?length_load_vec; congruence).
    assert (Hlen' : length (vaddq_f32 add (vaddq_f32 add accum (vld1q_f32 input j))
                              (vld1q_f32 input (j + 4))) = 4%nat).
    { unfold vaddq_f32, vld1q_f32.
      rewrite length_map2; rewrite ?length_load_vec; congruence. }
    destruct (IH (j + 8) _ Hlen') as [Hl Hs]. split; [exact Hl|].
    cbv zeta in Hs. rewrite Hs.
    unfold vaddq_f32, vld1q_f32 in *.
    rewrite (lsum_map2 add zero add_assoc add_comm add_zero_l)
      by (rewrite length_load_vec; congruence).
    rewrite (lsum_map2 add zero add_assoc add_comm add_zero_l)
      by (rewrite length_load_vec; congruence).
    replace (8 * Datatypes.S n)%nat with (4 + (4 + 8 * n))%nat by lia.
    rewrite !load_vec_app, !(lsum_app add zero add_assoc add_zero_l), <- !add_assoc.
    replace (j + Z.of_nat 4 + Z.of_nat 4) with (j + 8) by lia.
    reflexivity.
Qed.

(** The pairwise addition and the final addition total the lanes. *)
Lemma vpadd_total accum :
  length accum = 4%nat ->
  let accum2 := vpadd_f32 add (vget_high_f32 accum) (vget_low_f32 accum) in
  add (vget_lane_f32 zero accum2 0) (vget_lane_f32 zero accum2 1) =
  lsum add zero accum.
Proof.
  intros Hlen.
  do 4 (destruct accum as [|? accum]; [discriminate|]).
  destruct accum; [|discriminate].
  simpl. rewrite (add_zero_r add zero add_comm add_zero_l).
  rewrite (add_comm (add f1 f2)), <- !add_assoc. reflexivity.
Qed.

Lemma sum_elements_neon_refines length :
  0 <= length <= INT_MAX ->
  NEON.sum_elements add zero input length = sum_elements_na add zero input length.
Proof.
  intros Hlen. rewrite (sum_elements_na_spec add zero add_assoc add_comm add_zero_l).
  unfold NEON.sum_elements. rewrite (to_int_small length Hlen).
  cbv zeta. unfold for_loop.
  rewrite (iterate_sum add zero add_assoc add_comm add_zero_l).
  destruct (iterate_accum_neon (trip_count 0 (length - 7) 8) 0
              (vdupq_n_f32 zero) eq_refl) as [Hl Hs].
  cbv zeta in Hl, Hs.
  rewrite (vpadd_total _ Hl). rewrite Hs.
  replace (lsum add zero (vdupq_n_f32 zero)) with zero
    by (simpl; rewrite !add_zero_l; reflexivity).
  rewrite add_zero_l, <- (lsum_app add zero add_assoc add_zero_l).
  rewrite land_lnot_7.
  assert (Hn : Z.of_nat (trip_count 0 (length - 7) 8) = length / 8).
  { rewrite trip_count_exact by lia. f_equal. lia. }
  assert (Hk : Z.of_nat (trip_count (8 * (length / 8)) length 1)
               = length - 8 * (length / 8)).
  { pose proof (Z.mul_div_le length 8 ltac:(lia)).
    rewrite trip_count_exact by lia. rewrite Z.div_1_r. lia. }
  replace (8 * (length / 8))
    with (0 + Z.of_nat (8 * trip_count 0 (length - 7) 8)) at 1 by lia.
  rewrite <- load_vec_app. f_equal. f_equal. lia.
Qed.
End SumElementsNeon.

(** ** binary32 arithmetic *)

Lemma f32_mul_comm x y : f32_mul x y = f32_mul y x.
Proof.
  unfold f32_mul, SFmul.
  destruct x as [sx|sx| |sx mx ex], y as [sy|sy| |sy my ey];
    try reflexivity; try (rewrite xorb_comm; reflexivity).
  rewrite xorb_comm, Pos.mul_comm, Z.add_comm. reflexivity.
Qed.

Lemma f32_opp_involutive x : f32_opp (f32_opp x) = x.
Proof. destruct x; simpl; rewrite ?negb_involutive; reflexivity. Qed.

Lemma shr_fexp_exact m e :
  canonical_mantissa prec32 emax32 m e = true ->
  shr_fexp prec32 emax32 (Zpos m) e loc_Exact =
  ({| shr_m := Zpos m; shr_r := false; shr_s := false |}, e).
Proof.
  intros H. unfold canonical_mantissa in H. apply Z.eqb_eq in H.
  unfold shr_fexp. cbn [Zdigits2]. rewrite H, Z.sub_diag. reflexivity.
Qed.

Lemma shr_fexp_shift23 m e :
  canonical_mantissa prec32 emax32 m e = true ->
  shr_fexp prec32 emax32 (Zpos (m * 8388608)) (e + -23) loc_Exact =
  ({| shr_m := Zpos m; shr_r := false; shr_s := false |}, e).
Proof.
  intros H. unfold canonical_mantissa in H. apply Z.eqb_eq in H.
  unfold shr_fexp. rewrite Pos.mul_comm. cbn [Pos.mul Zdigits2 digits2_pos].
  rewrite !Pos2Z.inj_succ.
  replace (Z.succ (Z.succ (Z.succ (Z.succ (Z.succ (Z.succ (Z.succ (Z.succ (Z.succ (Z.succ (Z.succ (Z.succ (Z.succ (Z.succ (Z.succ (Z.succ (Z.succ (Z.succ (Z.succ (Z.succ (Z.succ (Z.succ (Z.succ (Z.pos (digits2_pos m)))))))))))))))))))))))) + (e + -23))
    with (Z.pos (digits2_pos m) + e) by lia.
  rewrite H. replace (e - (e + -23)) with 23 by lia.
  cbn [shr shr_record_of_loc iter_pos shr_1 orb].
  f_equal. lia.
Qed.

(** Multiplication by [1.0f] and by [-1.0f] is exact. *)
Lemma f32_mul_one x :
  valid_binary prec32 emax32 x = true -> f32_mul x (f32_of_int 1) = x.
Proof.
  intros Hx. change (f32_of_int 1) with (S754_finite false 8388608 (-23)).
  destruct x as [sx|sx| |sx mx ex]; try reflexivity; try (destruct sx; reflexivity).
  cbn [valid_binary] in Hx. unfold bounded in Hx.
  apply andb_true_iff in Hx. destruct Hx as [Hc He].
  unfold f32_mul, SFmul, binary_round_aux.
  rewrite (shr_fexp_shift23 mx ex Hc).
  cbn [shr_m loc_of_shr_record round_nearest_even].
  rewrite (shr_fexp_exact mx ex Hc). cbn [shr_m].
  rewrite He, xorb_false_r. reflexivity.
Qed.

Lemma f32_mul_minus_one x :
  valid_binary prec32 emax32 x = true -> f32_mul x (f32_of_int (- 1)) = f32_opp x.
Proof.
  intros Hx. change (f32_of_int (- 1)) with (S754_finite true 8388608 (-23)).
  destruct x as [sx|sx| |sx mx ex]; try reflexivity; try (destruct sx; reflexivity).
  cbn [valid_binary] in Hx. unfold bounded in Hx.
  apply andb_true_iff in Hx. destruct Hx as [Hc He].
  unfold f32_mul, SFmul, binary_round_aux.
  rewrite (shr_fexp_shift23 mx ex Hc).
  cbn [shr_m loc_of_shr_record round_nearest_even].
  rewrite (shr_fexp_exact mx ex Hc). cbn [shr_m].
  rewrite He, xorb_true_r. reflexivity.
Qed.

(** ** The product of two floats is a float *)













(** ** Complex conjugation *)

Lemma conjugate_pair_at array i res j :
  Z.odd i = true ->
  conjugate_pair array i res j =
  if in_range (i - 1) (i - 1 + 2) j then conjugated array j else res j.
Proof.
  intros Hi. unfold conjugate_pair, store, conjugated, in_range.
  destruct (Z.eqb_spec j i) as [->|Hne].
  - rewrite <- Z.negb_odd, Hi.
    destruct (Z.leb_spec (i - 1) i), (Z.ltb_spec i (i - 1 + 2)); try lia. reflexivity.
  - destruct (Z.eqb_spec j (i - 1)) as [->|Hne'].
    + replace (Z.even (i - 1)) with true
        by (rewrite Z.even_sub, <- Z.negb_odd, Hi; reflexivity).
      destruct (Z.leb_spec (i - 1) (i - 1)), (Z.ltb_spec (i - 1) (i - 1 + 2)); try lia.
      reflexivity.
    + destruct (Z.leb_spec (i - 1) j), (Z.ltb_spec j (i - 1 + 2)); try lia; reflexivity.
Qed.

Lemma iterate_shift {S} (body : Z -> S -> S) c step n :
  forall i s, iterate n (i + c) step body s = iterate n i step (fun k => body (k + c)) s.
Proof.
  induction n as [|n IH]; intros i s; [reflexivity|].
  cbn [iterate]. rewrite <- IH. f_equal. lia.
Qed.

(** The loop over the pairs that starts at an odd index. *)
Lemma conjugate_pairs array start bound res j :
  Z.odd start = true -> start - 1 <= bound ->
  for_loop start bound 2 (conjugate_pair array) res j =
  if in_range (start - 1) (start - 1 + 2 * ((bound - start + 1) / 2)) j
  then conjugated array j else res j.
Proof.
  intros Hodd Hb. unfold for_loop.
  replace start with (start - 1 + 1) at 2 by lia.
  rewrite iterate_shift.
  rewrite (iterate_blocks_on (fun i => Z.even i = true) (conjugated array) 2).
  - unfold trip_count. rewrite Z2Nat.id by (apply Z.div_pos; lia).
    replace (bound - start + 2 - 1) with (bound - start + 1) by lia. reflexivity.
  - lia.
  - intros i Hi r k. rewrite conjugate_pair_at.
    + replace (i + 1 - 1) with i by lia. reflexivity.
    + rewrite Z.odd_add, <- Z.negb_even, Hi. reflexivity.
  - intros m _. rewrite Z.even_add_mul_2, Z.even_sub, <- Z.negb_odd, Hodd. reflexivity.
Qed.

Lemma complex_conjugate_na_spec array length res j :
  0 <= length ->
  complex_conjugate_na array length res j =
  if in_range 0 (2 * (length / 2)) j then conjugated array j else res j.
Proof.
  intros Hlen.
  change (complex_conjugate_na array length res)
    with (for_loop 1 length 2 (conjugate_pair array) res).
  rewrite conjugate_pairs by (try reflexivity; lia).
  replace (length - 1 + 1) with length by lia. reflexivity.
Qed.




Section ComplexConjugate.
Variable array : buffer binary32.
Hypothesis Hvalid : forall k, valid_binary prec32 emax32 (array k) = true.




End ComplexConjugate.

(** X19: [complex_conjugate_na] negates the odd elements of the complete
    pairs, leaves an unpaired last element unwritten, and is its own
    inverse. *)
Theorem complex_conjugate_na_involutive array length res res' j :
  0 <= length ->
  complex_conjugate_na array length res j =
    (if in_range 0 (2 * (length / 2)) j
     then (if Z.even j then array j else f32_opp (array j)) else res j) /\
  (0 <= j < 2 * (length / 2) ->
   complex_conjugate_na (complex_conjugate_na array length res) length res' j = array j).
Proof.
  intros Hlen. split.
  - apply complex_conjugate_na_spec. assumption.
  - intros Hj. rewrite complex_conjugate_na_spec by assumption.
    unfold conjugated at 1. rewrite complex_conjugate_na_spec by assumption.
    rewrite (proj2 (in_range_iff _ _ _) Hj). unfold conjugated.
    destruct (Z.even j); [reflexivity|apply f32_opp_involutive].
Qed.

Lemma complex_conjugate_na_involutive_witness :
  complex_conjugate_na sample_float 7 (fun _ => f32_zero) 3 =
    (if in_range 0 (2 * (7 / 2)) 3
     then (if Z.even 3 then sample_float 3 else f32_opp (sample_float 3))
     else f32_zero) /\
  (0 <= 3 < 2 * (7 / 2) ->
   complex_conjugate_na (complex_conjugate_na sample_float 7 (fun _ => f32_zero)) 7
     (fun _ => f32_zero) 3 = sample_float 3).
Proof.
  apply (complex_conjugate_na_involutive sample_float 7 (fun _ => f32_zero)
           (fun _ => f32_zero) 3).
  lia.
Defined.





(** ** Complex multiplication *)

Lemma complex_multiply_na_at a b res k j :
  ptr_add (complex_multiply_na (ptr_add a k) (ptr_add b k) (ptr_add res k)) (- k) j =
  if j =? k + 1 then f32_add (f32_mul (a k) (b (k + 1))) (f32_mul (b k) (a (k + 1)))
  else if j =? k then f32_sub (f32_mul (a k) (b k)) (f32_mul (a (k + 1)) (b (k + 1)))
  else res j.
Proof.
  unfold complex_multiply_na, ptr_add, store. cbv zeta.
  rewrite !Z.add_0_l. replace (1 + k) with (k + 1) by lia.
  destruct (Z.eqb_spec (j + - k) 1), (Z.eqb_spec j (k + 1)); try lia; [reflexivity|].
  destruct (Z.eqb_spec (j + - k) 0), (Z.eqb_spec j k); try lia; [reflexivity|].
  f_equal. lia.
Qed.

Lemma complex_multiply_conjugate_na_at a b res k j :
  ptr_add (complex_multiply_conjugate_na (ptr_add a k) (ptr_add b k) (ptr_add res k))
          (- k) j =
  if j =? k + 1
  then f32_add (f32_mul (a k) (f32_opp (b (k + 1)))) (f32_mul (b k) (a (k + 1)))
  else if j =? k
  then f32_sub (f32_mul (a k) (b k)) (f32_mul (a (k + 1)) (f32_opp (b (k + 1))))
  else res j.
Proof.
  unfold complex_multiply_conjugate_na, ptr_add, store. cbv zeta.
  rewrite !Z.add_0_l. replace (1 + k) with (k + 1) by lia.
  destruct (Z.eqb_spec (j + - k) 1), (Z.eqb_spec j (k + 1)); try lia; [reflexivity|].
  destruct (Z.eqb_spec (j + - k) 0), (Z.eqb_spec j k); try lia; [reflexivity|].
  f_equal. lia.
Qed.

Ltac eqb_cases :=
  repeat match goal with
         | |- context [Z.eqb ?a ?b] => destruct (Z.eqb_spec a b); try lia
         end.

(** The AVX [complex_multiply] is the reference [complex_multiply_na]
    applied to each of the four complex numbers of the registers. *)
Lemma complex_multiply_avx_spec a b res j :
  let step k r :=
    ptr_add (complex_multiply_na (ptr_add a k) (ptr_add b k) (ptr_add r k)) (- k) in
  AVX.complex_multiply a b res j = step 6 (step 4 (step 2 (step 0 res))) j.
Proof.
  cbv beta zeta. rewrite !complex_multiply_na_at.
  unfold AVX.complex_multiply. cbv zeta.
  unfold _mm256_store_ps, _mm256_addsub_ps, _mm256_mul_ps, _mm256_shuffle_ps,
    _mm256_moveldup_ps, _mm256_movehdup_ps, _mm256_load_ps, load_vec.
  cbn [seq map map2 firstn skipn app nth Z.of_nat Pos.of_succ_nat Pos.succ Z.add
       Pos.add Pos.succ Z.to_nat Z.land Z.shiftr Z.mul Pos.mul store_vec].
  unfold store.
  cbn [Z.add Pos.add Pos.succ].
  eqb_cases; subst; try reflexivity;
    rewrite (f32_mul_comm (b _) (a _)); reflexivity.
Qed.

(** The AVX [complex_multiply_conjugate] is the reference
    [complex_multiply_conjugate_na] applied to each of the four complex
    numbers: its multiplication by [1, -1, ...] is the conjugation. *)
Lemma complex_multiply_conjugate_avx_spec a b res j :
  (forall k, valid_binary prec32 emax32 (b k) = true) ->
  let step k r :=
    ptr_add (complex_multiply_conjugate_na (ptr_add a k) (ptr_add b k) (ptr_add r k))
            (- k) in
  AVX.complex_multiply_conjugate a b res j = step 6 (step 4 (step 2 (step 0 res))) j.
Proof.
  intros Hb. cbv beta zeta. rewrite !complex_multiply_conjugate_na_at.
  unfold AVX.complex_multiply_conjugate. cbv zeta.
  unfold _mm256_store_ps, _mm256_addsub_ps, _mm256_mul_ps, _mm256_shuffle_ps,
    _mm256_moveldup_ps, _mm256_movehdup_ps, _mm256_load_ps, _mm256_set_ps, load_vec.
  cbn [seq map map2 firstn skipn app nth Z.of_nat Pos.of_succ_nat Pos.succ Z.add
       Pos.add Pos.succ Z.to_nat Z.land Z.shiftr Z.mul Pos.mul store_vec].
  rewrite !f32_mul_one, !f32_mul_minus_one by apply Hb.
  unfold store.
  cbn [Z.add Pos.add Pos.succ].
  eqb_cases; subst; try reflexivity;
    rewrite (f32_mul_comm (b _) (a _)); reflexivity.
Qed.

(** X22: the AVX [complex_multiply] and [complex_multiply_conjugate] are the
    references [complex_multiply_na] and [complex_multiply_conjugate_na]
    applied to each of the four complex numbers of the registers; the
    multiplication by [1, -1, ...] of the second is the conjugation. *)
Theorem complex_multiply_avx_refines a b res j :
  (forall k, valid_binary prec32 emax32 (b k) = true) ->
  let step k r :=
    ptr_add (complex_multiply_na (ptr_add a k) (ptr_add b k) (ptr_add r k)) (- k) in
  let stepc k r :=
    ptr_add (complex_multiply_conjugate_na (ptr_add a k) (ptr_add b k) (ptr_add r k))
            (- k) in
  AVX.complex_multiply a b res j = step 6 (step 4 (step 2 (step 0 res))) j /\
  AVX.complex_multiply_conjugate a b res j = stepc 6 (stepc 4 (stepc 2 (stepc 0 res))) j.
Proof.
  intros Hb. cbv beta zeta. split.
  - apply complex_multiply_avx_spec.
  - apply complex_multiply_conjugate_avx_spec. exact Hb.
Qed.

Lemma complex_multiply_avx_refines_witness :
  let a := ptr_add sample_float 2 in
  let b := sample_float in
  let res := fun _ : Z => f32_zero in
  let step k r :=
    ptr_add (complex_multiply_na (ptr_add a k) (ptr_add b k) (ptr_add r k)) (- k) in
  let stepc k r :=
    ptr_add (complex_multiply_conjugate_na (ptr_add a k) (ptr_add b k) (ptr_add r k))
            (- k) in
  AVX.complex_multiply a b res 3 = step 6 (step 4 (step 2 (step 0 res))) 3 /\
  AVX.complex_multiply_conjugate a b res 3 = stepc 6 (stepc 4 (stepc 2 (stepc 0 res))) 3.
Proof.
  exact (complex_multiply_avx_refines (ptr_add sample_float 2) sample_float
           (fun _ => f32_zero) 3 sample_float_valid).
Defined.

(** [complex_multiply_conjugate_na] is [complex_multiply_na] on the
    conjugate of its second argument. *)
Lemma complex_multiply_conjugate_na_composes a b res tmp j :
  complex_multiply_conjugate_na a b res j =
  complex_multiply_na a (complex_conjugate_na b 2 tmp) res j.
Proof.
  unfold complex_multiply_conjugate_na, complex_multiply_na. cbv zeta.
  assert (H0 : complex_conjugate_na b 2 tmp 0 = b 0) by reflexivity.
  assert (H1 : complex_conjugate_na b 2 tmp 1 = f32_opp (b 1)) by reflexivity.
  rewrite H0, H1. reflexivity.
Qed.



(** ** The footprint of real_multiply_scalar *)




(** ** More on next_highest_power_of_2 *)

Lemma next_highest_power_of_2_pow2 k :
  0 <= k <= 30 -> next_highest_power_of_2 (2 ^ k) = 2 ^ k.
Proof.
  intros Hk. destruct (Z.eq_dec k 0) as [->|Hne]; [reflexivity|].
  assert (2 <= 2 ^ k) by (change 2 with (2 ^ 1) at 1; apply Z.pow_le_mono_r; lia).
  assert (2 ^ k <= 2 ^ 30) by (apply Z.pow_le_mono_r; lia).
  rewrite next_highest_power_of_2_log2 by lia.
  rewrite Z.sub_1_r, Z.log2_pred_pow2 by lia. f_equal. lia.
Qed.

(** X28: for [1 <= v <= 2^30] the result of [next_highest_power_of_2] is
    less than twice [v]; the function is idempotent and monotone. *)
Theorem next_highest_power_of_2_bounds v w :
  1 <= v <= w -> w <= 2 ^ 30 ->
  v <= next_highest_power_of_2 v < 2 * v /\
  next_highest_power_of_2 (next_highest_power_of_2 v) = next_highest_power_of_2 v /\
  next_highest_power_of_2 v <= next_highest_power_of_2 w.
Proof.
  intros Hv Hw.
  assert (Hone : next_highest_power_of_2 1 = 1) by reflexivity.
  assert (Hgen : forall x, 2 <= x <= 2 ^ 30 ->
            next_highest_power_of_2 x = 2 ^ (Z.log2 (x - 1) + 1) /\
            0 <= Z.log2 (x - 1) < 30 /\
            2 ^ Z.log2 (x - 1) <= x - 1 < 2 ^ (Z.log2 (x - 1) + 1)).
  { intros x Hx. split; [apply next_highest_power_of_2_log2; assumption|].
    pose proof (Z.log2_nonneg (x - 1)).
    pose proof (Z.log2_spec (x - 1) ltac:(lia)) as [Hlo Hhi].
    rewrite <- Z.add_1_r in Hhi.
    split; [|lia]. split; [assumption|].
    apply (Z.pow_lt_mono_r_iff 2); lia. }
  destruct (Z.eq_dec v 1) as [->|Hv1].
  - rewrite Hone. split; [lia|]. split; [reflexivity|].
    destruct (Z.eq_dec w 1) as [->|Hw1]; [rewrite Hone; lia|].
    destruct (Hgen w ltac:(lia)) as (-> & Hk & _).
    assert (0 < 2 ^ (Z.log2 (w - 1) + 1)) by (apply Z.pow_pos_nonneg; lia). lia.
  - destruct (Hgen v ltac:(lia)) as (Hr & Hk & Hlo & Hhi).
    rewrite Hr.
    assert (Hp : 2 ^ (Z.log2 (v - 1) + 1) = 2 * 2 ^ Z.log2 (v - 1))
      by (rewrite <- Z.pow_succ_r by lia; f_equal).
    split; [lia|]. split.
    + apply next_highest_power_of_2_pow2. lia.
    + destruct (Hgen w ltac:(lia)) as (-> & Hkw & _).
      apply Z.pow_le_mono_r; [lia|].
      assert (Z.log2 (v - 1) <= Z.log2 (w - 1)) by (apply Z.log2_le_mono; lia). lia.
Qed.

Lemma next_highest_power_of_2_bounds_witness :
  5 <= next_highest_power_of_2 5 < 2 * 5 /\
  next_highest_power_of_2 (next_highest_power_of_2 5) = next_highest_power_of_2 5 /\
  next_highest_power_of_2 5 <= next_highest_power_of_2 9.
Proof.
  apply (next_highest_power_of_2_bounds 5 9).
  - lia.
  - simpl. lia.
Defined.

Lemma to_int_small_signed z : - 2 ^ 31 <= z < 2 ^ 31 -> to_int z = z.
Proof. intros Hz. apply to_signed_small; [lia|exact Hz]. Qed.

(** X29: for a value that is zero or negative (above [INT_MIN]) the result
    of [next_highest_power_of_2] is zero. *)
Theorem next_highest_power_of_2_nonpositive v :
  - 2 ^ 31 < v <= 0 -> next_highest_power_of_2 v = 0.
Proof.
  intros Hv. unfold next_highest_power_of_2.
  rewrite (to_int_small_signed (v - 1)) by lia.
  set (x := v - 1). cbv zeta.
  set (v1 := Z.lor x (Z.shiftr x 1)).
  set (v2 := Z.lor v1 (Z.shiftr v1 2)).
  set (v3 := Z.lor v2 (Z.shiftr v2 4)).
  set (v4 := Z.lor v3 (Z.shiftr v3 8)).
  set (v5 := Z.lor v4 (Z.shiftr v4 16)).
  assert (H0 : forall i, 0 <= i ->
     Z.testbit x i = true <-> exists d, 0 <= d < 1 /\ Z.testbit x (i + d) = true).
  { intros i Hi. split.
    - intros Hb. exists 0. split; [lia|]. rewrite Z.add_0_r. assumption.
    - intros (d & Hd & Hb). replace (i + d) with i in Hb by lia. assumption. }
  pose proof (smear_bits x x 1 1 ltac:(lia) H0) as H1. fold v1 in H1.
  pose proof (smear_bits x v1 2 2 ltac:(lia) H1) as H2. fold v2 in H2.
  pose proof (smear_bits x v2 4 4 ltac:(lia) H2) as H3. fold v3 in H3.
  pose proof (smear_bits x v3 8 8 ltac:(lia) H3) as H4. fold v4 in H4.
  pose proof (smear_bits x v4 16 16 ltac:(lia) H4) as H5. fold v5 in H5.
  assert (Hm1 : v5 = - 1).
  { apply Z.bits_inj'. intros i Hi. rewrite Z.bits_m1 by assumption.
    apply H5; [assumption|]. exists 31. split; [simpl; lia|].
    apply Z.bits_above_log2_neg; [subst x; lia|].
    assert (Hp : 0 <= Z.pred (- x) < 2 ^ 31) by (subst x; lia).
    destruct (Z.eq_dec (Z.pred (- x)) 0) as [->|Hne]; [simpl; lia|].
    assert (Z.log2 (Z.pred (- x)) < 31) by (apply Z.log2_lt_pow2; lia). lia. }
  rewrite Hm1. reflexivity.
Qed.

Lemma next_highest_power_of_2_nonpositive_witness :
  next_highest_power_of_2 (- 3) = 0.
Proof.
  apply (next_highest_power_of_2_nonpositive (- 3)). simpl. lia.
Defined.

(** ** The reference decoder on every word *)

(** X24: [float16_to_float_na] decodes every 16-bit word to the number the
    word denotes. *)
Theorem float16_decode_value h :
  0 <= h < 65536 -> f32_of_bits (float16_decode h) = binary16_value h.
Proof.
  intros Hh.
  assert (H : forall_range (Z.to_nat 65536) 0
                (fun h => binary32_eqb (f32_of_bits (float16_decode h))
                                       (binary16_value h)) = true)
    by (vm_compute; reflexivity).
  apply binary32_eqb_eq.
  exact (forall_range_spec _ _ _ H h ltac:(lia)).
Qed.

Lemma float16_decode_value_witness :
  f32_of_bits (float16_decode 0x3555) = binary16_value 0x3555.
Proof. apply (float16_decode_value 0x3555). lia. Defined.

Lemma float16_decode_step h :
  0 <= h < 32767 -> float16_decode h < float16_decode (h + 1).
Proof.
  intros Hh.
  assert (H : forall_range (Z.to_nat 32767) 0
                (fun h => float16_decode h <? float16_decode (h + 1)) = true)
    by (vm_compute; reflexivity).
  apply Z.ltb_lt. exact (forall_range_spec _ _ _ H h ltac:(lia)).
Qed.

Lemma float16_decode_sign h :
  0 <= h < 32768 ->
  0 <= float16_decode h < 2 ^ 31 /\
  float16_decode (h + 32768) = float16_decode h + 2 ^ 31.
Proof.
  intros Hh.
  assert (H : forall_range (Z.to_nat 32768) 0
                (fun h => (0 <=? float16_decode h) && (float16_decode h <? 2 ^ 31)
                          && (float16_decode (h + 32768) =? float16_decode h + 2 ^ 31))
              = true)
    by (vm_compute; reflexivity).
  pose proof (forall_range_spec _ _ _ H h ltac:(lia)) as Hc. cbv beta in Hc.
  apply andb_true_iff in Hc. destruct Hc as [Hc He].
  apply andb_true_iff in Hc. destruct Hc as [H0 H1].
  apply Z.leb_le in H0. apply Z.ltb_lt in H1. apply Z.eqb_eq in He. lia.
Qed.

Lemma float16_decode_increasing h1 h2 :
  0 <= h1 -> h1 < h2 -> h2 < 32768 -> float16_decode h1 < float16_decode h2.
Proof.
  intros H1 H12 H2.
  replace h2 with (h1 + 1 + Z.of_nat (Z.to_nat (h2 - h1 - 1))) in * by lia.
  induction (Z.to_nat (h2 - h1 - 1)) as [|n IH].
  - rewrite Z.add_0_r. apply float16_decode_step. lia.
  - rewrite Nat2Z.inj_succ in *.
    apply Z.lt_trans with (float16_decode (h1 + 1 + Z.of_nat n)).
    + apply IH; lia.
    + replace (h1 + 1 + Z.succ (Z.of_nat n)) with (h1 + 1 + Z.of_nat n + 1) by lia.
      apply float16_decode_step. lia.
Qed.

(** X25: the decoder keeps the order of the words of each sign, moves the
    sign bit to bit 31, and so maps different words to different floats. *)
Theorem float16_decode_injective h1 h2 :
  0 <= h1 < 65536 -> 0 <= h2 < 65536 ->
  (h1 < h2 < 32768 -> float16_decode h1 < float16_decode h2) /\
  (h1 < 32768 -> float16_decode (h1 + 32768) = float16_decode h1 + 2 ^ 31) /\
  (float16_decode h1 = float16_decode h2 -> h1 = h2).
Proof.
  intros Hh1 Hh2.
  split; [intros H; apply float16_decode_increasing; lia|].
  split; [intros H; apply float16_decode_sign; lia|].
  intros Heq.
  assert (Hinj : forall a b, 0 <= a < 32768 -> 0 <= b < 32768 ->
                   float16_decode a = float16_decode b -> a = b).
  { intros a b Ha Hb E.
    destruct (Z.lt_trichotomy a b) as [Hlt|[->|Hgt]]; [|reflexivity|].
    - pose proof (float16_decode_increasing a b ltac:(lia) Hlt ltac:(lia)). lia.
    - pose proof (float16_decode_increasing b a ltac:(lia) Hgt ltac:(lia)). lia. }
  destruct (Z.lt_ge_cases h1 32768) as [L1|G1], (Z.lt_ge_cases h2 32768) as [L2|G2].
  - apply Hinj; lia.
  - destruct (float16_decode_sign h1 ltac:(lia)) as [B1 _].
    destruct (float16_decode_sign (h2 - 32768) ltac:(lia)) as [B2 E2].
    replace (h2 - 32768 + 32768) with h2 in E2 by lia. lia.
  - destruct (float16_decode_sign h2 ltac:(lia)) as [B2 _].
    destruct (float16_decode_sign (h1 - 32768) ltac:(lia)) as [B1 E1].
    replace (h1 - 32768 + 32768) with h1 in E1 by lia. lia.
  - destruct (float16_decode_sign (h1 - 32768) ltac:(lia)) as [B1 E1].
    destruct (float16_decode_sign (h2 - 32768) ltac:(lia)) as [B2 E2].
    replace (h1 - 32768 + 32768) with h1 in E1 by lia.
    replace (h2 - 32768 + 32768) with h2 in E2 by lia.
    assert (h1 - 32768 = h2 - 32768) by (apply Hinj; lia). lia.
Qed.

Lemma float16_decode_injective_witness :
  (0x0400 < 0x3c00 < 32768 -> float16_decode 0x0400 < float16_decode 0x3c00) /\
  (0x0400 < 32768 -> float16_decode (0x0400 + 32768) = float16_decode 0x0400 + 2 ^ 31) /\
  (float16_decode 0x0400 = float16_decode 0x3c00 -> 0x0400 = 0x3c00).
Proof. apply (float16_decode_injective 0x0400 0x3c00); lia. Defined.

(** ** float_to_int32 on the x86 builds *)





(** ** The NEON widenings *)

(** X9: the NEON [int16_to_float] and [int16_to_int32] are the references
    at every index. *)
Theorem int16_widening_neon_refines data length res resf j :
  (forall k, - 32768 <= data k <= 32767) ->
  0 <= length <= INT_MAX ->
  NEON.int16_to_float data length resf j = int16_to_float_na data length resf j /\
  NEON.int16_to_int32 data length res j = int16_to_int32_na data length res j.
Proof.
  intros Hdata Hlen.
  rewrite int16_to_float_na_spec, int16_to_int32_na_spec.
  assert (Hint : to_int length = length) by (apply to_int_small; lia).
  assert (Hext : forall k, to_int32 (data k) = data k).
  { intros k. apply to_signed_small; [lia|]. pose proof (Hdata k). simpl. lia. }
  pose proof (block_end_bounds 4 0 length ltac:(lia) ltac:(lia)) as Hb.
  rewrite Z.sub_0_r in Hb.
  split.
  - unfold NEON.int16_to_float. rewrite Hint. cbv zeta. rewrite land_lnot_3.
    rewrite (for_loop_store (fun j => f32_of_int (data j))).
    rewrite (for_loop_blocks (fun j => f32_of_int (data j)) 4); [|lia|].
    + rewrite trip_count_exact by lia.
      replace (length - 3 - 0 + 4 - 1) with length by lia. range_cases.
    + intros i r k. unfold vst1q_f32, vcvtq_f32_s32, vmovl_s16, vld1_s16.
      rewrite map_map.
      apply (store_vec_map 0 (fun x => f32_of_int (to_int32 x)) data
               (fun j => f32_of_int (data j)) 4).
      intros n _. rewrite Hext. reflexivity.
  - unfold NEON.int16_to_int32. rewrite Hint. cbv zeta. rewrite land_lnot_3.
    rewrite (for_loop_store (fun j => cast_f32_int32 (f32_of_int (data j)))).
    rewrite (for_loop_blocks (fun j => to_int32 (data j)) 4); [|lia|].
    + rewrite trip_count_exact by lia.
      replace (length - 3 - 0 + 4 - 1) with length by lia.
      destruct (int16_float_exact (data j) (Hdata j)) as (_ & _ & H32).
      rewrite H32, Hext. range_cases.
    + intros i r k. unfold vst1q_s32, vmovl_s16, vld1_s16.
      apply (store_vec_map 0 to_int32 data (fun j => to_int32 (data j)) 4).
      reflexivity.
Qed.

Lemma int16_widening_neon_refines_witness :
  NEON.int16_to_float sample_int16 19 (fun _ => f32_zero) 17 =
    int16_to_float_na sample_int16 19 (fun _ => f32_zero) 17 /\
  NEON.int16_to_int32 sample_int16 19 (fun _ => 0) 17 =
    int16_to_int32_na sample_int16 19 (fun _ => 0) 17.
Proof.
  apply (int16_widening_neon_refines sample_int16 19 (fun _ => 0) (fun _ => f32_zero) 17).
  - exact sample_int16_range.
  - unfold INT_MAX. simpl. lia.
Defined.

(** ** The NEON conversions from float *)




(** ** The NEON add_to_all on a whole array *)

Section AddToAllNeon.
Variables (input : buffer binary32) (value : binary32).


End AddToAllNeon.



(** X16: the NEON [sum_elements] adds every element once, in another order
    than the reference (four partial sums over the blocks of eight, totalled
    pairwise, then the tail): for a length that fits [int] it is the total
    of the reference whenever the addition is associative and commutative
    with the initial value as unit. *)
Theorem sum_elements_neon_reassociates {F} (add : F -> F -> F) (zero : F)
        (input : buffer F) (length : Z) :
  (forall a b c, add a (add b c) = add (add a b) c) ->
  (forall a b, add a b = add b a) ->
  (forall a, add zero a = a) ->
  0 <= length <= INT_MAX ->
  NEON.sum_elements add zero input length = sum_elements_na add zero input length.
Proof.
  intros Ha Hc Hz Hlen. apply sum_elements_neon_refines; assumption.
Qed.

Lemma sum_elements_neon_reassociates_witness :
  NEON.sum_elements Z.add 0 sample_int32 19 = sum_elements_na Z.add 0 sample_int32 19.
Proof.
  apply (sum_elements_neon_reassociates Z.add 0 sample_int32 19).
  - intros a b c. apply Z.add_assoc.
  - intros a b. apply Z.add_comm.
  - intros a. apply Z.add_0_l.
  - split; [lia | exact int_max_19].
Defined.

(** ** Instances of the statements on the decoders and on add_to_all *)

Lemma add_to_all_avx_refines_witness :
  AVX.add_to_all f32_add sample_float 19 (f32_of_int 3) (fun _ => S754_nan) 13 =
  add_to_all_na f32_add sample_float 19 (f32_of_int 3) (fun _ => S754_nan) 13.
Proof.
  apply (add_to_all_avx_refines sample_float 19 (f32_of_int 3) (fun _ => S754_nan) 13).
  - unfold INT_MAX. simpl. lia.
  - lia.
Defined.

Lemma float16_to_float_sse_refines_witness :
  SSE.float16_to_float 3 sample_half 19 (fun _ => 0) 12 =
  float16_to_float_na sample_half 19 (fun _ => 0) 12.
Proof.
  apply (float16_to_float_sse_refines 3 sample_half 19 (fun _ => 0) 12).
  - exact sample_half_range.
  - unfold INT_MAX. simpl. lia.
  - lia.
  - lia.
Defined.


